(** * idm-go: a verification development for the download engine

    The Go packages [storage] (the SQLite-backed record store) and [core]
    (queue, rate limiter, chunk fetcher, job runner and download manager)
    are embedded as Rocq functions, package by package, and the properties
    of the engine are stated and proved about these functions.

    Conventions of the embedding:
    - [int64] and [int] values are [Z]; every Go addition or multiplication
      that can wrap is written with [wrap64];
    - [float64] values are the kernel's binary64 floats, and [int64(f)] is
      the conversion as compiled for amd64;
    - a [time.Time] is the number of nanoseconds since the Unix epoch, and
      [time.Now()] is an argument supplied by the caller of each step; the
      [CreatedAt] of a record, which the store orders by, carries the
      offset of its zone as well;
    - the SQLite table is a finite map from row id to row, with the
      AUTOINCREMENT counter next to it; a row holds what was written to
      its columns, and the reads say what SQLite and the driver make of it;
    - a [*DownloadJob] is an address into a heap of jobs, so that the
      registry, the runner goroutine and the statistics loop share one
      object as they do in the program;
    - a goroutine is a sequence of steps that the caller interleaves; what
      the network and the file system answer is an argument of the step. *)

From Stdlib Require Import ZArith Lia Ascii.
From Stdlib Require Import Floats.PrimFloat Floats.FloatOps Floats.SpecFloat.
From Stdlib Require Import Numbers.Cyclic.Int63.Uint63.
From stdpp Require Import gmap strings list fin_maps sorting.

Local Open Scope Z_scope.

(** ** Machine integers, floats and time *)

Definition wrap64 (z : Z) : Z := (z + 2 ^ 63) mod 2 ^ 64 - 2 ^ 63.

Definition in_int64 (z : Z) : Prop := - 2 ^ 63 <= z < 2 ^ 63.

(** Outcome of Go code that can panic at run time. *)
Inductive exec (A : Type) : Type :=
  | Done (a : A)
  | Panic (msg : string).
Arguments Done {A} a.
Arguments Panic {A} msg.

(** Go's [/] on integers: truncated division, a run-time panic on zero. *)
Definition go_div (a b : Z) : exec Z :=
  if b =? 0 then Panic "runtime error: integer divide by zero"
  else Done (wrap64 (Z.quot a b)).

(** [float64(x)] for an [int64] x: round to nearest, ties to even. *)
Definition float64_of_int (z : Z) : float :=
  if z =? - 2 ^ 63 then (-0x1p+63)%float
  else if z <? 0 then PrimFloat.opp (PrimFloat.of_uint63 (Uint63.of_Z (- z)))
  else PrimFloat.of_uint63 (Uint63.of_Z z).

(** [int64(f)] for a [float64] f: truncation toward zero.  Where the
    truncated value is not an [int64] (and for NaN and the infinities) Go
    leaves the result to the implementation; on amd64 the conversion is
    one CVTTSD2SQ, which then gives the smallest [int64]. *)
Definition int64_of_float (f : float) : Z :=
  match Prim2SF f with
  | S754_zero _ => 0
  | S754_finite s m e =>
      let mag := if 0 <=? e then Z.pos m * 2 ^ e else Z.pos m / 2 ^ (- e) in
      if (mag <? 2 ^ 63) then (if s then - mag else mag) else - 2 ^ 63
  | S754_infinity _ | S754_nan => - 2 ^ 63
  end.

Definition Time : Type := Z.
Definition Duration : Type := Z.

Definition Second : Duration := 1000000000.

(** The zero [time.Time]: January 1, year 1, 00:00:00 UTC. *)
Definition zeroTime : Time := -62135596800 * 1000000000.

Definition IsZero (t : Time) : bool := t =? zeroTime.

(** [t.Sub(u)]: the difference, saturated to the range of [Duration]. *)
Definition Sub (t u : Time) : Duration :=
  Z.max (- 2 ^ 63) (Z.min (2 ^ 63 - 1) (t - u)).

(** [d.Seconds()]: the whole seconds plus the nanosecond rest over 1e9. *)
Definition Seconds (d : Duration) : float :=
  PrimFloat.add (float64_of_int (Z.quot d Second))
                (PrimFloat.div (float64_of_int (Z.rem d Second)) 1e9%float).

(** A [time.Time] on its way through the store: the instant, and the
    offset of its zone in minutes east of UTC.  The driver binds it as the
    text of the layout ["2006-01-02 15:04:05.999999999-07:00"], the
    wall-clock time of the zone followed by the offset, and parses that
    text back to the same instant and offset.  (Times are taken within the
    years 0000 to 9999 and offsets below 24 hours, as every [time.Now()]
    is; there the date has its fixed width.) *)
Record Stamp : Type := mkStamp {
  instant : Time;
  zone : Z
}.

Definition UTC (t : Time) : Stamp := mkStamp t 0.

Definition Minute : Duration := 60 * Second.

(** The wall-clock reading of a stamp, as nanoseconds: what the date, the
    time of day and the fraction of its text spell. *)
Definition wall (s : Stamp) : Z := instant s + zone s * Minute.

(** The place of an offset's text among the offsets: ["+hh:mm"] sorts
    before ["-hh:mm"] (['+'] is byte 43, ['-'] byte 45), and under one
    sign the hours and minutes count. *)
Definition zone_key (z : Z) : Z := if z <? 0 then 1440 - z else z.

(** The order of the texts of two stamps, byte by byte: the wall-clock
    reading decides (a digit of the fraction sorts above the sign that
    ends a shorter fraction), then the offset. *)
Definition text_le (a b : Stamp) : Prop :=
  wall a < wall b
  ∨ (wall a = wall b ∧ zone_key (zone a) <= zone_key (zone b)).

#[global] Instance text_le_dec (a b : Stamp) : Decision (text_le a b).
Proof. unfold text_le. apply _. Defined.

(** ** Package storage *)

Module storage.

(** [type DownloadStatus int] with its [iota] constants. *)
Definition DownloadStatus : Type := Z.

Definition StatusPending : DownloadStatus := 0.
Definition StatusDownloading : DownloadStatus := 1.
Definition StatusPaused : DownloadStatus := 2.
Definition StatusCompleted : DownloadStatus := 3.
Definition StatusFailed : DownloadStatus := 4.
Definition StatusCancelled : DownloadStatus := 5.

Record Download : Type := mkDownload {
  ID : Z;
  URL : string;
  Filename : string;
  Path : string;
  Size : Z;
  Downloaded : Z;
  Status : DownloadStatus;
  Speed : Z;
  Progress : float;
  CreatedAt : Stamp;
  StartedAt : option Time;
  CompletedAt : option Time;
  Error : string;
  Chunks : Z
}.

Definition set_ID (v : Z) (d : Download) : Download :=
  mkDownload v (URL d) (Filename d) (Path d) (Size d) (Downloaded d)
    (Status d) (Speed d) (Progress d) (CreatedAt d) (StartedAt d)
    (CompletedAt d) (Error d) (Chunks d).

Definition set_Downloaded (v : Z) (d : Download) : Download :=
  mkDownload (ID d) (URL d) (Filename d) (Path d) (Size d) v
    (Status d) (Speed d) (Progress d) (CreatedAt d) (StartedAt d)
    (CompletedAt d) (Error d) (Chunks d).

Definition set_Status (v : DownloadStatus) (d : Download) : Download :=
  mkDownload (ID d) (URL d) (Filename d) (Path d) (Size d) (Downloaded d)
    v (Speed d) (Progress d) (CreatedAt d) (StartedAt d)
    (CompletedAt d) (Error d) (Chunks d).

Definition set_Speed (v : Z) (d : Download) : Download :=
  mkDownload (ID d) (URL d) (Filename d) (Path d) (Size d) (Downloaded d)
    (Status d) v (Progress d) (CreatedAt d) (StartedAt d)
    (CompletedAt d) (Error d) (Chunks d).

Definition set_Progress (v : float) (d : Download) : Download :=
  mkDownload (ID d) (URL d) (Filename d) (Path d) (Size d) (Downloaded d)
    (Status d) (Speed d) v (CreatedAt d) (StartedAt d)
    (CompletedAt d) (Error d) (Chunks d).

Definition set_StartedAt (v : option Time) (d : Download) : Download :=
  mkDownload (ID d) (URL d) (Filename d) (Path d) (Size d) (Downloaded d)
    (Status d) (Speed d) (Progress d) (CreatedAt d) v
    (CompletedAt d) (Error d) (Chunks d).

Definition set_CompletedAt (v : option Time) (d : Download) : Download :=
  mkDownload (ID d) (URL d) (Filename d) (Path d) (Size d) (Downloaded d)
    (Status d) (Speed d) (Progress d) (CreatedAt d) (StartedAt d)
    v (Error d) (Chunks d).

Definition set_Error (v : string) (d : Download) : Download :=
  mkDownload (ID d) (URL d) (Filename d) (Path d) (Size d) (Downloaded d)
    (Status d) (Speed d) (Progress d) (CreatedAt d) (StartedAt d)
    (CompletedAt d) v (Chunks d).

(** One row of the table [downloads] of [createTables], as the values
    that were written to its columns.  The columns [started_at],
    [completed_at] and [error] carry no default and can hold NULL; the
    others are written by every INSERT or take their DEFAULT.
    [col_progress] is the double that was bound to the REAL column: what
    SQLite keeps of it is [real_column] below.  [col_created_at] is the
    time whose text the DATETIME column holds. *)
Record Row : Type := mkRow {
  col_url : string;
  col_filename : string;
  col_path : string;
  col_size : Z;
  col_downloaded : Z;
  col_status : Z;
  col_speed : Z;
  col_progress : float;
  col_created_at : Stamp;
  col_started_at : option Time;
  col_completed_at : option Time;
  col_error : option string;
  col_chunks : Z
}.

(** What a REAL column holds once a double has been bound to it: SQLite
    turns a NaN into NULL, and keeps a double without fraction as an
    integer, which loses the sign of a negative zero; every other double
    is read back as it was written. *)
Definition real_column (f : float) : option float :=
  if PrimFloat.is_nan f then None
  else if PrimFloat.eqb f 0%float then Some 0%float
  else Some f.

(** The database handle: the rows by [id], and the largest id that
    AUTOINCREMENT has handed out so far. *)
Record DB : Type := mkDB {
  rows : gmap Z Row;
  last_id : Z
}.

Definition emptyDB : DB := mkDB ∅ 0.

Inductive StoreError : Type :=
  | ErrNoRows                     (* sql.ErrNoRows *)
  | ErrScanNull (column : string) (* Scan: NULL into a plain Go value *)
  | ErrFull.                      (* SQLITE_FULL *)

(** The largest rowid of SQLite. *)
Definition max_rowid : Z := 2 ^ 63 - 1.

(** [SaveDownload]: the INSERT names eight columns; [speed] and [progress]
    take their DEFAULT 0 and the three nullable columns stay NULL.
    AUTOINCREMENT hands out the id above the largest one it has handed
    out; once that was the largest rowid, the INSERT fails with
    SQLITE_FULL and the function returns that error. *)
Definition SaveDownload (db : DB) (download : Download)
  : DB * (StoreError + Z) :=
  if last_id db <? max_rowid then
    let id := last_id db + 1 in
    let row :=
      mkRow (URL download) (Filename download) (Path download)
        (Size download) (Downloaded download) (Status download)
        0 0%float (CreatedAt download) None None None (Chunks download) in
    (mkDB (<[id := row]> (rows db)) id, inr id)
  else (db, inl ErrFull).

(** [UpdateDownload]: the UPDATE sets seven columns of the row whose id is
    [download.ID]; no such row, no change.  A nil [*time.Time] is written
    as NULL, the [Error] string always as text. *)
Definition UpdateDownload (db : DB) (download : Download) : DB :=
  let upd (r : Row) : Row :=
    mkRow (col_url r) (col_filename r) (col_path r) (col_size r)
      (Downloaded download) (Status download) (Speed download)
      (Progress download) (col_created_at r)
      (StartedAt download) (CompletedAt download)
      (Some (Error download)) (col_chunks r) in
  mkDB (alter upd (ID download) (rows db)) (last_id db).

(** The [Scan] of one row, in [GetDownload] and in [GetAllDownloads]: the
    columns are converted in the order of the SELECT, and the first one
    that does not convert ends the scan.  The destinations of [progress]
    and of [error] are a plain [float64] and a plain [string], and
    [database/sql] refuses to convert NULL to either, so a row whose
    progress was written as NaN, or whose [error] is NULL, does not load;
    the two timestamps go through [sql.NullTime]. *)
Definition scan_row (id : Z) (r : Row) : StoreError + Download :=
  match real_column (col_progress r) with
  | None => inl (ErrScanNull "progress")
  | Some progress =>
      match col_error r with
      | None => inl (ErrScanNull "error")
      | Some e =>
          inr (mkDownload id (col_url r) (col_filename r) (col_path r)
                 (col_size r) (col_downloaded r) (col_status r)
                 (col_speed r) progress (col_created_at r)
                 (col_started_at r) (col_completed_at r) e (col_chunks r))
      end
  end.

(** [GetDownload]: SELECT by id and [row.Scan]. *)
Definition GetDownload (db : DB) (id : Z) : StoreError + Download :=
  match rows db !! id with
  | None => inl ErrNoRows
  | Some r => scan_row id r
  end.

Definition DeleteDownload (db : DB) (id : Z) : DB :=
  mkDB (delete id (rows db)) (last_id db).

(** [DownloadStatus.String] *)
Definition DownloadStatus_String (s : DownloadStatus) : string :=
  if decide (s = StatusPending) then "Pending"
  else if decide (s = StatusDownloading) then "Downloading"
  else if decide (s = StatusPaused) then "Paused"
  else if decide (s = StatusCompleted) then "Completed"
  else if decide (s = StatusFailed) then "Failed"
  else if decide (s = StatusCancelled) then "Cancelled"
  else "Unknown".

(** [ORDER BY created_at DESC]: the column holds the driver's text of
    the time, and SQLite compares the texts. *)
Definition created_desc (a b : Z * Row) : Prop :=
  text_le (col_created_at b.2) (col_created_at a.2).

#[global] Instance created_desc_dec (a b : Z * Row) : Decision (created_desc a b).
Proof. unfold created_desc. apply _. Defined.

(** The [for rows.Next()] loop: the first row that does not scan ends it
    with that error and no list. *)
Fixpoint scan_rows (l : list (Z * Row)) : StoreError + list Download :=
  match l with
  | [] => inr []
  | (id, r) :: rest =>
      match scan_row id r with
      | inl e => inl e
      | inr d =>
          match scan_rows rest with
          | inl e => inl e
          | inr ds => inr (d :: ds)
          end
      end
  end.

(** [GetAllDownloads].  SQLite fixes no order among rows of equal
    [created_at]; they come here as the sort leaves them. *)
Definition GetAllDownloads (db : DB) : StoreError + list Download :=
  scan_rows (merge_sort created_desc (map_to_list (rows db))).

End storage.

(** ** Package core: configuration and queue *)

Module core.
Import storage.

Record DownloadConfig : Type := mkConfig {
  MaxConcurrentDownloads : Z;
  ChunkSize : Z;
  MaxSpeed : Z;
  RetryAttempts : Z;
  UserAgent : string;
  Timeout : Duration
}.

Definition DefaultConfig : DownloadConfig :=
  mkConfig 3 (1024 * 1024) 0 3 "IDM-Go/1.0" (30 * Second).

(** [Queue.items].  The entries are the records that [AddDownload] built;
    the engine never writes to them again (a job works on the copy that
    [GetDownload] loads), so the slice is kept as a list of values. *)
Record Queue : Type := mkQueue { items : list Download }.

Definition NewQueue : Queue := mkQueue [].

Definition Add (q : Queue) (download : Download) : Queue :=
  mkQueue (items q ++ [download]).

Definition is_pending (d : Download) : Prop := Status d = StatusPending.

#[global] Instance is_pending_dec (d : Download) : Decision (is_pending d).
Proof. unfold is_pending. apply _. Defined.

(** [Queue.Next]: the index [i] of the first entry with status Pending is
    cut out with [append(items[:i], items[i+1:]...)]. *)
Definition Next (q : Queue) : option Download * Queue :=
  match list_find is_pending (items q) with
  | Some (i, download) =>
      (Some download, mkQueue (take i (items q) ++ drop (S i) (items q)))
  | None => (None, q)
  end.

(** [Queue.Remove]: the first entry with the given id is cut out. *)
Definition Remove (q : Queue) (id : Z) : Queue :=
  match list_find (λ d, ID d = id) (items q) with
  | Some (i, _) => mkQueue (take i (items q) ++ drop (S i) (items q))
  | None => q
  end.

Definition GetAll (q : Queue) : list Download := items q.

(** [n] calls of [Next] in a row: the records returned, and the queue left. *)
Fixpoint Next_n (n : nat) (q : Queue) : list (option Download) * Queue :=
  match n with
  | O => ([], q)
  | S n' =>
      let '(r, q1) := Next q in
      let '(rs, q2) := Next_n n' q1 in
      (r :: rs, q2)
  end.

(** ** The rate limiter *)

(** The interval handed to [time.NewTicker] by [newRateLimitedReader]:
    [time.Second / time.Duration(maxBytesPerSecond/1024)], both divisions
    on integers; [NewTicker] panics on an interval that is not positive. *)
Definition ticker_period (maxBytesPerSecond : Z) : exec Duration :=
  match go_div maxBytesPerSecond 1024 with
  | Panic msg => Panic msg
  | Done hz =>
      match go_div Second hz with
      | Panic msg => Panic msg
      | Done d =>
          if d <=? 0 then Panic "non-positive interval for NewTicker"
          else Done d
      end
  end.

(** The channel [limiter := make(chan time.Time, 1)]: the values it
    buffers, oldest first. *)
Definition limiter_cap : nat := 1.

(** One firing of the ticker goroutine: [select { case limiter <- t: default: }]. *)
Definition limiter_tick (t : Time) (limiter : list Time) : list Time :=
  if decide (length limiter < limiter_cap)%nat then limiter ++ [t] else limiter.

Section RateLimitedReader.
(** The wrapped [io.Reader]: its state, and what one [Read] into a buffer
    of [len] bytes returns. *)
Context {R A : Type}.
Variable source_Read : R → Z → A * R.

Record rateLimitedReader : Type := mkReader {
  reader : R;
  limiter : list Time;
  maxBytes : Z
}.

(** [newRateLimitedReader]; the channel starts empty, the ticker runs
    beside it (or panics, see [ticker_period]). *)
Definition newRateLimitedReader (r : R) (maxBytesPerSecond : Z)
  : rateLimitedReader :=
  mkReader r [] maxBytesPerSecond.

(** The ticker goroutine fires at time [t]. *)
Definition reader_tick (t : Time) (r : rateLimitedReader) : rateLimitedReader :=
  mkReader (reader r) (limiter_tick t (limiter r)) (maxBytes r).

(** [Read]: [<-r.limiter] then [r.reader.Read(p)].  [None] stands for a
    call that is still blocked on the empty channel. *)
Definition Read (r : rateLimitedReader) (len_p : Z)
  : option (A * rateLimitedReader) :=
  match limiter r with
  | [] => None
  | _ :: rest =>
      let '(res, src) := source_Read (reader r) len_p in
      Some (res, mkReader src rest (maxBytes r))
  end.

(** What happens around one reader: the ticker fires, or the read loop
    calls [Read] (a call that finds no permit waits, and is listed again
    when it is retried). *)
Inductive LimiterEvent : Type :=
  | Tick (t : Time)
  | ReadCall (len_p : Z).

Fixpoint limiter_run (evs : list LimiterEvent) (r : rateLimitedReader)
  : rateLimitedReader * list (option A) :=
  match evs with
  | [] => (r, [])
  | Tick t :: rest => limiter_run rest (reader_tick t r)
  | ReadCall len_p :: rest =>
      match Read r len_p with
      | None =>
          let '(r1, out) := limiter_run rest r in (r1, None :: out)
      | Some (res, r1) =>
          let '(r2, out) := limiter_run rest r1 in (r2, Some res :: out)
      end
  end.

Definition is_tick (ev : LimiterEvent) : bool :=
  match ev with Tick _ => true | ReadCall _ => false end.
End RateLimitedReader.

(** ** Jobs, chunks and the manager *)

(** A Go [error] value, as far as the engine tells them apart. *)
Inductive error : Type :=
  | EOF                         (* io.EOF *)
  | Canceled                    (* context.Canceled, what ctx.Err() returns *)
  | ErrStore (e : StoreError)   (* an error of package storage *)
  | Errorf (msg : string).      (* fmt.Errorf, and network and file errors *)

(** [err.Error()].  (The text of a Scan error is longer in Go: it also
    names the column and its index.) *)
Definition Error_string (e : error) : string :=
  match e with
  | EOF => "EOF"
  | Canceled => "context canceled"
  | ErrStore ErrNoRows => "sql: no rows in result set"
  | ErrStore (ErrScanNull column) =>
      if decide (column = "progress")
      then "sql: Scan error: converting NULL to float64 is unsupported"
      else "sql: Scan error: converting NULL to string is unsupported"
  | ErrStore ErrFull => "database or disk is full"
  | Errorf msg => msg
  end.

(** [ChunkDownloader].  The shared [*os.File] is left out: what a write
    answers is an argument of the read loop. *)
Record ChunkDownloader : Type := mkChunk {
  start : Z;
  end_ : Z;
  downloaded : Z
}.

(** [DownloadJob].  [ctx_done] is true once [cancel()] has been called on
    the job's context; [client] is the Timeout of its [http.Client]. *)
Record DownloadJob : Type := mkJob {
  download : Download;
  ctx_done : bool;
  client : Duration;
  chunks : list ChunkDownloader;
  lastUpdate : Time
}.

Definition set_download (d : Download) (job : DownloadJob) : DownloadJob :=
  mkJob d (ctx_done job) (client job) (chunks job) (lastUpdate job).

Definition set_chunks (cs : list ChunkDownloader) (job : DownloadJob) : DownloadJob :=
  mkJob (download job) (ctx_done job) (client job) cs (lastUpdate job).

Definition set_lastUpdate (t : Time) (job : DownloadJob) : DownloadJob :=
  mkJob (download job) (ctx_done job) (client job) (chunks job) t.

(** [job.cancel()] *)
Definition cancel (job : DownloadJob) : DownloadJob :=
  mkJob (download job) true (client job) (chunks job) (lastUpdate job).

(** [DownloadManager].  [heap] holds the [DownloadJob] objects that were
    allocated, a [*DownloadJob] being an index into it; [downloads] is the
    registry [map[int64]*DownloadJob]; [notified] lists, oldest first, the
    records handed to [notifyCallbacks].  An index outside the heap would
    be a dangling pointer: no operation creates one, and a step that is
    given one leaves the state as it is. *)
Record DownloadManager : Type := mkManager {
  db : DB;
  config : DownloadConfig;
  heap : list DownloadJob;
  downloads : gmap Z nat;
  queue : Queue;
  activeDownloads : Z;
  notified : list Download
}.

Definition wrap32 (z : Z) : Z := (z + 2 ^ 31) mod 2 ^ 32 - 2 ^ 31.

Definition NewDownloadManager (d : DB) : DownloadManager :=
  mkManager d DefaultConfig [] ∅ NewQueue 0 [].

Definition updateDownload (download : Download) (dm : DownloadManager)
  : DownloadManager :=
  mkManager (UpdateDownload (db dm) download) (config dm) (heap dm)
    (downloads dm) (queue dm) (activeDownloads dm) (notified dm).

Definition notifyCallbacks (download : Download) (dm : DownloadManager)
  : DownloadManager :=
  mkManager (db dm) (config dm) (heap dm) (downloads dm) (queue dm)
    (activeDownloads dm) (notified dm ++ [download]).

(** A write through the pointer [p]. *)
Definition store_job (p : nat) (job : DownloadJob) (dm : DownloadManager)
  : DownloadManager :=
  mkManager (db dm) (config dm) (<[p := job]> (heap dm)) (downloads dm)
    (queue dm) (activeDownloads dm) (notified dm).

Definition set_queue (q : Queue) (dm : DownloadManager) : DownloadManager :=
  mkManager (db dm) (config dm) (heap dm) (downloads dm) q
    (activeDownloads dm) (notified dm).

Definition add_active (k : Z) (dm : DownloadManager) : DownloadManager :=
  mkManager (db dm) (config dm) (heap dm) (downloads dm) (queue dm)
    (wrap32 (activeDownloads dm + k)) (notified dm).

(** [AddDownload], after its HEAD request has answered: [filename] is
    [filepath.Base(url)] and [size] what [strconv.ParseInt] made of the
    Content-Length header (0 when it does not parse).  [now] is the
    [time.Now()] of the new record, in the zone of the process. *)
Definition AddDownload (now : Stamp) (url path filename : string) (size : Z)
    (dm : DownloadManager) : DownloadManager * (error + Download) :=
  let download :=
    mkDownload 0 url filename path size 0 StatusPending 0 0%float now
      None None "" 4 in
  match SaveDownload (db dm) download with
  | (_, inl e) => (dm, inl (ErrStore e))
  | (db1, inr id) =>
      let download := set_ID id download in
      let dm1 :=
        mkManager db1 (config dm) (heap dm) (downloads dm)
          (Add (queue dm) download) (activeDownloads dm) (notified dm) in
      (notifyCallbacks download dm1, inr download)
  end.

(** [StartDownload], up to and including [go dm.executeDownload(job)]: the
    runner goroutine of the new job is the sequence of steps below, taken
    with the job's address. *)
Definition StartDownload (now : Time) (id : Z) (dm : DownloadManager)
  : DownloadManager * option error :=
  match GetDownload (db dm) id with
  | inl e => (dm, Some (ErrStore e))
  | inr download =>
      if decide (Status download = StatusDownloading)
      then (dm, Some (Errorf "download already in progress"))
      else
        let job := mkJob download false (Timeout (config dm)) [] now in
        (mkManager (db dm) (config dm) (heap dm ++ [job])
           (<[id := length (heap dm)]> (downloads dm)) (queue dm)
           (activeDownloads dm) (notified dm), None)
  end.

(** [PauseDownload] *)
Definition PauseDownload (id : Z) (dm : DownloadManager)
  : DownloadManager * option error :=
  match downloads dm !! id with
  | None => (dm, Some (Errorf "download not found"))
  | Some p =>
      match heap dm !! p with
      | None => (dm, Some (Errorf "download not found"))
      | Some job =>
          let job := cancel job in
          let job := set_download (set_Status StatusPaused (download job)) job in
          let dm := store_job p job dm in
          let dm := updateDownload (download job) dm in
          (notifyCallbacks (download job) dm, None)
      end
  end.

(** [CancelDownload].  The record that is marked Cancelled is a fresh copy
    loaded from the store, not the job's; the removal of the partial file
    is outside the model. *)
Definition CancelDownload (id : Z) (dm : DownloadManager)
  : DownloadManager * option error :=
  let dm :=
    match downloads dm !! id with
    | Some p =>
        match heap dm !! p with
        | Some job => store_job p (cancel job) dm
        | None => dm
        end
    | None => dm
    end in
  match GetDownload (db dm) id with
  | inl e => (dm, Some (ErrStore e))
  | inr download =>
      let download := set_Status StatusCancelled download in
      let dm := updateDownload download dm in
      (notifyCallbacks download dm, None)
  end.

(** ** The chunk fetcher *)

(** What one [reader.Read(buffer)] returns, and what the write of the
    bytes read then answers.  The buffer has 32 KiB, so [0 <= io_n <= 32768]
    for a reader that keeps the [io.Reader] contract. *)
Record ReadIO : Type := mkRead {
  io_n : Z;
  io_err : option error;
  io_write : option error
}.

Definition buffer_len : Z := 32 * 1024.

Definition ReadIO_ok (io : ReadIO) : Prop := 0 <= io_n io <= buffer_len.

(** What the origin answers to a GET: the request cannot be built, the
    round trip fails, or a body arrives and is read step by step. *)
Inductive Fetch : Type :=
  | RequestFails (e : error)
  | DoFails (e : error)
  | Body (reads : list ReadIO).

(** Where a read loop stands: still in the loop, or returned. *)
Inductive Outcome : Type :=
  | Running
  | Returned (err : option error).

Definition bump_chunk (n : Z) (c : ChunkDownloader) : ChunkDownloader :=
  mkChunk (start c) (end_ c) (wrap64 (downloaded c + n)).

Definition bump_Downloaded (n : Z) (job : DownloadJob) : DownloadJob :=
  set_download
    (set_Downloaded (wrap64 (Downloaded (download job) + n)) (download job))
    job.

(** What the [if err == io.EOF { break }; if err != nil { return err }] at
    the end of the loop body decides. *)
Definition after_read (err : option error) : Outcome :=
  match err with
  | Some EOF => Returned None
  | Some e => Returned (Some e)
  | None => Running
  end.

(** One turn of the [for] loop of [downloadChunk] for the chunk at index
    [ci] of [job.chunks]: the poll of [job.ctx.Done()], one [Read], the
    [WriteAt] and the two counters. *)
Definition downloadChunk_iter (ci : nat) (io : ReadIO) (job : DownloadJob)
  : DownloadJob * Outcome :=
  if ctx_done job then (job, Returned (Some Canceled))
  else if 0 <? io_n io then
    let job1 := set_chunks (alter (bump_chunk (io_n io)) ci (chunks job)) job in
    match io_write io with
    | Some writeErr => (job1, Returned (Some writeErr))
    | None => (bump_Downloaded (io_n io) job1, after_read (io_err io))
    end
  else (job, after_read (io_err io)).

Fixpoint downloadChunk_loop (ci : nat) (reads : list ReadIO) (job : DownloadJob)
  : DownloadJob * Outcome :=
  match reads with
  | [] => (job, Running)
  | io :: rest =>
      match downloadChunk_iter ci io job with
      | (job1, Running) => downloadChunk_loop ci rest job1
      | stop => stop
      end
  end.

(** The ticker that [newRateLimitedReader] starts when [MaxSpeed > 0]; a
    panic of that goroutine takes the process down. *)
Definition start_limiter (cfg : DownloadConfig) (share : exec Z) : exec unit :=
  if 0 <? MaxSpeed cfg then
    match share with
    | Panic msg => Panic msg
    | Done maxBytesPerSecond =>
        match ticker_period maxBytesPerSecond with
        | Panic msg => Panic msg
        | Done _ => Done tt
        end
    end
  else Done tt.

(** [downloadChunk] *)
Definition downloadChunk (cfg : DownloadConfig) (ci : nat) (f : Fetch)
    (job : DownloadJob) : exec (DownloadJob * Outcome) :=
  match f with
  | RequestFails e => Done (job, Returned (Some e))
  | DoFails e => Done (job, Returned (Some e))
  | Body reads =>
      match start_limiter cfg
              (go_div (MaxSpeed cfg) (Chunks (download job))) with
      | Panic msg => Panic msg
      | Done _ => Done (downloadChunk_loop ci reads job)
      end
  end.

(** One turn of the loop of [downloadSingleFile]. *)
Definition downloadSingleFile_iter (io : ReadIO) (job : DownloadJob)
  : DownloadJob * Outcome :=
  if ctx_done job then (job, Returned (Some Canceled))
  else if 0 <? io_n io then
    match io_write io with
    | Some writeErr => (job, Returned (Some writeErr))
    | None => (bump_Downloaded (io_n io) job, after_read (io_err io))
    end
  else (job, after_read (io_err io)).

Fixpoint downloadSingleFile_loop (reads : list ReadIO) (job : DownloadJob)
  : DownloadJob * Outcome :=
  match reads with
  | [] => (job, Running)
  | io :: rest =>
      match downloadSingleFile_iter io job with
      | (job1, Running) => downloadSingleFile_loop rest job1
      | stop => stop
      end
  end.

(** [downloadSingleFile]; [create] is what [os.Create] answers. *)
Definition downloadSingleFile (cfg : DownloadConfig) (f : Fetch)
    (create : option error) (job : DownloadJob)
  : exec (DownloadJob * Outcome) :=
  match f with
  | RequestFails e => Done (job, Returned (Some e))
  | DoFails e => Done (job, Returned (Some e))
  | Body reads =>
      match create with
      | Some e => Done (job, Returned (Some e))
      | None =>
          match start_limiter cfg (Done (MaxSpeed cfg)) with
          | Panic msg => Panic msg
          | Done _ => Done (downloadSingleFile_loop reads job)
          end
      end
  end.

(** ** The job runner *)

(** The [for i := 0; i < download.Chunks; i++] loop of [downloadWithChunks],
    [n] turns from index [i] on: the ranges of the chunks it creates. *)
Fixpoint make_chunks (n : nat) (i : Z) (nchunks size chunkSize : Z)
  : list ChunkDownloader :=
  match n with
  | O => []
  | S n' =>
      let start := wrap64 (i * chunkSize) in
      let end_ :=
        if i =? nchunks - 1 then wrap64 (size - 1)
        else wrap64 (start + chunkSize - 1) in
      mkChunk start end_ 0 :: make_chunks n' (i + 1) nchunks size chunkSize
  end.

(** The ranges for a record of [size] bytes and [nchunks] chunks. *)
Definition chunk_ranges (size nchunks : Z) : exec (list ChunkDownloader) :=
  match go_div size nchunks with
  | Panic msg => Panic msg
  | Done chunkSize =>
      Done (make_chunks (Z.to_nat nchunks) 0 nchunks size chunkSize)
  end.

(** [downloadWithChunks] up to the end of its [for] loop: the chunks are
    appended to [job.chunks] and one goroutine per chunk is started.
    [create] and [truncate] are what [os.Create] and [file.Truncate]
    answer. *)
Definition downloadWithChunks_spawn (create truncate : option error)
    (job : DownloadJob) : exec (DownloadJob * option error) :=
  match chunk_ranges (Size (download job)) (Chunks (download job)) with
  | Panic msg => Panic msg
  | Done ranges =>
      match create, truncate with
      | Some e, _ => Done (job, Some e)
      | None, Some e => Done (job, Some e)
      | None, None =>
          if Chunks (download job) <? 0
          then Panic "makechan: size out of range"
          else Done (set_chunks (chunks job ++ ranges) job, None)
      end
  end.

(** The chunk goroutines of a job, run one after the other in the order of
    their indices from [ci] on (one of the schedules); [fetches] holds the
    origin's answer for each.  The result lists what each fetch returned. *)
Fixpoint run_chunks (cfg : DownloadConfig) (ci : nat) (fetches : list Fetch)
    (job : DownloadJob) : exec (DownloadJob * list Outcome) :=
  match fetches with
  | [] => Done (job, [])
  | f :: rest =>
      match downloadChunk cfg ci f job with
      | Panic msg => Panic msg
      | Done (job1, o) =>
          match run_chunks cfg (S ci) rest job1 with
          | Panic msg => Panic msg
          | Done (job2, os) => Done (job2, o :: os)
          end
      end
  end.

(** [wg.Wait()] and the scan of [errChan]: blocked while a chunk is still
    in its loop, then the first error that was sent, if any. *)
Fixpoint wait_chunks (outcomes : list Outcome) : Outcome :=
  match outcomes with
  | [] => Returned None
  | Running :: _ => Running
  | Returned r :: rest =>
      match wait_chunks rest with
      | Running => Running
      | Returned r' => Returned (match r with Some e => Some e | None => r' end)
      end
  end.

(** [downloadWithChunks], its chunks run in index order. *)
Definition downloadWithChunks (cfg : DownloadConfig)
    (create truncate : option error) (fetches : list Fetch)
    (job : DownloadJob) : exec (DownloadJob * Outcome) :=
  match downloadWithChunks_spawn create truncate job with
  | Panic msg => Panic msg
  | Done (job1, Some e) => Done (job1, Returned (Some e))
  | Done (job1, None) =>
      let first := length (chunks job) in
      let n := (length (chunks job1) - first)%nat in
      match run_chunks cfg first (take n fetches) job1 with
      | Panic msg => Panic msg
      | Done (job2, outcomes) =>
          if decide (length outcomes = n)
          then Done (job2, wait_chunks outcomes)
          else Done (job2, Running)
      end
  end.

(** [executeDownload] from its first line to the [updateDownload] before
    the probe. *)
Definition executeDownload_begin (now : Time) (p : nat) (dm : DownloadManager)
  : DownloadManager :=
  let dm := add_active 1 dm in
  match heap dm !! p with
  | None => dm
  | Some job =>
      let d :=
        set_StartedAt (Some now)
          (set_Status StatusDownloading (download job)) in
      updateDownload d (store_job p (set_download d job) dm)
  end.

(** What the HEAD request of the probe answers: [client.Do] fails, or a
    response arrives whose Accept-Ranges header is absent or has a value. *)
Inductive Probe : Type :=
  | ProbeFails (e : error)
  | ProbeResponse (accept_ranges : option string).

(** [resp.Header.Get]: the empty string for an absent header. *)
Definition Header_Get (h : option string) : string := default "" h.

(** [supportsRangeRequests].  The client is taken from the registry entry
    of id 0, [dm.downloads[0].client]: a missing key gives the nil
    [*DownloadJob], and the field access on nil panics. *)
Definition supportsRangeRequests (probe : Probe) (dm : DownloadManager)
  : exec bool :=
  match downloads dm !! 0 with
  | None =>
      Panic "runtime error: invalid memory address or nil pointer dereference"
  | Some _ =>
      match probe with
      | ProbeFails _ => Done false
      | ProbeResponse h => Done (bool_decide (Header_Get h = "bytes"))
      end
  end.

(** The branch of [executeDownload]:
    [supportsRange && download.Size > dm.config.ChunkSize]. *)
Definition ranged_mode (supportsRange : bool) (cfg : DownloadConfig)
    (download : Download) : bool :=
  supportsRange && (ChunkSize cfg <? Size download).

(** [executeDownload] from [if err != nil] to its end, with the deferred
    decrement of [activeDownloads]. *)
Definition executeDownload_finish (now : Time) (p : nat) (err : option error)
    (dm : DownloadManager) : DownloadManager :=
  match heap dm !! p with
  | None => dm
  | Some job =>
      let d :=
        match err with
        | Some e =>
            set_Error (Error_string e)
              (set_Status StatusFailed (download job))
        | None =>
            set_Progress 100%float
              (set_CompletedAt (Some now)
                 (set_Status StatusCompleted (download job)))
        end in
      let dm := store_job p (set_download d job) dm in
      let dm := notifyCallbacks d (updateDownload d dm) in
      mkManager (db dm) (config dm) (heap dm) (delete (ID d) (downloads dm))
        (queue dm) (wrap32 (activeDownloads dm - 1)) (notified dm)
  end.

(** Everything the origin and the file system answer during one run. *)
Record Origin : Type := mkOrigin {
  probe : Probe;
  single : Fetch;
  ranged : list Fetch;
  create : option error;
  truncate : option error
}.

(** [executeDownload] run without interruption by other goroutines, started
    at [t0] and, if the transfer returns, finished at [t1].  [Running]
    means that the transfer is still waiting for the origin. *)
Definition executeDownload (t0 t1 : Time) (o : Origin) (p : nat)
    (dm : DownloadManager) : exec (DownloadManager * Outcome) :=
  let dm := executeDownload_begin t0 p dm in
  match heap dm !! p with
  | None =>
      Panic "runtime error: invalid memory address or nil pointer dereference"
  | Some job =>
      match supportsRangeRequests (probe o) dm with
      | Panic msg => Panic msg
      | Done supportsRange =>
          let transfer :=
            if ranged_mode supportsRange (config dm) (download job)
            then downloadWithChunks (config dm) (create o) (truncate o)
                   (ranged o) job
            else downloadSingleFile (config dm) (single o) (create o) job in
          match transfer with
          | Panic msg => Panic msg
          | Done (job1, Running) => Done (store_job p job1 dm, Running)
          | Done (job1, Returned err) =>
              Done (executeDownload_finish t1 p err (store_job p job1 dm),
                    Returned err)
          end
      end
  end.

(** A step of a goroutine that works on the job at [p], taken between the
    steps of the others. *)
Definition step_job (p : nat) (f : DownloadJob → DownloadJob * Outcome)
    (dm : DownloadManager) : DownloadManager * option Outcome :=
  match heap dm !! p with
  | None => (dm, None)
  | Some job => let '(job1, o) := f job in (store_job p job1 dm, Some o)
  end.

(** ** The two background loops *)

(** One tick of [processQueue]. *)
Definition processQueue_tick (now : Time) (dm : DownloadManager)
  : DownloadManager :=
  if activeDownloads dm <? wrap32 (MaxConcurrentDownloads (config dm)) then
    match Next (queue dm) with
    | (Some download, q) =>
        fst (StartDownload now (ID download) (set_queue q dm))
    | (None, q) => set_queue q dm
    end
  else dm.

(** The body of the [if job.download.Status == StatusDownloading] of
    [updateStats], up to [job.lastUpdate = now]. *)
Definition updateStats_job (now : Time) (job : DownloadJob) : DownloadJob :=
  let d := download job in
  let d :=
    if 0 <? Size d then
      set_Progress
        (PrimFloat.mul
           (PrimFloat.div (float64_of_int (Downloaded d))
                          (float64_of_int (Size d)))
           100%float) d
    else d in
  let d :=
    if negb (IsZero (lastUpdate job)) then
      let duration := Sub now (lastUpdate job) in
      if 0 <? duration then
        set_Speed
          (int64_of_float
             (PrimFloat.div (float64_of_int (Downloaded d))
                            (Seconds duration))) d
      else d
    else d in
  set_lastUpdate now (set_download d job).

(** What one tick of [updateStats] does for the job at [p]. *)
Definition updateStats_visit (now : Time) (p : nat) (dm : DownloadManager)
  : DownloadManager :=
  match heap dm !! p with
  | None => dm
  | Some job =>
      if decide (Status (download job) = StatusDownloading) then
        let job1 := updateStats_job now job in
        notifyCallbacks (download job1)
          (updateDownload (download job1) (store_job p job1 dm))
      else dm
  end.

(** One tick of [updateStats]: the registry is ranged over (Go fixes no
    order; the order of the map's listing is taken), [now id] being the
    time read when the job registered under [id] is reached. *)
Definition updateStats_tick (now : Z → Time) (dm : DownloadManager)
  : DownloadManager :=
  foldl (λ dm1 '(id, p), updateStats_visit (now id) p dm1) dm
    (map_to_list (downloads dm)).

(** [GetDownloads] *)
Definition GetDownloads (dm : DownloadManager) : StoreError + list Download :=
  GetAllDownloads (db dm).

End core.

(** ** Package ui: the parts of the main window that compute *)

Module ui.
Import storage core.

(** What [formatBytes] hands to [fmt.Sprintf]: the byte count for the
    format ["%d B"], or the scaled value and the unit letter for the
    format ["%.1f %cB"].  The rendering of the text is left to [Sprintf]. *)
Inductive Formatted : Type :=
  | PlainBytes (bytes : Z)
  | ScaledBytes (value : float) (unit : Ascii.ascii).

Definition unit_letters : list Ascii.ascii :=
  ["K"; "M"; "G"; "T"; "P"; "E"]%char.

(** The loop [for n := bytes / unit; n >= unit; n /= unit], at most [fuel]
    turns of it; [None] when the turns do not suffice. *)
Fixpoint formatBytes_loop (fuel : nat) (n div : Z) (exp : nat)
  : option (Z * nat) :=
  if 1024 <=? n then
    match fuel with
    | O => None
    | S fuel' =>
        formatBytes_loop fuel' (Z.quot n 1024) (wrap64 (div * 1024)) (S exp)
    end
  else Some (div, exp).

(** [formatBytes]; the index into ["KMGTPE"] panics when out of range. *)
Definition formatBytes (bytes : Z) : option (exec Formatted) :=
  if bytes <? 1024 then Some (Done (PlainBytes bytes))
  else
    match formatBytes_loop 5 (Z.quot bytes 1024) 1024 0 with
    | None => None
    | Some (div, exp) =>
        match unit_letters !! exp with
        | None => Some (Panic "runtime error: index out of range")
        | Some letter =>
            Some (Done (ScaledBytes
                          (PrimFloat.div (float64_of_int bytes)
                                         (float64_of_int div)) letter))
        end
    end.

(** [MainWindow], as far as the manager and the list of records go. *)
Record MainWindow : Type := mkWindow {
  downloadManager : DownloadManager;
  shown : list Download      (* mw.downloads *)
}.

(** [loadDownloads]: on an error a dialog is shown and the list stays. *)
Definition loadDownloads (mw : MainWindow) : MainWindow :=
  match GetDownloads (downloadManager mw) with
  | inl _ => mw
  | inr ds => mkWindow (downloadManager mw) ds
  end.

(** [deleteSelectedDownload], with the answer to its confirmation dialog. *)
Definition deleteSelectedDownload (selected : Z) (confirmed : bool)
    (mw : MainWindow) : MainWindow :=
  if (0 <=? selected) && (selected <? Z.of_nat (length (shown mw))) then
    match shown mw !! Z.to_nat selected with
    | Some download =>
        if confirmed then
          let dm :=
            if decide (Status download = StatusDownloading)
            then (CancelDownload (ID download) (downloadManager mw)).1
            else downloadManager mw in
          loadDownloads (mkWindow dm (shown mw))
        else mw
    | None => mw
    end
  else mw.

(** [onDownloadUpdate]: the first record of the list with the id of the
    update is replaced by it. *)
Definition onDownloadUpdate (download : Download) (mw : MainWindow)
  : MainWindow :=
  match list_find (λ d, ID d = ID download) (shown mw) with
  | Some (i, _) => mkWindow (downloadManager mw) (<[i := download]> (shown mw))
  | None => mw
  end.

End ui.

Import storage core.

(** ** Auxiliary definitions and concrete inputs *)

(** The range that the loop of [downloadWithChunks] gives to the chunk of
    index [i], when nothing wraps. *)
Definition range_of (size nchunks chunkSize i : Z) : ChunkDownloader :=
  mkChunk (i * chunkSize)
    (if i =? nchunks - 1 then size - 1 else (i + 1) * chunkSize - 1) 0.

(** Three pending records, as [AddDownload] enqueues them. *)
Definition recA : Download :=
  mkDownload 1 "http://origin/a.bin" "a.bin" "/tmp" 4096 0 StatusPending 0
    0%float (UTC 100) None None "" 4.
Definition recB : Download :=
  mkDownload 2 "http://origin/b.bin" "b.bin" "/tmp" 4096 0 StatusPending 0
    0%float (UTC 200) None None "" 4.
Definition recC : Download :=
  mkDownload 3 "http://origin/c.bin" "c.bin" "/tmp" 4096 0 StatusPending 0
    0%float (UTC 300) None None "" 4.

(** A job on a record of 4096 bytes in 4 chunks. *)
Definition job_4096 : DownloadJob :=
  mkJob (mkDownload 1 "http://origin/a.bin" "a.bin" "/tmp" 4096 0
           StatusDownloading 0 0%float (UTC 100) (Some 110) None "" 4)
        false (30 * Second) [] 105.

(** A record that carries a speed and a progress, as a running job does. *)
Definition rec_running : Download :=
  mkDownload 0 "http://origin/a.bin" "a.bin" "/tmp" 4096 2048
    StatusDownloading 2048 50%float (UTC 100) (Some 110) None "" 4.

(** The rate of §4.3 of the specification, in permits per second:
    [ceil(max_bytes_per_second / 1024)]. *)
Definition spec_permit_hz (maxBytesPerSecond : Z) : Z :=
  (maxBytesPerSecond + 1023) / 1024.

(** The [Read] calls of a run that returned, and the firings of the ticker. *)
Fixpoint completed {A : Type} (out : list (option A)) : nat :=
  match out with
  | [] => 0
  | Some _ :: rest => S (completed rest)
  | None :: rest => completed rest
  end.

Fixpoint ticks (evs : list LimiterEvent) : nat :=
  match evs with
  | [] => 0
  | Tick _ :: rest => S (ticks rest)
  | ReadCall _ :: rest => ticks rest
  end.

(** A byte source that hands out [min len 100] bytes per read and counts
    its reads. *)
Definition counting_source (reads : nat) (len : Z) : Z * nat :=
  (Z.min len 100, S reads).

(** A store that holds [recA] under id 1, written by [SaveDownload] and
    then by [UpdateDownload], so that its error column is text; and the
    manager over it after [StartDownload 1]. *)
Definition db_one : DB :=
  UpdateDownload (SaveDownload emptyDB recA).1 recA.

Definition dm_started : DownloadManager :=
  (StartDownload 105 1 (NewDownloadManager db_one)).1.

(** An origin that supports ranges and serves 4096 bytes in four parts. *)
Definition origin_ranged : Origin :=
  mkOrigin (ProbeResponse (Some "bytes"))
    (Body [mkRead 4096 (Some EOF) None])
    [Body [mkRead 1024 (Some EOF) None]; Body [mkRead 1024 (Some EOF) None];
     Body [mkRead 1024 (Some EOF) None]; Body [mkRead 1024 (Some EOF) None]]
    None None.

Definition nil_dereference : string :=
  "runtime error: invalid memory address or nil pointer dereference".

(** The manager that a panic leaves behind: the state is not read any
    more, so it is given as it was before the call. *)
Definition state_of (r : exec (DownloadManager * Outcome))
    (before : DownloadManager) : DownloadManager :=
  match r with
  | Done (dm, _) => dm
  | Panic _ => before
  end.

(** A store that was seeded with one row under id 0: only there does the
    probe of a runner find a client (see [supportsRangeRequests]). *)
Definition seeded (r : Row) : DB := mkDB {[ 0 := r ]} 0.

(** A manager whose store holds a record of 4096 bytes under id 0 and
    whose threshold for ranged mode is 1024 bytes, after [StartDownload 0]:
    here the registry has an entry for id 0 and the probe finds a client. *)
Definition rec_zero : Download :=
  mkDownload 0 "http://origin/z.bin" "z.bin" "/tmp" 4096 0 StatusPending 0
    0%float (UTC 100) None None "" 4.

Definition dm_zero : DownloadManager :=
  (StartDownload 105 0
     (mkManager (seeded (mkRow "http://origin/z.bin" "z.bin" "/tmp" 4096 0
                           StatusPending 0 0%float (UTC 100) None None
                           (Some "") 4))
        (mkConfig 3 1024 0 3 "IDM-Go/1.0" (30 * Second))
        [] ∅ NewQueue 0 [])).1.

(** An origin without an Accept-Ranges header that serves the 4096 bytes
    in one piece, and one that has delivered 2048 bytes so far. *)
Definition origin_plain : Origin :=
  mkOrigin (ProbeResponse None) (Body [mkRead 4096 (Some EOF) None]) []
    None None.

Definition origin_half : Origin :=
  mkOrigin (ProbeResponse None) (Body [mkRead 2048 None None]) [] None None.

(** The job of [dm_zero] in the middle of its run: [executeDownload] has
    set it to Downloading at time 110, the probe has returned, and the
    single-stream loop has read 2048 bytes and waits for more. *)
Definition dm_running : DownloadManager :=
  state_of (executeDownload 110 120 origin_half 0 dm_zero) dm_zero.

Definition rec_2048 : Download :=
  mkDownload 0 "http://origin/z.bin" "z.bin" "/tmp" 4096 2048
    StatusDownloading 0 0%float (UTC 100) (Some 110) None "" 4.

Definition job_running : DownloadJob :=
  mkJob rec_2048 false (30 * Second) [] 105.

(** The bytes that a list of reads delivers. *)
Definition total_n (reads : list ReadIO) : Z :=
  foldr (λ io acc, io_n io + acc) 0 reads.

(** A read that delivers bytes and meets no error, neither from the
    origin nor from the file. *)
Definition clean_read (io : ReadIO) : Prop :=
  0 <= io_n io ∧ io_err io = None ∧ io_write io = None.

(** [job_4096] after [downloadWithChunks] has created its four chunks. *)
Definition job_ranged : DownloadJob :=
  set_chunks
    [mkChunk 0 1023 0; mkChunk 1024 2047 0;
     mkChunk 2048 3071 0; mkChunk 3072 4095 0] job_4096.

(** [SaveDownload] followed by [UpdateDownload] under the new id. *)
Definition store_record (db : DB) (d : Download) : DB :=
  match SaveDownload db d with
  | (db1, inr id) => UpdateDownload db1 (set_ID id d)
  | (db1, inl _) => db1
  end.

Definition recD : Download :=
  mkDownload 4 "http://origin/d.bin" "d.bin" "/tmp" 4096 0 StatusPending 0
    0%float (UTC 400) None None "" 4.





(** The speed of §4.6 of the specification: the bytes downloaded over the
    time elapsed since [started_at]. *)
Definition spec_speed (now : Time) (d : Download) : option Z :=
  match StartedAt d with
  | Some t0 =>
      Some (int64_of_float
              (PrimFloat.div (float64_of_int (Downloaded d))
                             (Seconds (Sub now t0))))
  | None => None
  end.

(** The speed that [updateStats] computes: the bytes downloaded over the
    time since [job.lastUpdate], in seconds. *)
Definition tick_speed (now : Time) (job : DownloadJob) : Z :=
  int64_of_float
    (PrimFloat.div (float64_of_int (Downloaded (download job)))
                   (Seconds (Sub now (lastUpdate job)))).

Definition tick_progress (d : Download) : float :=
  PrimFloat.mul
    (PrimFloat.div (float64_of_int (Downloaded d)) (float64_of_int (Size d)))
    100%float.

(** A record of 12000 bytes under id 0; its job is started at time 0, its
    runner sets it to Downloading, probes the origin and reads 6000 bytes
    in single-stream mode, and the statistics loop visits it after 1, 2,
    3, 4 and 5 seconds. *)
Definition origin_6000 : Origin :=
  mkOrigin (ProbeResponse (Some "bytes")) (Body [mkRead 6000 None None]) []
    None None.

Definition dm_12000 : DownloadManager :=
  (StartDownload 0 0
     (NewDownloadManager
        (seeded (mkRow "http://origin/e.bin" "e.bin" "/tmp" 12000 0
                   StatusPending 0 0%float (UTC 0) None None (Some "") 4)))).1.

Definition dm_6000 : DownloadManager :=
  state_of (executeDownload 0 0 origin_6000 0 dm_12000) dm_12000.

Definition dm_stats : DownloadManager :=
  foldl (λ dm1 t, updateStats_tick (λ _, t * Second) dm1) dm_6000
    [1; 2; 3; 4; 5].

(** The job of [dm_stats], as the tick at 5 seconds left it. *)
Definition job_5s : DownloadJob :=
  mkJob
    (mkDownload 0 "http://origin/e.bin" "e.bin" "/tmp" 12000 6000
       StatusDownloading 6000 50%float (UTC 0) (Some 0) None "" 4)
    false (30 * Second) [] (5 * Second).

(** *** Operation sequences

    What can happen to a manager, one atomic step at a time: the public
    operations, the steps of the runner of the job at an address [p]
    (a turn of a read loop with what the origin delivers), and the ticks
    of the two loops.  A step that panics ends the process and leaves the
    state as it is.  The steps of a runner may follow one another in any
    order here, also in orders that [executeDownload] does not take (a
    read without the probe before it, or after a probe that panicked):
    the sequences of the program are among these, so what holds after
    every sequence holds after every run of the program. *)
Inductive Op : Type :=
  | OpAdd (now : Stamp) (url path filename : string) (size : Z)
  | OpStart (now : Time) (id : Z)
  | OpPause (id : Z)
  | OpCancel (id : Z)
  | OpBegin (now : Time) (p : nat)
  | OpSpawn (p : nat) (create truncate : option error)
  | OpChunkRead (p : nat) (ci : nat) (io : ReadIO)
  | OpSingleRead (p : nat) (io : ReadIO)
  | OpFinish (now : Time) (p : nat) (err : option error)
  | OpQueueTick (now : Time)
  | OpStatsTick (now : Z → Time).

Definition apply_op (op : Op) (dm : DownloadManager) : DownloadManager :=
  match op with
  | OpAdd now url path filename size =>
      (AddDownload now url path filename size dm).1
  | OpStart now id => (StartDownload now id dm).1
  | OpPause id => (PauseDownload id dm).1
  | OpCancel id => (CancelDownload id dm).1
  | OpBegin now p => executeDownload_begin now p dm
  | OpSpawn p create truncate =>
      match heap dm !! p with
      | Some job =>
          match downloadWithChunks_spawn create truncate job with
          | Done (job1, _) => store_job p job1 dm
          | Panic _ => dm
          end
      | None => dm
      end
  | OpChunkRead p ci io => (step_job p (downloadChunk_iter ci io) dm).1
  | OpSingleRead p io => (step_job p (downloadSingleFile_iter io) dm).1
  | OpFinish now p err => executeDownload_finish now p err dm
  | OpQueueTick now => processQueue_tick now dm
  | OpStatsTick now => updateStats_tick now dm
  end.

Definition run_ops (ops : list Op) (dm : DownloadManager) : DownloadManager :=
  foldl (λ dm1 op, apply_op op dm1) dm ops.

(** The reads of an operation keep the [io.Reader] contract. *)
Definition op_ok (op : Op) : Prop :=
  match op with
  | OpChunkRead _ _ io | OpSingleRead _ io => ReadIO_ok io
  | _ => True
  end.

(** Every byte counter of a record, in a job or in the store, lies
    between 0 and [B]. *)
Definition counter_within (B : Z) (d : Download) : Prop :=
  0 <= Downloaded d <= B.

Definition counters_within (B : Z) (dm : DownloadManager) : Prop :=
  Forall (λ job, counter_within B (download job)) (heap dm)
  ∧ map_Forall (λ _ r, 0 <= col_downloaded r <= B) (rows (db dm)).

(** No job is registered under id 0, and the store has no row 0 and
    hands out ids from 1 on. *)
Definition no_job_zero (dm : DownloadManager) : Prop :=
  downloads dm !! 0 = None
  ∧ rows (db dm) !! 0 = None
  ∧ 0 <= last_id (db dm).

(** A record of 10 bytes under id 0 that was paused after 6, the manager
    over a store that holds it, and an origin that serves the 10 bytes. *)
Definition rec_paused : Download :=
  mkDownload 0 "http://origin/f.bin" "f.bin" "/tmp" 10 6 StatusPaused 0
    0%float (UTC 0) (Some 10) None "" 4.

Definition dm_paused : DownloadManager :=
  NewDownloadManager
    (seeded (mkRow "http://origin/f.bin" "f.bin" "/tmp" 10 6 StatusPaused 0
               0%float (UTC 0) (Some 10) None (Some "") 4)).

Definition origin_10 : Origin :=
  mkOrigin (ProbeResponse (Some "bytes")) (Body [mkRead 10 (Some EOF) None])
    [] None None.

(** What a stretch of the chunk loop has done to a job when it has
    credited [k] bytes: to the job's counter and to the chunk at [ci]. *)
Definition credited (ci : nat) (k : Z) (job job' : DownloadJob) : Prop :=
  ctx_done job' = ctx_done job
  ∧ Downloaded (download job') = wrap64 (Downloaded (download job) + k)
  ∧ Size (download job') = Size (download job)
  ∧ Status (download job') = Status (download job)
  ∧ ∀ c, chunks job !! ci = Some c →
         chunks job' !! ci
         = Some (mkChunk (start c) (end_ c) (wrap64 (downloaded c + k))).

(** The limiter of a chunk fetch, if the configuration asks for one,
    starts without a panic. *)
Definition limiter_starts (cfg : DownloadConfig) (job : DownloadJob) : Prop :=
  start_limiter cfg (go_div (MaxSpeed cfg) (Chunks (download job))) = Done tt.

(** ** Further auxiliary definitions *)

(** The ids of the rows lie between 1 and the last id handed out, as in
    every table that only AUTOINCREMENT has filled. *)
Definition DB_wf (db : DB) : Prop :=
  0 <= last_id db ∧ ∀ k r, rows db !! k = Some r → 1 <= k <= last_id db.

(** The columns of a row that only the INSERT writes. *)
Definition descriptive (r : Row) : string * string * string * Z * Stamp * Z :=
  (col_url r, col_filename r, col_path r, col_size r, col_created_at r,
   col_chunks r).

(** A store with three rows inserted and then updated, created at times
    100, 200 and 300; and the same with a fourth row that was only
    inserted. *)
Definition db_three : DB := foldl store_record emptyDB [recA; recB; recC].


(** Every registry entry points to a job of the heap, and the record of
    that job carries the id it is registered under. *)
Definition registry_ok_on (h : list DownloadJob) (reg : gmap Z nat) : Prop :=
  ∀ id p, reg !! id = Some p →
          ∃ job, h !! p = Some job ∧ ID (download job) = id.

Definition registry_ok (dm : DownloadManager) : Prop :=
  registry_ok_on (heap dm) (downloads dm).

(** A record under id 0 that failed on a cancellation before, and its job
    after a new start whose transfer has read the whole file. *)
Definition rec_failed_before : Download :=
  mkDownload 0 "http://origin/z.bin" "z.bin" "/tmp" 4096 4096
    StatusDownloading 0 0%float (UTC 100) (Some 140) None "context canceled" 4.

Definition dm_second_run : DownloadManager :=
  mkManager
    (seeded (mkRow "http://origin/z.bin" "z.bin" "/tmp" 4096 4096
               StatusDownloading 0 0%float (UTC 100) (Some 140) None
               (Some "context canceled") 4))
    DefaultConfig
    [mkJob rec_failed_before false (30 * Second) [] 139]
    {[ 0 := 0%nat ]} NewQueue 1 [].

(** The sum of the per-chunk counters of a job. *)
Definition chunks_total (cs : list ChunkDownloader) : Z :=
  foldr (λ c acc, downloaded c + acc) 0 cs.

(** Turns of the chunk loops of one job in the order in which the chunk
    goroutines take them: the chunk index with what its read delivers. *)
Definition run_turns (turns : list (nat * ReadIO)) (job : DownloadJob)
  : DownloadJob :=
  foldl (λ j t, (downloadChunk_iter t.1 t.2 j).1) job turns.

(** A turn that delivers bytes which the file accepts, for a chunk of the
    job. *)
Definition turn_ok (job : DownloadJob) (t : nat * ReadIO) : Prop :=
  (t.1 < length (chunks job))%nat ∧ 0 <= io_n t.2 ∧ io_write t.2 = None.

Definition divide_by_zero : string := "runtime error: integer divide by zero".

(** A record with another size. *)
Definition set_Size_of (v : Z) (d : Download) : Download :=
  mkDownload (ID d) (URL d) (Filename d) (Path d) v (Downloaded d)
    (Status d) (Speed d) (Progress d) (CreatedAt d) (StartedAt d)
    (CompletedAt d) (Error d) (Chunks d).

(** The store is well formed and still has, under id [k], a row with the
    descriptive columns of [r0]. *)
Definition row_kept (k : Z) (r0 : Row) (db : DB) : Prop :=
  DB_wf db
  ∧ ∃ r, rows db !! k = Some r ∧ descriptive r = descriptive r0.

(** Calls of the functions of package storage, one after the other. *)
Inductive StoreOp : Type :=
  | DoSave (d : Download)
  | DoUpdate (d : Download)
  | DoDelete (id : Z).

(** The store after the calls, and the ids that the calls of
    [SaveDownload] returned, oldest first. *)
Fixpoint run_store (ops : list StoreOp) (db : DB) : DB * list Z :=
  match ops with
  | [] => (db, [])
  | DoSave d :: rest =>
      match SaveDownload db d with
      | (db1, inr id) =>
          let '(db2, ids) := run_store rest db1 in (db2, id :: ids)
      | (db1, inl _) => run_store rest db1
      end
  | DoUpdate d :: rest => run_store rest (UpdateDownload db d)
  | DoDelete id :: rest => run_store rest (DeleteDownload db id)
  end.

(** A reader that keeps up with its limiter: after each firing of the
    ticker, at the time given, one [Read] with a buffer of the length
    given. *)
Fixpoint paced (firings : list (Time * Z)) : list LimiterEvent :=
  match firings with
  | [] => []
  | (t, len_p) :: rest => Tick t :: ReadCall len_p :: paced rest
  end.

(** Two rows that were created an hour apart, the earlier one in a zone
    two hours east of UTC, the later one in UTC. *)
Definition row_east : Row :=
  mkRow "http://origin/a.bin" "a.bin" "/tmp" 4096 0 StatusPending 0 0%float
    (mkStamp 0 120) None None (Some "") 4.

Definition row_utc : Row :=
  mkRow "http://origin/b.bin" "b.bin" "/tmp" 4096 0 StatusPending 0 0%float
    (mkStamp (3600 * Second) 0) None None (Some "") 4.

Definition db_zones : DB := mkDB {[ 1 := row_east; 2 := row_utc ]} 2.

(** * Properties *)

(** ** Integers *)

Lemma wrap64_id (z : Z) : in_int64 z → wrap64 z = z.
Proof.
  unfold in_int64, wrap64. intros Hz.
  rewrite Z.mod_small by lia. lia.
Qed.

Lemma quot_div_nonneg (a b : Z) : 0 <= a → 0 < b → Z.quot a b = a / b.
Proof. intros Ha Hb. apply Z.quot_div_nonneg; lia. Qed.

Lemma go_div_pos (a b : Z) :
  0 <= a < 2 ^ 63 → 0 < b → go_div a b = Done (a / b).
Proof.
  intros Ha Hb. unfold go_div.
  destruct (Z.eqb_spec b 0) as [->|_]; [lia|].
  rewrite quot_div_nonneg by lia.
  rewrite wrap64_id; [done|].
  assert (0 <= a / b) by (apply Z.div_pos; lia).
  assert (a / b <= a) by (apply Z.div_le_upper_bound; nia).
  unfold in_int64. lia.
Qed.

(** ** The queue *)

Section QueueFacts.
Implicit Types (q : Queue) (d : Download) (l : list Download).

Lemma items_Add_all q l : items (foldl Add q l) = items q ++ l.
Proof.
  revert q. induction l as [|a l IH]; intros q; simpl.
  - by rewrite app_nil_r.
  - rewrite IH. simpl. by rewrite <- app_assoc.
Qed.

(** The first Pending entry sits behind a prefix without one. *)
Lemma Next_split q d q' :
  Next q = (Some d, q') →
  ∃ l1 l2, items q = l1 ++ d :: l2
           ∧ Forall (λ x, ¬ is_pending x) l1
           ∧ is_pending d
           ∧ items q' = l1 ++ l2.
Proof.
  unfold Next. destruct (list_find is_pending (items q)) as [[i x]|] eqn:Hf;
    [|discriminate].
  intros [= -> <-]. apply list_find_Some in Hf as (Hi & Hp & Hlt).
  exists (take i (items q)), (drop (S i) (items q)). split_and!.
  - by rewrite take_drop_middle.
  - apply Forall_lookup. intros j y Hj.
    apply lookup_take_Some in Hj as [Hj Hlt']. eapply Hlt; eauto.
  - done.
  - done.
Qed.

Lemma Next_none q q' :
  Next q = (None, q') → q' = q ∧ Forall (λ x, ¬ is_pending x) (items q).
Proof.
  unfold Next. destruct (list_find is_pending (items q)) as [[i x]|] eqn:Hf;
    [discriminate|].
  intros [= <-]. split; [done|]. by apply list_find_None in Hf.
Qed.

Lemma Next_behind_prefix l1 d l2 :
  Forall (λ x, ¬ is_pending x) l1 → is_pending d →
  Next (mkQueue (l1 ++ d :: l2)) = (Some d, mkQueue (l1 ++ l2)).
Proof.
  intros Hl1 Hd. unfold Next. simpl.
  assert (list_find is_pending (l1 ++ d :: l2) = Some (length l1, d)) as ->.
  { apply list_find_Some. split_and!.
    - by rewrite list_lookup_middle.
    - done.
    - intros j y Hj Hlt. rewrite lookup_app_l in Hj by done.
      eapply Forall_lookup_1 in Hl1; eauto. }
  rewrite take_app_length.
  replace (S (length l1)) with (length l1 + 1)%nat by lia.
  rewrite drop_app_add. done.
Qed.

Lemma Next_n_pending l1 l :
  Forall (λ x, ¬ is_pending x) l1 → Forall is_pending l →
  Next_n (length l) (mkQueue (l1 ++ l)) = (Some <$> l, mkQueue l1).
Proof.
  intros Hl1. induction 1 as [|a l Ha Hl IH]; simpl.
  - by rewrite app_nil_r.
  - rewrite Next_behind_prefix by done. by rewrite IH.
Qed.
End QueueFacts.

(** C9.  [Next] returns and removes the earliest record whose status is
    Pending: the records before it are not Pending and stay, in their
    order, as do all records behind it; without a Pending record it
    returns nothing and leaves the queue as it is.  Hence Pending records
    added in some order to a queue that holds no Pending record come out
    of successive calls of [Next] in that order. *)
Theorem Queue_Next_fifo (q : Queue) (l : list Download) :
  match Next q with
  | (Some d, q') =>
      ∃ l1 l2, items q = l1 ++ d :: l2
               ∧ Forall (λ x, Status x ≠ StatusPending) l1
               ∧ Status d = StatusPending
               ∧ items q' = l1 ++ l2
  | (None, q') =>
      q' = q ∧ Forall (λ x, Status x ≠ StatusPending) (items q)
  end
  ∧ (Forall (λ x, Status x ≠ StatusPending) (items q) →
     Forall (λ x, Status x = StatusPending) l →
     Next_n (length l) (foldl Add q l) = (Some <$> l, q)).
Proof.
  split.
  - destruct (Next q) as [[d|] q'] eqn:HN.
    + by apply Next_split.
    + by apply Next_none.
  - intros Hq Hl.
    assert (foldl Add q l = mkQueue (items q ++ l)) as ->.
    { pose proof (items_Add_all q l) as H.
      destruct (foldl Add q l) as [it]. simpl in H. by rewrite H. }
    rewrite Next_n_pending by done. by destruct q.
Qed.

Lemma Queue_Next_fifo_witness :
  Forall (λ x, Status x ≠ StatusPending) (items NewQueue)
  ∧ Forall (λ x, Status x = StatusPending) [recA; recB; recC]
  ∧ Next_n 3 (foldl Add NewQueue [recA; recB; recC])
    = ([Some recA; Some recB; Some recC], NewQueue).
Proof.
  split; [constructor|]. split; [repeat constructor|].
  apply (proj2 (Queue_Next_fifo NewQueue [recA; recB; recC]));
    repeat constructor.
Defined.

(** ** The partition of a ranged download *)

Section Partition.
Variables (size nchunks chunkSize : Z).
Hypothesis Hn : 1 <= nchunks.
Hypothesis Hq : 1 <= chunkSize.
Hypothesis Hfit : nchunks * chunkSize <= size.
Hypothesis Hsize : size < 2 ^ 63.

Lemma make_chunks_lookup (n : nat) (i : Z) (k : nat) :
  0 <= i → i + Z.of_nat n <= nchunks → (k < n)%nat →
  make_chunks n i nchunks size chunkSize !! k
  = Some (range_of size nchunks chunkSize (i + Z.of_nat k)).
Proof using Hn Hq Hfit Hsize.
  revert i k. induction n as [|n IH]; intros i k Hi Hin Hk; [lia|].
  assert (in_int64 (i * chunkSize)) by (unfold in_int64; nia).
  destruct k as [|k]; simpl.
  - rewrite Z.add_0_r. unfold range_of.
    rewrite (wrap64_id (i * chunkSize)) by done.
    destruct (i =? nchunks - 1).
    + rewrite wrap64_id by (unfold in_int64; nia). done.
    + rewrite wrap64_id by (unfold in_int64; nia). do 2 f_equal. lia.
  - rewrite IH by lia. do 2 f_equal. lia.
Qed.

Lemma make_chunks_length (n : nat) (i : Z) :
  length (make_chunks n i nchunks size chunkSize) = n.
Proof using Type. revert i. induction n as [|n IH]; intros i; simpl; [done|]. by rewrite IH. Qed.

Lemma range_of_bounds (i : Z) :
  0 <= i < nchunks →
  0 <= start (range_of size nchunks chunkSize i) ∧ start (range_of size nchunks chunkSize i) <= end_ (range_of size nchunks chunkSize i)
  ∧ end_ (range_of size nchunks chunkSize i) < size.
Proof using Hn Hq Hfit Hsize.
  intros Hi. unfold range_of. simpl.
  destruct (Z.eqb_spec i (nchunks - 1)); nia.
Qed.

Lemma range_of_ordered (i j : Z) :
  0 <= i → i < j → j < nchunks →
  end_ (range_of size nchunks chunkSize i) < start (range_of size nchunks chunkSize j).
Proof using Hn Hq Hfit Hsize.
  intros Hi Hij Hj. unfold range_of. simpl.
  destruct (Z.eqb_spec i (nchunks - 1)); nia.
Qed.

(** Every byte of the file lies in the range of some chunk. *)
Lemma range_of_covers (b : Z) :
  0 <= b < size →
  ∃ i, 0 <= i < nchunks ∧ start (range_of size nchunks chunkSize i) <= b <= end_ (range_of size nchunks chunkSize i).
Proof using Hn Hq Hfit Hsize.
  intros Hb. destruct (Z_lt_le_dec b ((nchunks - 1) * chunkSize)) as [Hlt|Hge].
  - exists (b / chunkSize).
    assert (0 <= b / chunkSize) by (apply Z.div_pos; lia).
    assert (b / chunkSize < nchunks - 1)
      by (apply Z.div_lt_upper_bound; lia).
    pose proof (Z.mul_div_le b chunkSize ltac:(lia)).
    pose proof (Z.mul_succ_div_gt b chunkSize ltac:(lia)).
    unfold range_of. simpl.
    destruct (Z.eqb_spec (b / chunkSize) (nchunks - 1)); nia.
  - exists (nchunks - 1). unfold range_of. simpl.
    rewrite Z.eqb_refl. lia.
Qed.
End Partition.

(** C5.  For a record of [S] bytes and [c] chunks with [1 <= c <= S],
    [downloadWithChunks] appends exactly [c] chunks to the job: chunk [i]
    below the last owns [[i*(S/c), (i+1)*(S/c) - 1]], the last one owns
    [[(c-1)*(S/c), S-1]] and so takes the remainder; two different chunks
    never share a byte, and the bytes owned are exactly [0 .. S-1]. *)
Theorem downloadWithChunks_partition (job : DownloadJob) :
  let S := Size (download job) in
  let c := Chunks (download job) in
  1 <= c → c <= S → S < 2 ^ 63 →
  ∃ cs : list ChunkDownloader,
    downloadWithChunks_spawn None None job
    = Done (set_chunks (chunks job ++ cs) job, None)
    ∧ length cs = Z.to_nat c
    ∧ (∀ i, 0 <= i < c - 1 →
         cs !! Z.to_nat i
         = Some (mkChunk (i * (S / c)) ((i + 1) * (S / c) - 1) 0))
    ∧ cs !! Z.to_nat (c - 1) = Some (mkChunk ((c - 1) * (S / c)) (S - 1) 0)
    ∧ (∀ (i j : nat) a b, i ≠ j → cs !! i = Some a → cs !! j = Some b →
         end_ a < start b ∨ end_ b < start a)
    ∧ (∀ b, 0 <= b < S ↔ ∃ ch, ch ∈ cs ∧ start ch <= b <= end_ ch).
Proof.
  intros S c Hc HcS HS.
  set (q := S / c).
  assert (Hq : 1 <= q) by (apply Z.div_le_lower_bound; lia).
  assert (Hfit : c * q <= S) by (apply Z.mul_div_le; lia).
  set (cs := make_chunks (Z.to_nat c) 0 c S q).
  assert (Hlook : ∀ k : nat, (k < Z.to_nat c)%nat →
            cs !! k = Some (range_of S c q (Z.of_nat k))).
  { intros k Hk. unfold cs.
    rewrite (make_chunks_lookup S c q Hc Hq Hfit HS) by lia. done. }
  assert (Hlen : length cs = Z.to_nat c) by apply make_chunks_length.
  assert (Hidx : ∀ (k : nat) a, cs !! k = Some a →
            (k < Z.to_nat c)%nat ∧ a = range_of S c q (Z.of_nat k)).
  { intros k a Hk. assert (k < Z.to_nat c)%nat as Hlt.
    { rewrite <- Hlen. eapply lookup_lt_Some; eauto. }
    split; [done|]. rewrite Hlook in Hk by done. congruence. }
  exists cs. split_and!.
  - unfold downloadWithChunks_spawn, chunk_ranges.
    fold S c. rewrite go_div_pos by lia. fold q cs.
    destruct (Z.ltb_spec c 0); [lia|done].
  - done.
  - intros i Hi. rewrite Hlook by lia. rewrite Z2Nat.id by lia.
    unfold range_of. destruct (Z.eqb_spec i (c - 1)); [lia|done].
  - rewrite Hlook by lia. rewrite Z2Nat.id by lia.
    unfold range_of. by rewrite Z.eqb_refl.
  - intros i j a b Hij Ha Hb.
    apply Hidx in Ha as [Hi ->]. apply Hidx in Hb as [Hj ->].
    destruct (Nat.lt_total i j) as [Hlt|[Heq|Hgt]]; [|done|].
    + left. apply (range_of_ordered S c q Hc Hq Hfit HS); lia.
    + right. apply (range_of_ordered S c q Hc Hq Hfit HS); lia.
  - intros b. split.
    + intros Hb. destruct (range_of_covers S c q Hc Hq Hfit HS b Hb) as (i & Hi & Hin).
      exists (range_of S c q i). split; [|done].
      apply list_elem_of_lookup. exists (Z.to_nat i).
      rewrite Hlook by lia. by rewrite Z2Nat.id by lia.
    + intros (ch & Hch & Hin). apply list_elem_of_lookup in Hch as [k Hk].
      apply Hidx in Hk as [Hk ->].
      pose proof (range_of_bounds S c q Hc Hq Hfit HS (Z.of_nat k) ltac:(lia)).
      lia.
Qed.

Lemma downloadWithChunks_partition_witness :
  ∃ cs : list ChunkDownloader,
    downloadWithChunks_spawn None None job_4096
    = Done (set_chunks (chunks job_4096 ++ cs) job_4096, None)
    ∧ length cs = 4%nat
    ∧ (∀ i, 0 <= i < 3 →
         cs !! Z.to_nat i = Some (mkChunk (i * 1024) ((i + 1) * 1024 - 1) 0))
    ∧ cs !! 3%nat = Some (mkChunk 3072 4095 0)
    ∧ (∀ (i j : nat) a b, i ≠ j → cs !! i = Some a → cs !! j = Some b →
         end_ a < start b ∨ end_ b < start a)
    ∧ (∀ b, 0 <= b < 4096 ↔ ∃ ch, ch ∈ cs ∧ start ch <= b <= end_ ch).
Proof.
  apply (downloadWithChunks_partition job_4096); simpl; lia.
Defined.

Example ranges_4096 :
  chunk_ranges 4096 4
  = Done [mkChunk 0 1023 0; mkChunk 1024 2047 0;
          mkChunk 2048 3071 0; mkChunk 3072 4095 0].
Proof. reflexivity. Qed.

Example ranges_remainder :
  chunk_ranges 10 4
  = Done [mkChunk 0 1 0; mkChunk 2 3 0; mkChunk 4 5 0; mkChunk 6 9 0].
Proof. reflexivity. Qed.

(** ** The store *)

Section StoreFacts.
Implicit Types (db : DB) (d : Download) (r : Row).

Lemma SaveDownload_ok db d :
  last_id db < max_rowid →
  SaveDownload db d
  = (mkDB (<[last_id db + 1 :=
               mkRow (URL d) (Filename d) (Path d) (Size d) (Downloaded d)
                 (Status d) 0 0%float (CreatedAt d) None None None
                 (Chunks d)]> (rows db)) (last_id db + 1),
     inr (last_id db + 1)).
Proof.
  intros Hlt. unfold SaveDownload.
  destruct (Z.ltb_spec (last_id db) max_rowid); [done|lia].
Qed.

Lemma SaveDownload_full db d :
  max_rowid <= last_id db → SaveDownload db d = (db, inl ErrFull).
Proof.
  intros Hge. unfold SaveDownload.
  destruct (Z.ltb_spec (last_id db) max_rowid); [lia|done].
Qed.

Lemma SaveDownload_row db d :
  last_id db < max_rowid →
  rows (SaveDownload db d).1 !! (last_id db + 1)
  = Some (mkRow (URL d) (Filename d) (Path d) (Size d) (Downloaded d)
            (Status d) 0 0%float (CreatedAt d) None None None (Chunks d)).
Proof. intros Hlt. rewrite SaveDownload_ok by done. apply lookup_insert_eq. Qed.

(** What SQLite keeps of a double is kept as it is when written again. *)
Lemma real_column_idem (f p : float) :
  real_column f = Some p → real_column p = Some p.
Proof.
  unfold real_column.
  destruct (PrimFloat.is_nan f) eqn:Hn; [done|].
  destruct (PrimFloat.eqb f 0) eqn:Hz; intros [= <-]; [done|].
  by rewrite Hn, Hz.
Qed.

Lemma scan_row_inr id r d :
  scan_row id r = inr d →
  ID d = id ∧ CreatedAt d = col_created_at r ∧ col_error r = Some (Error d)
  ∧ real_column (col_progress r) = Some (Progress d).
Proof.
  unfold scan_row. destruct (real_column (col_progress r)); [|done].
  destruct (col_error r); [|done]. by intros [= <-].
Qed.

Lemma scan_row_eq id r d :
  scan_row id r = inr d →
  d = mkDownload id (col_url r) (col_filename r) (col_path r) (col_size r)
        (col_downloaded r) (col_status r) (col_speed r) (Progress d)
        (col_created_at r) (col_started_at r) (col_completed_at r) (Error d)
        (col_chunks r).
Proof.
  unfold scan_row. destruct (real_column (col_progress r)); [|done].
  destruct (col_error r); [|done]. by intros [= <-].
Qed.

(** A row just inserted does not load: its [error] column is NULL. *)
Lemma GetDownload_after_SaveDownload db d :
  last_id db < max_rowid →
  GetDownload (SaveDownload db d).1 (last_id db + 1)
  = inl (ErrScanNull "error").
Proof.
  intros Hlt. unfold GetDownload. rewrite SaveDownload_row by done. done.
Qed.

Lemma GetDownload_ID db id d : GetDownload db id = inr d → ID d = id.
Proof.
  unfold GetDownload. destruct (rows db !! id) as [r|]; [|done].
  intros Hs. by apply scan_row_inr in Hs as (? & _).
Qed.

(** The progress of a record that was loaded is a double that SQLite
    keeps as it is. *)
Lemma GetDownload_Progress db id d :
  GetDownload db id = inr d → real_column (Progress d) = Some (Progress d).
Proof.
  unfold GetDownload. destruct (rows db !! id) as [r|]; [|done].
  intros Hs. apply scan_row_inr in Hs as (_ & _ & _ & Hp).
  by eapply real_column_idem.
Qed.

Lemma GetDownload_row db id d :
  GetDownload db id = inr d → ∃ r, rows db !! id = Some r ∧ scan_row id r = inr d.
Proof.
  unfold GetDownload. destruct (rows db !! id) as [r|]; [eauto|done].
Qed.

(** What a load returns for a row that [UpdateDownload] has written. *)
Lemma GetDownload_after_Update_any db d r :
  rows db !! ID d = Some r →
  GetDownload (UpdateDownload db d) (ID d)
  = match real_column (Progress d) with
    | None => inl (ErrScanNull "progress")
    | Some progress =>
        inr (mkDownload (ID d) (col_url r) (col_filename r) (col_path r)
               (col_size r) (Downloaded d) (Status d) (Speed d) progress
               (col_created_at r) (StartedAt d) (CompletedAt d) (Error d)
               (col_chunks r))
    end.
Proof.
  intros Hr. unfold GetDownload, UpdateDownload. simpl.
  rewrite lookup_alter_eq, Hr. done.
Qed.

Lemma GetDownload_after_Update db d r :
  rows db !! ID d = Some r →
  real_column (Progress d) = Some (Progress d) →
  GetDownload (UpdateDownload db d) (ID d)
  = inr (mkDownload (ID d) (col_url r) (col_filename r) (col_path r)
           (col_size r) (Downloaded d) (Status d) (Speed d) (Progress d)
           (col_created_at r) (StartedAt d) (CompletedAt d) (Error d)
           (col_chunks r)).
Proof.
  intros Hr Hp. by rewrite (GetDownload_after_Update_any db d r Hr), Hp.
Qed.

Lemma rows_after_Update db d r :
  rows db !! ID d = Some r →
  ∃ r1, rows (UpdateDownload db d) !! ID d = Some r1
        ∧ col_status r1 = Status d
        ∧ descriptive r1 = descriptive r.
Proof.
  intros Hr. unfold UpdateDownload. simpl.
  rewrite lookup_alter_eq, Hr. simpl. eauto.
Qed.

End StoreFacts.




(** The progress column at its edges: a NaN is kept as NULL and the row
    does not load any more; a negative zero comes back as zero. *)
Example progress_column_edges :
  let db1 := UpdateDownload (SaveDownload emptyDB rec_running).1
               (set_ID 1 rec_running) in
  GetDownload (UpdateDownload db1 (set_Progress nan (set_ID 1 rec_running))) 1
  = inl (ErrScanNull "progress")
  ∧ GetDownload
      (UpdateDownload db1 (set_Progress (-0)%float (set_ID 1 rec_running))) 1
    = inr (set_Progress 0%float (set_ID 1 rec_running)).
Proof. split; vm_compute; reflexivity. Qed.

(** ** The rate limiter *)

Section LimiterFacts.
Context {R A : Type}.
Variable source_Read : R → Z → A * R.
Implicit Types (r : @rateLimitedReader R) (evs : list LimiterEvent).

Lemma limiter_tick_length t (lim : list Time) :
  (length lim <= 1)%nat →
  (length (limiter_tick t lim) <= 1)%nat
  ∧ (length (limiter_tick t lim) <= length lim + 1)%nat
  ∧ (length lim = 1%nat → limiter_tick t lim = lim).
Proof.
  intros Hl. unfold limiter_tick, limiter_cap.
  case_decide as Hd.
  - rewrite length_app. simpl. lia.
  - split_and!; [lia|lia|done].
Qed.

Lemma Read_permit r len_p :
  match Read source_Read r len_p with
  | None => limiter r = []
  | Some (res, r1) =>
      (res, reader r1) = source_Read (reader r) len_p
      ∧ length (limiter r) = S (length (limiter r1))
      ∧ maxBytes r1 = maxBytes r
  end.
Proof.
  unfold Read. destruct (limiter r) as [|t rest] eqn:Hl; [done|].
  destruct (source_Read (reader r) len_p) as [res src]. simpl. done.
Qed.

(** No run lets more reads through than there were permits: the one the
    channel may hold at the start, and one per firing of the ticker. *)
Lemma limiter_run_bound evs r :
  (length (limiter r) <= 1)%nat →
  (length (limiter (limiter_run source_Read evs r).1) <= 1)%nat
  ∧ (completed (limiter_run source_Read evs r).2
     <= length (limiter r) + ticks evs)%nat.
Proof.
  revert r. induction evs as [|[t|len_p] evs IH]; intros r Hr; simpl.
  - split; [done|lia].
  - pose proof (limiter_tick_length t (limiter r) Hr) as (Hc & Hg & _).
    destruct (IH (reader_tick t r) Hc) as [H1 H2]. simpl in H2.
    split; [done|]. lia.
  - pose proof (Read_permit r len_p) as HR.
    destruct (Read source_Read r len_p) as [[res r1]|].
    + destruct HR as (_ & Hlen & _).
      destruct (IH r1 ltac:(lia)) as [H1 H2].
      destruct (limiter_run source_Read evs r1) as [r2 out]. simpl in *.
      split; [done|]. lia.
    + destruct (IH r Hr) as [H1 H2].
      destruct (limiter_run source_Read evs r) as [r2 out]. simpl in *.
      split; [done|]. lia.
Qed.

(** A firing of the ticker puts a permit into the empty channel, and is
    dropped when the channel holds one. *)
Lemma reader_tick_permit t r :
  (limiter r = [] → limiter (reader_tick t r) = [t])
  ∧ (limiter r ≠ [] → reader_tick t r = r).
Proof.
  unfold reader_tick, limiter_tick, limiter_cap. split.
  - intros Hr. simpl. rewrite Hr. done.
  - intros Hne. destruct r as [src lim m]. simpl in *.
    destruct lim as [|t0 rest]; [done|].
    case_decide; [simpl in *; lia|done].
Qed.

(** A reader that calls [Read] once after each firing is never kept
    waiting: every call returns, and the channel is empty again. *)
Lemma paced_run (firings : list (Time * Z)) r :
  limiter r = [] →
  limiter (limiter_run source_Read (paced firings) r).1 = []
  ∧ completed (limiter_run source_Read (paced firings) r).2 = length firings
  ∧ Forall is_Some (limiter_run source_Read (paced firings) r).2.
Proof.
  revert r. induction firings as [|[t len_p] firings IH]; intros r Hr; simpl.
  - split_and!; [done|done|constructor].
  - unfold Read, reader_tick, limiter_tick, limiter_cap. simpl.
    rewrite Hr. simpl.
    destruct (source_Read (reader r) len_p) as [res src] eqn:Hsrc.
    destruct (IH (mkReader src [] (maxBytes r)) eq_refl) as (H1 & H2 & H3).
    destruct (limiter_run source_Read (paced firings) _) as [r2 out].
    simpl in *. split_and!; [done|by rewrite H2|].
    constructor; [by eexists|done].
Qed.
End LimiterFacts.

(** C7, as the code has it.  For [maxBytesPerSecond] from 1024 on (and a
    rate [maxBytesPerSecond/1024] of at most 10^9), the ticker of the
    limiter fires every [10^9 / (maxBytesPerSecond / 1024)] nanoseconds,
    both divisions rounding down: the rate is the floor, not the ceiling,
    of [maxBytesPerSecond / 1024] per second.  Each firing releases one
    permit into the channel when the channel is empty and none when it
    holds one: the channel never holds more than one permit, so the reads
    that returned never outnumber the firings of the ticker, however long
    the reader was idle, and a reader that calls [Read] once after each
    firing is let through every time.  A [Read] that finds no permit does
    not return; one that finds a permit takes exactly one and makes
    exactly one read of the source with the buffer it was given. *)
Theorem limiter_rate {R A : Type} (source_Read : R → Z → A * R)
    (maxBytesPerSecond : Z) :
  1024 <= maxBytesPerSecond →
  maxBytesPerSecond / 1024 <= 1000000000 →
  ticker_period maxBytesPerSecond = Done (Second / (maxBytesPerSecond / 1024))
  ∧ 0 < Second / (maxBytesPerSecond / 1024)
  ∧ (∀ (r : @rateLimitedReader R) t,
       (limiter r = [] → limiter (reader_tick t r) = [t])
       ∧ (limiter r ≠ [] → reader_tick t r = r))
  ∧ (∀ evs src,
       let run := limiter_run source_Read evs
                    (newRateLimitedReader src maxBytesPerSecond) in
       (length (limiter run.1) <= 1)%nat
       ∧ (completed run.2 <= ticks evs)%nat)
  ∧ (∀ firings src,
       let run := limiter_run source_Read (paced firings)
                    (newRateLimitedReader src maxBytesPerSecond) in
       limiter run.1 = []
       ∧ completed run.2 = length firings
       ∧ Forall is_Some run.2)
  ∧ (∀ (r : rateLimitedReader) len_p,
       match Read source_Read r len_p with
       | None => limiter r = []
       | Some (res, r1) =>
           (res, reader r1) = source_Read (reader r) len_p
           ∧ length (limiter r) = S (length (limiter r1))
           ∧ maxBytes r1 = maxBytes r
       end).
Proof.
  intros Hlo Hhi.
  assert (Hhz : 1 <= maxBytesPerSecond / 1024)
    by (apply Z.div_le_lower_bound; lia).
  assert (Hper : 1 <= Second / (maxBytesPerSecond / 1024)).
  { apply Z.div_le_lower_bound; [lia|]. unfold Second. lia. }
  assert (Hmax : maxBytesPerSecond < 2 ^ 63).
  { pose proof (Z.mul_succ_div_gt maxBytesPerSecond 1024 ltac:(lia)). lia. }
  split_and!.
  - unfold ticker_period. rewrite go_div_pos by lia.
    rewrite go_div_pos by (unfold Second; lia).
    destruct (Z.leb_spec (Second / (maxBytesPerSecond / 1024)) 0); [lia|done].
  - lia.
  - intros r t. apply reader_tick_permit.
  - intros evs src run.
    pose proof (limiter_run_bound source_Read evs
                  (newRateLimitedReader src maxBytesPerSecond)) as Hb.
    simpl in Hb. apply Hb. lia.
  - intros firings src run. by apply paced_run.
  - intros r len_p. apply Read_permit.
Qed.

Lemma limiter_rate_witness :
  ticker_period 65536 = Done 15625000
  ∧ (let run := limiter_run counting_source
                  [Tick 1; Tick 2; Tick 3; ReadCall 32768; ReadCall 32768;
                   Tick 4; ReadCall 32768]
                  (newRateLimitedReader 0%nat 65536) in
     (length (limiter run.1) <= 1)%nat ∧ (completed run.2 <= 4)%nat)
  ∧ (let run := limiter_run counting_source
                  (paced [(1, 32768); (2, 32768); (3, 32768)])
                  (newRateLimitedReader 0%nat 65536) in
     completed run.2 = 3%nat).
Proof.
  pose proof (limiter_rate counting_source 65536 ltac:(lia)
                ltac:(vm_compute; discriminate))
    as (Hp & _ & _ & Hrun & Hpaced & _).
  split; [exact Hp|]. split.
  - exact (Hrun [Tick 1; Tick 2; Tick 3; ReadCall 32768; ReadCall 32768;
                 Tick 4; ReadCall 32768] 0%nat).
  - exact (proj1 (proj2 (Hpaced [(1, 32768); (2, 32768); (3, 32768)] 0%nat))).
Defined.

(** After three firings without a reader, one read returns and the next
    one waits for the fourth firing: idle time earns one permit at most. *)
Example idle_time_earns_one_permit :
  (limiter_run counting_source
     [Tick 1; Tick 2; Tick 3; ReadCall 32768; ReadCall 32768;
      Tick 4; ReadCall 32768]
     (newRateLimitedReader 0%nat 65536)).2
  = [Some 100; None; Some 100].
Proof. reflexivity. Qed.

(** C7 as stated fails at 1500 bytes per second: the specification's rate
    is [ceil(1500/1024) = 2] permits per second, a period of half a
    second, while the ticker of the code fires once per second. *)
Lemma limiter_rate_is_not_ceil :
  spec_permit_hz 1500 = 2
  ∧ ticker_period 1500 = Done Second
  ∧ ticker_period 1500 ≠ Done (Second / spec_permit_hz 1500).
Proof. split_and!; [reflexivity|reflexivity|discriminate]. Qed.

(** Below 1024 bytes per second the inner division gives 0 and the outer
    one panics. *)
Example ticker_period_below_1024 :
  ticker_period 1000 = Panic "runtime error: integer divide by zero".
Proof. reflexivity. Qed.

(** ** The job runner *)

Section RunnerFacts.
Implicit Types (dm : DownloadManager) (job : DownloadJob) (p : nat).

Lemma heap_store_job p job job' dm :
  heap dm !! p = Some job → heap (store_job p job' dm) !! p = Some job'.
Proof.
  intros Hp. unfold store_job. simpl.
  apply list_lookup_insert_eq. eapply lookup_lt_Some; eauto.
Qed.

Lemma heap_store_job_ne p p' job' dm :
  p ≠ p' → heap (store_job p job' dm) !! p' = heap dm !! p'.
Proof. intros Hne. unfold store_job. simpl. by apply list_lookup_insert_ne. Qed.

Lemma executeDownload_begin_job now p job dm :
  heap dm !! p = Some job →
  heap (executeDownload_begin now p dm) !! p
  = Some (set_download
            (set_StartedAt (Some now)
               (set_Status StatusDownloading (download job))) job)
  ∧ downloads (executeDownload_begin now p dm) = downloads dm.
Proof.
  intros Hp. unfold executeDownload_begin. simpl. rewrite Hp. simpl.
  split; [|done]. apply list_lookup_insert_eq. eapply lookup_lt_Some; eauto.
Qed.
End RunnerFacts.

(** ** Pause, cancel and the terminal transition *)

Section CancellationFacts.
Implicit Types (dm : DownloadManager) (job : DownloadJob) (p : nat).

(** Once the context is cancelled, the next turn of either read loop
    returns [ctx.Err()], whatever the origin delivers. *)
Lemma cancelled_turn_returns job io ci :
  ctx_done job = true →
  downloadSingleFile_iter io job = (job, Returned (Some Canceled))
  ∧ downloadChunk_iter ci io job = (job, Returned (Some Canceled)).
Proof.
  intros Hc. unfold downloadSingleFile_iter, downloadChunk_iter.
  by rewrite Hc.
Qed.

Lemma PauseDownload_job id p job dm :
  downloads dm !! id = Some p → heap dm !! p = Some job →
  let paused := set_Status StatusPaused (download job) in
  PauseDownload id dm
  = (notifyCallbacks paused
       (updateDownload paused
          (store_job p (set_download paused (cancel job)) dm)), None).
Proof. intros Hid Hp. unfold PauseDownload. by rewrite Hid, Hp. Qed.

(** The error branch of the terminal transition. *)
Lemma executeDownload_finish_error now p job e dm :
  heap dm !! p = Some job →
  let failed :=
    set_Error (Error_string e) (set_Status StatusFailed (download job)) in
  let dm1 := executeDownload_finish now p (Some e) dm in
  heap dm1 !! p = Some (set_download failed job)
  ∧ db dm1 = UpdateDownload (db dm) failed
  ∧ notified dm1 = notified dm ++ [failed]
  ∧ downloads dm1 = delete (ID (download job)) (downloads dm).
Proof.
  intros Hp failed dm1. unfold dm1, executeDownload_finish.
  rewrite Hp. simpl. split_and!; try done.
  apply list_lookup_insert_eq. eapply lookup_lt_Some; eauto.
Qed.
End CancellationFacts.

(** C1, what the code does.  For a job registered under [id],
    [PauseDownload] cancels the job's context and records Paused, with the
    byte counter as it was.  The runner then meets the cancellation at the
    next turn of its read loop, which returns [context.Canceled] like any
    other error, and the terminal transition of [executeDownload] treats
    it as one: the record of the job ends in status Failed with the
    error text of the cancellation, and that is what is written to the
    store and announced last.  The byte counter is still the one from
    before the pause. *)
Theorem pause_ends_in_Failed (id : Z) (p : nat) (job : DownloadJob)
    (dm : DownloadManager) (io : ReadIO) (ci : nat) (now : Time) :
  downloads dm !! id = Some p →
  heap dm !! p = Some job →
  let dm1 := (PauseDownload id dm).1 in
  ∃ job1,
    heap dm1 !! p = Some job1
    ∧ ctx_done job1 = true
    ∧ Status (download job1) = StatusPaused
    ∧ Downloaded (download job1) = Downloaded (download job)
    ∧ downloadSingleFile_iter io job1 = (job1, Returned (Some Canceled))
    ∧ downloadChunk_iter ci io job1 = (job1, Returned (Some Canceled))
    ∧ let dm2 := executeDownload_finish now p (Some Canceled) dm1 in
      ∃ job2,
        heap dm2 !! p = Some job2
        ∧ Status (download job2) = StatusFailed
        ∧ Error (download job2) = "context canceled"
        ∧ Downloaded (download job2) = Downloaded (download job)
        ∧ db dm2 = UpdateDownload (db dm1) (download job2)
        ∧ last (notified dm2) = Some (download job2).
Proof.
  intros Hid Hp dm1. unfold dm1.
  rewrite (PauseDownload_job id p job dm Hid Hp). simpl.
  set (paused := set_Status StatusPaused (download job)).
  set (job1 := set_download paused (cancel job)).
  set (dmp := notifyCallbacks paused (updateDownload paused (store_job p job1 dm))).
  assert (Hj1 : heap dmp !! p = Some job1).
  { unfold dmp. simpl. apply list_lookup_insert_eq.
    eapply lookup_lt_Some; eauto. }
  exists job1. split; [exact Hj1|].
  destruct (cancelled_turn_returns job1 io ci eq_refl) as [Hs Hc].
  split_and!; try done.
  destruct (executeDownload_finish_error now p job1 Canceled dmp Hj1)
    as (Hh & Hdb & Hn & _).
  eexists. split; [exact Hh|]. split_and!; try done.
  rewrite Hn. apply last_snoc.
Qed.

Lemma pause_ends_in_Failed_witness :
  downloads dm_running !! 0 = Some 0%nat
  ∧ heap dm_running !! 0%nat = Some job_running
  ∧ ∃ job2,
      heap (executeDownload_finish 130 0 (Some Canceled)
              (PauseDownload 0 dm_running).1) !! 0%nat = Some job2
      ∧ Status (download job2) = StatusFailed
      ∧ Downloaded (download job2) = 2048.
Proof.
  assert (H1 : downloads dm_running !! 0 = Some 0%nat)
    by (vm_compute; reflexivity).
  assert (H2 : heap dm_running !! 0%nat = Some job_running)
    by (vm_compute; reflexivity).
  split; [exact H1|]. split; [exact H2|].
  destruct (pause_ends_in_Failed 0 0 job_running dm_running
              (mkRead 1024 None None) 0 130 H1 H2)
    as (job1 & _ & _ & _ & _ & _ & _ & job2 & Hh & Hs & _ & Hd & _).
  exists job2. split; [exact Hh|]. split; [exact Hs|exact Hd].
Defined.

(** [dm_running] is a state of the program: the run of [executeDownload]
    on the job of [dm_zero] gets past the probe and stands in its read
    loop. *)
Example dm_running_is_reached :
  executeDownload 110 120 origin_half 0 dm_zero = Done (dm_running, Running).
Proof. vm_compute. reflexivity. Qed.

(** The same run, read off the store: Paused after the pause, Failed once
    the runner has unwound. *)
Example pause_then_unwind_in_store :
  let dm1 := (PauseDownload 0 dm_running).1 in
  let dm2 := executeDownload_finish 130 0 (Some Canceled) dm1 in
  GetDownload (db dm1) 0 = inr (set_Status StatusPaused rec_2048)
  ∧ GetDownload (db dm2) 0
    = inr (set_Error "context canceled" (set_Status StatusFailed rec_2048))
  ∧ downloads dm2 !! 0 = None.
Proof. vm_compute. done. Qed.

(** Cancel instead of pause: [CancelDownload] writes Cancelled to the
    store, and the unwinding runner overwrites it with Failed. *)
Example cancel_then_unwind_in_store :
  let dm1 := (CancelDownload 0 dm_running).1 in
  let dm2 := executeDownload_finish 130 0 (Some Canceled) dm1 in
  GetDownload (db dm1) 0
  = inr (set_Status StatusCancelled (set_Downloaded 0 rec_2048))
  ∧ heap dm1 !! 0%nat = Some (cancel job_running)
  ∧ GetDownload (db dm2) 0
    = inr (set_Error "context canceled" (set_Status StatusFailed rec_2048)).
Proof. vm_compute. done. Qed.

(** ** The read loops *)

Lemma wrap64_add (a b : Z) : wrap64 (wrap64 a + b) = wrap64 (a + b).
Proof.
  unfold wrap64. f_equal.
  replace ((a + 2 ^ 63) mod 2 ^ 64 - 2 ^ 63 + b + 2 ^ 63)
    with ((a + 2 ^ 63) mod 2 ^ 64 + b) by lia.
  rewrite Zplus_mod_idemp_l. f_equal. lia.
Qed.

Lemma wrap64_range (z : Z) : in_int64 (wrap64 z).
Proof.
  unfold in_int64, wrap64.
  pose proof (Z.mod_pos_bound (z + 2 ^ 63) (2 ^ 64) ltac:(lia)). lia.
Qed.

Section ReadLoopFacts.
Implicit Types (job : DownloadJob) (reads : list ReadIO) (ci : nat).

Lemma credited_turn ci io job :
  ctx_done job = false → 0 < io_n io → io_write io = None →
  downloadChunk_iter ci io job
  = (bump_Downloaded (io_n io)
       (set_chunks (alter (bump_chunk (io_n io)) ci (chunks job)) job),
     after_read (io_err io))
  ∧ credited ci (io_n io) job
      (bump_Downloaded (io_n io)
         (set_chunks (alter (bump_chunk (io_n io)) ci (chunks job)) job)).
Proof.
  intros Hc Hn Hw. split.
  - unfold downloadChunk_iter. rewrite Hc, Hw.
    destruct (Z.ltb_spec 0 (io_n io)); [done|lia].
  - unfold credited. simpl. split_and!; try done.
    intros c Hci. rewrite list_lookup_alter_eq, Hci. done.
Qed.

Lemma empty_turn ci io job :
  ctx_done job = false → io_n io <= 0 →
  downloadChunk_iter ci io job = (job, after_read (io_err io)).
Proof.
  intros Hc Hn. unfold downloadChunk_iter. rewrite Hc.
  destruct (Z.ltb_spec 0 (io_n io)); [lia|done].
Qed.

Lemma credited_zero ci job :
  in_int64 (Downloaded (download job)) →
  (∀ c, chunks job !! ci = Some c → in_int64 (downloaded c)) →
  credited ci 0 job job.
Proof.
  intros HD Hc. unfold credited. split_and!; try done.
  - by rewrite Z.add_0_r, wrap64_id.
  - intros c Hci. rewrite Hci, Z.add_0_r, wrap64_id by eauto. by destruct c.
Qed.

Lemma credited_trans ci k1 k2 job job1 job2 :
  credited ci k1 job job1 → credited ci k2 job1 job2 →
  credited ci (k1 + k2) job job2.
Proof.
  intros (Hc1 & HD1 & HS1 & Hst1 & Hch1) (Hc2 & HD2 & HS2 & Hst2 & Hch2).
  unfold credited. split_and!; try congruence.
  - by rewrite HD2, HD1, wrap64_add, Z.add_assoc.
  - intros c Hci. rewrite (Hch2 _ (Hch1 _ Hci)). simpl.
    by rewrite wrap64_add, Z.add_assoc.
Qed.

(** One turn of the chunk loop on a clean read. *)
Lemma clean_turn ci io job :
  ctx_done job = false → 0 <= io_n io → io_write io = None →
  in_int64 (Downloaded (download job)) →
  (∀ c, chunks job !! ci = Some c → in_int64 (downloaded c)) →
  ∃ job1, downloadChunk_iter ci io job = (job1, after_read (io_err io))
          ∧ credited ci (io_n io) job job1.
Proof.
  intros Hc Hn Hw HD Hch.
  destruct (Z_lt_le_dec 0 (io_n io)) as [Hpos|Hz].
  - destruct (credited_turn ci io job Hc Hpos Hw) as [He Hcr]. eauto.
  - exists job. split; [by apply empty_turn|].
    replace (io_n io) with 0 by lia. by apply credited_zero.
Qed.

Lemma credited_in_range ci k job job1 :
  credited ci k job job1 →
  in_int64 (Downloaded (download job1))
  ∧ ((∃ c, chunks job !! ci = Some c) →
     ∀ c1, chunks job1 !! ci = Some c1 → in_int64 (downloaded c1)).
Proof.
  intros (_ & HD & _ & _ & Hch). split.
  - rewrite HD. apply wrap64_range.
  - intros [c Hc] c1 Hc1. rewrite (Hch _ Hc) in Hc1.
    injection Hc1 as <-. simpl. apply wrap64_range.
Qed.

(** Clean reads keep the chunk loop running and credit what they deliver. *)
Lemma clean_reads_credit ci reads job c :
  ctx_done job = false →
  chunks job !! ci = Some c →
  in_int64 (downloaded c) →
  in_int64 (Downloaded (download job)) →
  Forall clean_read reads →
  ∃ job1, downloadChunk_loop ci reads job = (job1, Running)
          ∧ credited ci (total_n reads) job job1.
Proof.
  intros Hc Hci Hcr HD Hreads. revert job c Hc Hci Hcr HD.
  induction Hreads as [|io reads (Hn & He & Hw) _ IH];
    intros job c Hc Hci Hcr HD; simpl.
  - exists job. split; [done|]. apply credited_zero; [done|].
    intros c' Hc'. congruence.
  - destruct (clean_turn ci io job Hc Hn Hw HD) as (job1 & Ht & Hcred).
    { intros c' Hc'. congruence. }
    rewrite Ht, He. simpl.
    pose proof Hcred as (Hc1 & _ & _ & _ & Hch1).
    destruct (credited_in_range _ _ _ _ Hcred) as [HD1 _].
    destruct (IH job1 _ ltac:(congruence) (Hch1 _ Hci)
                ltac:(simpl; apply wrap64_range) HD1) as (job2 & Hl & Hcred2).
    exists job2. split; [done|]. eapply credited_trans; eauto.
Qed.
End ReadLoopFacts.

(** Appending one more read to a loop that is still running. *)
Lemma downloadChunk_loop_snoc (ci : nat) (reads : list ReadIO) (io : ReadIO)
    (job job1 : DownloadJob) :
  downloadChunk_loop ci reads job = (job1, Running) →
  downloadChunk_loop ci (reads ++ [io]) job
  = match downloadChunk_iter ci io job1 with
    | (job2, Running) => (job2, Running)
    | stop => stop
    end.
Proof.
  revert job. induction reads as [|r reads IH]; intros job; simpl.
  - intros [= ->]. done.
  - destruct (downloadChunk_iter ci r job) as [j [|err]]; [|done].
    apply IH.
Qed.

(** C4, as the code has it.  A chunk fetch that is not cancelled and
    meets no read or write error (and whose limiter, if one is configured,
    has started) returns success when the stream ends,
    whatever the number of bytes it has read by then: the length
    [end - start + 1] of its range is never compared with it.  The bytes
    delivered are credited to the chunk and to the job, and a fetch that
    stopped short of its range is a success like any other. *)
Theorem chunk_eof_is_success (cfg : DownloadConfig) (ci : nat)
    (c : ChunkDownloader) (reads : list ReadIO) (last_n : Z)
    (job : DownloadJob) :
  limiter_starts cfg job →
  ctx_done job = false →
  chunks job !! ci = Some c →
  in_int64 (downloaded c) →
  in_int64 (Downloaded (download job)) →
  Forall clean_read reads →
  0 <= last_n →
  let delivered := total_n reads + last_n in
  ∃ job1,
    downloadChunk cfg ci (Body (reads ++ [mkRead last_n (Some EOF) None])) job
    = Done (job1, Returned None)
    ∧ chunks job1 !! ci
      = Some (mkChunk (start c) (end_ c) (wrap64 (downloaded c + delivered)))
    ∧ Downloaded (download job1)
      = wrap64 (Downloaded (download job) + delivered).
Proof.
  intros Hms Hc Hci Hcr HD Hreads Hn delivered.
  destruct (clean_reads_credit ci reads job c Hc Hci Hcr HD Hreads)
    as (job1 & Hloop & Hcred).
  pose proof Hcred as (Hc1 & _ & _ & _ & Hch1).
  destruct (credited_in_range _ _ _ _ Hcred) as [HD1 Hr1].
  destruct (clean_turn ci (mkRead last_n (Some EOF) None) job1
              ltac:(congruence) Hn eq_refl HD1 (Hr1 (ex_intro _ c Hci)))
    as (job2 & Hturn & Hcred2).
  pose proof (credited_trans _ _ _ _ _ _ Hcred Hcred2) as (_ & HD2 & _ & _ & Hch2).
  exists job2. split_and!.
  - unfold downloadChunk. unfold limiter_starts in Hms. rewrite Hms.
    rewrite (downloadChunk_loop_snoc _ _ _ _ _ Hloop), Hturn. done.
  - apply Hch2, Hci.
  - apply HD2.
Qed.

Lemma chunk_eof_is_success_witness :
  ∃ job1,
    downloadChunk DefaultConfig 0
      (Body ([mkRead 60 None None] ++ [mkRead 40 (Some EOF) None])) job_ranged
    = Done (job1, Returned None)
    ∧ chunks job1 !! 0%nat = Some (mkChunk 0 1023 (wrap64 (0 + (60 + 0 + 40))))
    ∧ Downloaded (download job1) = wrap64 (0 + (60 + 0 + 40)).
Proof.
  apply (chunk_eof_is_success DefaultConfig 0 (mkChunk 0 1023 0)
           [mkRead 60 None None] 40 job_ranged).
  - reflexivity.
  - reflexivity.
  - reflexivity.
  - unfold in_int64. simpl. lia.
  - unfold in_int64. simpl. lia.
  - repeat constructor. simpl. lia.
  - lia.
Defined.

(** C4 as stated fails: the chunk that owns bytes 0 to 1023 reaches the
    end of the stream after 100 bytes, fewer than the 1024 of its range,
    and the fetch returns success, not an error. *)
Lemma short_read_returns_success :
  ∃ job1,
    downloadChunk DefaultConfig 0
      (Body [mkRead 60 None None; mkRead 40 (Some EOF) None]) job_ranged
    = Done (job1, Returned None)
    ∧ chunks job1 !! 0%nat = Some (mkChunk 0 1023 100)
    ∧ 100 < 1023 - 0 + 1.
Proof. eexists. split; [reflexivity|]. split; [reflexivity|lia]. Qed.

(** ** Admission *)




(** ** The statistics loop *)

Section StatsFacts.
Implicit Types (dm : DownloadManager) (job : DownloadJob) (p : nat).

Lemma updateStats_job_fields now job :
  let d := download job in
  let d1 := download (updateStats_job now job) in
  Progress d1 = (if 0 <? Size d then tick_progress d else Progress d)
  ∧ Speed d1
    = (if negb (IsZero (lastUpdate job)) && (0 <? Sub now (lastUpdate job))
       then tick_speed now job else Speed d)
  ∧ lastUpdate (updateStats_job now job) = now
  ∧ set_Speed 0 (set_Progress 0 d1) = set_Speed 0 (set_Progress 0 d)
  ∧ ctx_done (updateStats_job now job) = ctx_done job
  ∧ chunks (updateStats_job now job) = chunks job.
Proof.
  unfold updateStats_job, tick_speed, tick_progress. simpl.
  destruct (0 <? Size (download job));
    destruct (negb (IsZero (lastUpdate job)));
    destruct (0 <? Sub now (lastUpdate job)); simpl; done.
Qed.

Lemma updateStats_job_Downloaded now job :
  Downloaded (download (updateStats_job now job)) = Downloaded (download job).
Proof.
  destruct (updateStats_job_fields now job) as (_ & _ & _ & Hrest & _).
  apply (f_equal Downloaded) in Hrest. exact Hrest.
Qed.

Lemma updateStats_visit_running now p job dm :
  heap dm !! p = Some job → Status (download job) = StatusDownloading →
  updateStats_visit now p dm
  = notifyCallbacks (download (updateStats_job now job))
      (updateDownload (download (updateStats_job now job))
         (store_job p (updateStats_job now job) dm)).
Proof.
  intros Hp Hs. unfold updateStats_visit. rewrite Hp. by case_decide.
Qed.

Lemma updateStats_visit_other now p job dm :
  heap dm !! p = Some job → Status (download job) ≠ StatusDownloading →
  updateStats_visit now p dm = dm.
Proof.
  intros Hp Hs. unfold updateStats_visit. rewrite Hp. by case_decide.
Qed.

(** A visit leaves the jobs at other addresses and the registry alone, and
    only ever adds to the records announced. *)
Lemma updateStats_visit_frame now p dm :
  downloads (updateStats_visit now p dm) = downloads dm
  ∧ length (heap (updateStats_visit now p dm)) = length (heap dm)
  ∧ (∀ p', p' ≠ p → heap (updateStats_visit now p dm) !! p' = heap dm !! p')
  ∧ (∀ d, d ∈ notified dm → d ∈ notified (updateStats_visit now p dm)).
Proof.
  unfold updateStats_visit. destruct (heap dm !! p) as [job|] eqn:Hp; [|done].
  case_decide; [|done]. simpl. split_and!.
  - done.
  - by rewrite length_insert.
  - intros p' Hne. by apply list_lookup_insert_ne.
  - intros d Hd. apply elem_of_app. by left.
Qed.

(** The visits of one tick, over a list of registry entries whose
    addresses differ from one another. *)
Lemma visits_reach_every_job (now : Z → Time) (l : list (Z * nat)) dm id p job :
  NoDup l.*2 → (id, p) ∈ l → heap dm !! p = Some job →
  Status (download job) = StatusDownloading →
  let dm1 := foldl (λ dm1 '(id, p), updateStats_visit (now id) p dm1) dm l in
  heap dm1 !! p = Some (updateStats_job (now id) job)
  ∧ download (updateStats_job (now id) job) ∈ notified dm1.
Proof.
  intros Hnd Hin Hp Hs. simpl.
  assert (Hkeep : ∀ (l' : list (Z * nat)) dm' (x : option DownloadJob),
            p ∉ l'.*2 → heap dm' !! p = x →
            heap (foldl (λ dm1 '(id, p), updateStats_visit (now id) p dm1)
                    dm' l') !! p = x).
  { induction l' as [|[i q] l' IH]; intros dm' x Hq Hx; simpl; [done|].
    simpl in Hq. apply not_elem_of_cons in Hq as [Hpq Hq].
    apply IH; [done|].
    destruct (updateStats_visit_frame (now i) q dm') as (_ & _ & Hf & _).
    by rewrite Hf. }
  assert (Hnote : ∀ (l' : list (Z * nat)) dm' d,
            d ∈ notified dm' →
            d ∈ notified
                  (foldl (λ dm1 '(id, p), updateStats_visit (now id) p dm1)
                     dm' l')).
  { induction l' as [|[i q] l' IH]; intros dm' d Hd; simpl; [done|].
    apply IH. by apply updateStats_visit_frame. }
  revert dm Hp. induction l as [|[i q] l IH]; intros dm Hp;
    [by apply elem_of_nil in Hin|].
  simpl in *. apply NoDup_cons in Hnd as [Hq Hnd].
  apply elem_of_cons in Hin as [[= <- <-]|Hin].
  - rewrite (updateStats_visit_running _ _ _ _ Hp Hs). split.
    + apply Hkeep; [done|]. simpl. apply list_lookup_insert_eq.
      eapply lookup_lt_Some; eauto.
    + apply Hnote. simpl. apply elem_of_app. right. by left.
  - apply IH; [done|done|].
    destruct (updateStats_visit_frame (now i) q dm) as (_ & _ & Hf & _).
    rewrite Hf; [done|]. intros ->. apply Hq.
    apply list_elem_of_fmap. by exists (id, q).
Qed.
End StatsFacts.

(** C8, as the code has it.  At a tick of the statistics loop, for a
    registered job whose record is Downloading: the progress becomes
    [downloaded / total_size * 100] when [total_size > 0] and is left as
    it is otherwise; the speed becomes [downloaded] divided by the seconds
    since the job's [lastUpdate] (the time of the previous tick, or of the
    job's creation before the first one), converted to int64 as amd64
    does it (towards zero, and the smallest int64 when the quotient is
    out of range), and is left as it is when that time is zero or not
    positive; [lastUpdate] becomes the time of the
    tick; the record is then written to the store and announced.  Jobs
    whose addresses differ are all reached by one tick. *)
Theorem updateStats_tick_job (now : Z → Time) (id : Z) (p : nat)
    (job : DownloadJob) (dm : DownloadManager) :
  downloads dm !! id = Some p →
  heap dm !! p = Some job →
  Status (download job) = StatusDownloading →
  let d := download job in
  let job1 := updateStats_job (now id) job in
  let d1 := download job1 in
  Progress d1 = (if 0 <? Size d then tick_progress d else Progress d)
  ∧ Speed d1
    = (if negb (IsZero (lastUpdate job))
          && (0 <? Sub (now id) (lastUpdate job))
       then tick_speed (now id) job else Speed d)
  ∧ lastUpdate job1 = now id
  ∧ Downloaded d1 = Downloaded d
  ∧ Status d1 = Status d
  ∧ (let dm1 := updateStats_visit (now id) p dm in
     heap dm1 !! p = Some job1
     ∧ db dm1 = UpdateDownload (db dm) d1
     ∧ notified dm1 = notified dm ++ [d1])
  ∧ (NoDup (map_to_list (downloads dm)).*2 →
     let dm2 := updateStats_tick now dm in
     heap dm2 !! p = Some job1 ∧ d1 ∈ notified dm2).
Proof.
  intros Hid Hp Hs d job1 d1.
  destruct (updateStats_job_fields (now id) job) as (HP & HS & HL & Hrest & _).
  split_and!; try done.
  - apply (f_equal Downloaded) in Hrest. exact Hrest.
  - apply (f_equal Status) in Hrest. exact Hrest.
  - simpl. rewrite (updateStats_visit_running _ _ _ _ Hp Hs). simpl.
    split_and!; try done.
    apply list_lookup_insert_eq. eapply lookup_lt_Some; eauto.
  - intros Hnd. unfold updateStats_tick.
    apply (visits_reach_every_job now _ dm id p job Hnd); [|done..].
    by apply elem_of_map_to_list.
Qed.

Lemma updateStats_tick_job_witness :
  downloads dm_stats !! 0 = Some 0%nat
  ∧ heap dm_stats !! 0%nat = Some job_5s
  ∧ Status (download job_5s) = StatusDownloading
  ∧ heap (updateStats_tick (λ _, 6 * Second) dm_stats) !! 0%nat
    = Some (updateStats_job (6 * Second) job_5s)
  ∧ Speed (download (updateStats_job (6 * Second) job_5s))
    = tick_speed (6 * Second) job_5s.
Proof.
  assert (H1 : downloads dm_stats !! 0 = Some 0%nat) by (vm_compute; reflexivity).
  assert (H2 : heap dm_stats !! 0%nat = Some job_5s) by (vm_compute; reflexivity).
  assert (H3 : Status (download job_5s) = StatusDownloading) by reflexivity.
  destruct (updateStats_tick_job (λ _, 6 * Second) 0 0 job_5s dm_stats H1 H2 H3)
    as (_ & Hspeed & _ & _ & _ & _ & Htick).
  split; [exact H1|]. split; [exact H2|]. split; [exact H3|]. split.
  - apply Htick. vm_compute. repeat constructor. intros H. inversion H.
  - exact Hspeed.
Defined.

(** [dm_6000] is a state of the program: the run of [executeDownload] on
    the job of [dm_12000] gets past the probe and stands in its read loop
    with 6000 bytes. *)
Example dm_6000_is_reached :
  executeDownload 0 0 origin_6000 0 dm_12000 = Done (dm_6000, Running).
Proof. vm_compute. reflexivity. Qed.

(** C8 as stated fails for the speed.  The job of [dm_stats] was started
    at time 0 and has 6000 bytes; at the tick after 6 seconds the
    specification's speed, over the time since [started_at], is 1000 bytes
    per second, while the loop divides by the one second since the tick
    before and sets 6000. *)
Lemma speed_is_not_since_started_at :
  let dm1 := updateStats_tick (λ _, 6 * Second) dm_stats in
  ∃ job1,
    heap dm1 !! 0%nat = Some job1
    ∧ StartedAt (download job1) = Some 0
    ∧ Speed (download job1) = 6000
    ∧ spec_speed (6 * Second) (download job_5s) = Some 1000
    ∧ Some (Speed (download job1)) ≠ spec_speed (6 * Second) (download job_5s).
Proof.
  eexists. split; [vm_compute; reflexivity|].
  split; [reflexivity|]. split; [reflexivity|].
  split; [vm_compute; reflexivity|]. vm_compute. discriminate.
Qed.

(** The conversion of the speed at its edge: 2^62 bytes within a tenth of
    a second are more bytes per second than an [int64] holds, and the
    speed that the tick sets is the smallest [int64]. *)
Example speed_out_of_range :
  let job := mkJob (set_Downloaded (2 ^ 62) rec_2048) false (30 * Second) []
               (5 * Second) in
  Speed (download (updateStats_job (5 * Second + 100000000) job)) = - 2 ^ 63.
Proof. vm_compute. reflexivity. Qed.

(** ** The byte counter across operation sequences *)

Section CounterFacts.
Implicit Types (dm : DownloadManager) (job : DownloadJob) (d : Download).
Variable B : Z.

Lemma counters_store_job p job dm :
  counters_within B dm → counter_within B (download job) →
  counters_within B (store_job p job dm).
Proof.
  intros [Hh Hd] Hj. split; [|done]. simpl. by apply Forall_insert.
Qed.

Lemma counters_heap_lookup p job dm :
  counters_within B dm → heap dm !! p = Some job →
  counter_within B (download job).
Proof. intros [Hh _] Hp. by eapply (Forall_lookup_1 _ _ _ _ Hh). Qed.

Lemma rows_UpdateDownload (db : DB) d :
  map_Forall (λ _ r, 0 <= col_downloaded r <= B) (rows db) →
  counter_within B d →
  map_Forall (λ _ r, 0 <= col_downloaded r <= B) (rows (UpdateDownload db d)).
Proof.
  intros Hdb Hd k r. unfold UpdateDownload. simpl. rewrite lookup_alter.
  case_decide as Hk.
  - destruct (rows db !! ID d); [|done]. simpl. by intros [= <-].
  - apply Hdb.
Qed.

Lemma counters_updateDownload d dm :
  counters_within B dm → counter_within B d →
  counters_within B (updateDownload d dm).
Proof. intros [Hh Hd] Hj. split; [done|]. by apply rows_UpdateDownload. Qed.

Lemma counters_notifyCallbacks d dm :
  counters_within B dm → counters_within B (notifyCallbacks d dm).
Proof. by intros [Hh Hd]. Qed.

Lemma counter_GetDownload (db : DB) id d :
  map_Forall (λ _ r, 0 <= col_downloaded r <= B) (rows db) →
  GetDownload db id = inr d → counter_within B d.
Proof.
  intros Hdb. unfold GetDownload.
  destruct (rows db !! id) as [r|] eqn:Hr; [|done].
  intros Hs. apply scan_row_eq in Hs. rewrite Hs.
  exact (Hdb _ _ Hr).
Qed.

Lemma counters_StartDownload now id dm :
  counters_within B dm → counters_within B (StartDownload now id dm).1.
Proof.
  intros Hinv. pose proof Hinv as [Hh Hd]. unfold StartDownload.
  destruct (GetDownload (db dm) id) as [e|d] eqn:Hget; [done|].
  case_decide; [done|]. split; [|done]. simpl.
  apply Forall_app. split; [done|]. constructor; [|done].
  by eapply counter_GetDownload.
Qed.

Lemma counters_AddDownload now url path filename size dm :
  0 <= B → counters_within B dm →
  counters_within B (AddDownload now url path filename size dm).1.
Proof.
  intros HB [Hh Hd]. unfold AddDownload, SaveDownload.
  destruct (last_id (db dm) <? max_rowid); [|done].
  simpl. split; [done|]. simpl.
  apply map_Forall_insert_2; [|done]. simpl. lia.
Qed.

Lemma counters_PauseDownload id dm :
  counters_within B dm → counters_within B (PauseDownload id dm).1.
Proof.
  intros Hinv. unfold PauseDownload.
  destruct (downloads dm !! id) as [p|]; [|done].
  destruct (heap dm !! p) as [job|] eqn:Hp; [|done]. simpl.
  pose proof (counters_heap_lookup _ _ _ Hinv Hp) as Hj.
  apply counters_notifyCallbacks, counters_updateDownload; [|done].
  by apply counters_store_job.
Qed.

Lemma counters_CancelDownload id dm :
  counters_within B dm → counters_within B (CancelDownload id dm).1.
Proof.
  intros Hinv. unfold CancelDownload.
  set (dm1 := match downloads dm !! id with
              | Some p => match heap dm !! p with
                          | Some job => store_job p (cancel job) dm
                          | None => dm
                          end
              | None => dm
              end).
  assert (Hinv1 : counters_within B dm1).
  { unfold dm1. destruct (downloads dm !! id) as [p|]; [|done].
    destruct (heap dm !! p) as [job|] eqn:Hp; [|done].
    apply counters_store_job; [done|].
    exact (counters_heap_lookup _ _ _ Hinv Hp). }
  destruct (GetDownload (db dm1) id) as [e|d] eqn:Hget; [done|]. simpl.
  apply counters_notifyCallbacks, counters_updateDownload; [done|].
  destruct Hinv1 as [_ Hd]. exact (counter_GetDownload _ _ _ Hd Hget).
Qed.

Lemma counters_add_active k dm :
  counters_within B dm → counters_within B (add_active k dm).
Proof. by intros [Hh Hd]. Qed.

Lemma counters_begin now p dm :
  counters_within B dm → counters_within B (executeDownload_begin now p dm).
Proof.
  intros Hinv. unfold executeDownload_begin.
  pose proof (counters_add_active 1 dm Hinv) as Hinv1.
  destruct (heap (add_active 1 dm) !! p) as [job|] eqn:Hp; [|done].
  pose proof (counters_heap_lookup _ _ _ Hinv1 Hp) as Hj.
  apply counters_updateDownload; [|done]. by apply counters_store_job.
Qed.

Lemma counters_finish now p err dm :
  counters_within B dm →
  counters_within B (executeDownload_finish now p err dm).
Proof.
  intros Hinv. unfold executeDownload_finish.
  destruct (heap dm !! p) as [job|] eqn:Hp; [|done].
  pose proof (counters_heap_lookup _ _ _ Hinv Hp) as Hj.
  set (d := match err with Some e => _ | None => _ end).
  assert (Hd : counter_within B d) by (unfold d; by destruct err).
  pose proof (counters_notifyCallbacks d _
                (counters_updateDownload d _
                   (counters_store_job p (set_download d job) dm Hinv Hd) Hd))
    as [Hh Hdb].
  split; done.
Qed.

Lemma counters_spawn p create truncate dm :
  counters_within B dm →
  counters_within B (apply_op (OpSpawn p create truncate) dm).
Proof.
  intros Hinv. simpl. destruct (heap dm !! p) as [job|] eqn:Hp; [|done].
  pose proof (counters_heap_lookup _ _ _ Hinv Hp) as Hj.
  unfold downloadWithChunks_spawn.
  destruct (chunk_ranges _ _) as [ranges|]; [|done].
  destruct create, truncate; try by apply counters_store_job.
  destruct (Chunks (download job) <? 0); [done|].
  by apply counters_store_job.
Qed.

Lemma counters_visit now p dm :
  counters_within B dm → counters_within B (updateStats_visit now p dm).
Proof.
  intros Hinv. unfold updateStats_visit.
  destruct (heap dm !! p) as [job|] eqn:Hp; [|done].
  case_decide; [|done].
  pose proof (counters_heap_lookup _ _ _ Hinv Hp) as Hj.
  assert (Hd : counter_within B (download (updateStats_job now job))).
  { unfold counter_within. by rewrite updateStats_job_Downloaded. }
  apply counters_notifyCallbacks, counters_updateDownload; [|done].
  by apply counters_store_job.
Qed.

Lemma counters_stats_tick now dm :
  counters_within B dm → counters_within B (updateStats_tick now dm).
Proof.
  unfold updateStats_tick. generalize (map_to_list (downloads dm)).
  intros l. revert dm. induction l as [|[id p] l IH]; intros dm Hinv; [done|].
  simpl. apply IH. by apply counters_visit.
Qed.

Lemma counters_queue_tick now dm :
  counters_within B dm → counters_within B (processQueue_tick now dm).
Proof.
  intros Hinv. unfold processQueue_tick.
  destruct (_ <? _); [|done].
  destruct (Next (queue dm)) as [[d|] q]; [|done].
  by apply counters_StartDownload.
Qed.
End CounterFacts.

Section CounterSteps.
Implicit Types (dm : DownloadManager) (job : DownloadJob) (io : ReadIO).

Lemma counters_within_mono B B' dm :
  B <= B' → counters_within B dm → counters_within B' dm.
Proof.
  intros HB [Hh Hd]. split.
  - eapply Forall_impl; [exact Hh|]. unfold counter_within. simpl. lia.
  - eapply map_Forall_impl; [exact Hd|]. simpl. lia.
Qed.

(** One turn of either read loop adds between 0 and [io_n] bytes. *)
Lemma turn_adds_at_most_n io ci job :
  0 <= io_n io → 0 <= Downloaded (download job) →
  Downloaded (download job) + io_n io < 2 ^ 63 →
  let D := Downloaded (download job) in
  D <= Downloaded (download (downloadSingleFile_iter io job).1) <= D + io_n io
  ∧ D <= Downloaded (download (downloadChunk_iter ci io job).1) <= D + io_n io.
Proof.
  intros Hn HD Hsum D.
  assert (Hw : wrap64 (D + io_n io) = D + io_n io)
    by (apply wrap64_id; unfold in_int64, D; lia).
  unfold downloadSingleFile_iter, downloadChunk_iter.
  destruct (ctx_done job); simpl; [lia|].
  destruct (0 <? io_n io); simpl; [|lia].
  destruct (io_write io); simpl; fold D; lia.
Qed.

Lemma counters_read B p io dm (f : DownloadJob → DownloadJob * Outcome) :
  (∀ job, 0 <= Downloaded (download job) →
          Downloaded (download job) + io_n io < 2 ^ 63 →
          Downloaded (download job) <= Downloaded (download (f job).1)
          <= Downloaded (download job) + io_n io) →
  ReadIO_ok io → B + buffer_len < 2 ^ 63 →
  counters_within B dm →
  counters_within (B + buffer_len) (step_job p f dm).1.
Proof.
  intros Hf [Hn0 Hn1] HB Hinv.
  pose proof (counters_within_mono B (B + buffer_len) dm
                ltac:(unfold buffer_len; lia) Hinv) as Hinv'.
  unfold step_job. destruct (heap dm !! p) as [job|] eqn:Hp; [|done].
  pose proof (counters_heap_lookup B _ _ _ Hinv Hp) as [Hj0 Hj1].
  specialize (Hf job Hj0 ltac:(lia)).
  destruct (f job) as [job1 o]. simpl in *.
  apply counters_store_job; [done|]. unfold counter_within. lia.
Qed.

Lemma counters_apply_op B op dm :
  op_ok op → 0 <= B → B + buffer_len < 2 ^ 63 →
  counters_within B dm →
  counters_within (B + buffer_len) (apply_op op dm).
Proof.
  intros Hok HB0 HB Hinv.
  assert (Hmono : ∀ dm', counters_within B dm' →
            counters_within (B + buffer_len) dm').
  { intros dm'. apply counters_within_mono. unfold buffer_len. lia. }
  destruct op; simpl in Hok.
  - by apply Hmono, counters_AddDownload.
  - by apply Hmono, counters_StartDownload.
  - by apply Hmono, counters_PauseDownload.
  - by apply Hmono, counters_CancelDownload.
  - by apply Hmono, counters_begin.
  - by apply Hmono, counters_spawn.
  - apply (counters_read B p io dm (downloadChunk_iter ci io)); [|done..].
    intros job H0 Hs. by apply (turn_adds_at_most_n io ci job (proj1 Hok)).
  - apply (counters_read B p io dm (downloadSingleFile_iter io)); [|done..].
    intros job H0 Hs. by apply (turn_adds_at_most_n io 0%nat job (proj1 Hok)).
  - by apply Hmono, counters_finish.
  - by apply Hmono, counters_queue_tick.
  - by apply Hmono, counters_stats_tick.
Qed.

Lemma counters_run_ops ops B dm :
  Forall op_ok ops → 0 <= B →
  B + buffer_len * Z.of_nat (length ops) < 2 ^ 63 →
  counters_within B dm →
  counters_within (B + buffer_len * Z.of_nat (length ops)) (run_ops ops dm).
Proof.
  intros Hops. revert B dm.
  induction Hops as [|op ops Hop _ IH]; intros B dm HB0 HB Hinv.
  - simpl. by rewrite Z.mul_0_r, Z.add_0_r.
  - cbn [length run_ops foldl] in *.
    assert (Hb : 0 <= buffer_len) by (unfold buffer_len; lia).
    pose proof (counters_apply_op B op dm Hop HB0 ltac:(nia) Hinv) as Hstep.
    specialize (IH (B + buffer_len) (apply_op op dm) ltac:(lia) ltac:(nia) Hstep).
    replace (B + buffer_len * Z.of_nat (S (length ops)))
      with (B + buffer_len + buffer_len * Z.of_nat (length ops)) by nia.
    exact IH.
Qed.

(** A whole run of either read loop adds between 0 and the bytes that
    the reads deliver, wherever it stops. *)
Lemma loops_add_at_most_total (reads : list ReadIO) ci job :
  Forall (λ io, 0 <= io_n io) reads →
  0 <= Downloaded (download job) →
  Downloaded (download job) + total_n reads < 2 ^ 63 →
  let D := Downloaded (download job) in
  D <= Downloaded (download (downloadSingleFile_loop reads job).1)
  <= D + total_n reads
  ∧ D <= Downloaded (download (downloadChunk_loop ci reads job).1)
    <= D + total_n reads.
Proof.
  intros Hreads. revert job.
  induction Hreads as [|io reads Hn Hreads IH]; intros job HD Hsum; simpl.
  - lia.
  - simpl in Hsum.
    assert (Ht : 0 <= total_n reads).
    { clear -Hreads. induction Hreads; simpl; lia. }
    destruct (turn_adds_at_most_n io ci job Hn HD ltac:(lia)) as [Hs Hc].
    split.
    + destruct (downloadSingleFile_iter io job) as [job1 [|err]];
        simpl in *; [|lia].
      destruct (IH job1 ltac:(lia) ltac:(lia)) as [IHs _]. simpl in IHs. lia.
    + destruct (downloadChunk_iter ci io job) as [job1 [|err]];
        simpl in *; [|lia].
      destruct (IH job1 ltac:(lia) ltac:(lia)) as [_ IHc]. simpl in IHc. lia.
Qed.
End CounterSteps.

(** C2, as the code has it.  Across every sequence of engine operations
    (add, start, pause, cancel, the steps of the runners with reads of at
    most 32 KiB, the ticks), the byte counter of every record, in a job or
    in the store, stays at or above 0, and after [n] operations it is at
    most [B + 32768 * n], where [B] bounds the counters at the start (as
    long as this stays below 2^63).  The upper bound
    [downloaded <= total_size] is not enforced anywhere: a run of a read
    loop adds to the counter what its reads delivered, at most their
    total, on top of the value the record had when the run began, and
    [StartDownload] gives the new job the value that the store holds.  So
    [downloaded <= total_size] holds after a run when the value at its
    start plus the bytes that the origin delivers does not exceed
    [total_size]. *)
Theorem downloaded_counter_bounds (ops : list Op) (B : Z)
    (dm : DownloadManager) (reads : list ReadIO) (ci : nat)
    (job : DownloadJob) :
  (Forall op_ok ops → 0 <= B →
   B + buffer_len * Z.of_nat (length ops) < 2 ^ 63 →
   counters_within B dm →
   counters_within (B + buffer_len * Z.of_nat (length ops)) (run_ops ops dm))
  ∧ (Forall (λ io, 0 <= io_n io) reads →
     0 <= Downloaded (download job) →
     Downloaded (download job) + total_n reads <= Size (download job) →
     Size (download job) < 2 ^ 63 →
     let D := Downloaded (download job) in
     let D1 := Downloaded (download (downloadSingleFile_loop reads job).1) in
     let D2 := Downloaded (download (downloadChunk_loop ci reads job).1) in
     (D <= D1 <= D + total_n reads ∧ D1 <= Size (download job))
     ∧ (D <= D2 <= D + total_n reads ∧ D2 <= Size (download job)))
  ∧ (∀ now id d, GetDownload (db dm) id = inr d →
       Status d ≠ StatusDownloading →
       ∃ job1, heap (StartDownload now id dm).1 !! length (heap dm) = Some job1
               ∧ Downloaded (download job1) = Downloaded d).
Proof.
  split_and!.
  - apply counters_run_ops.
  - intros Hreads HD Hfit Hsize D D1 D2.
    destruct (loops_add_at_most_total reads ci job Hreads HD ltac:(lia))
      as [Hs Hc].
    fold D D1 in Hs. fold D D2 in Hc. lia.
  - intros now id d Hget Hst. unfold StartDownload. rewrite Hget.
    case_decide; [done|]. simpl. eexists. split.
    + apply list_lookup_middle. done.
    + done.
Qed.

Lemma downloaded_counter_bounds_witness :
  let ops := [OpStart 20 0; OpBegin 21 0;
              OpSingleRead 0 (mkRead 4 (Some EOF) None); OpFinish 22 0 None] in
  counters_within (6 + buffer_len * 4) (run_ops ops dm_paused)
  ∧ (let job := mkJob rec_paused false (30 * Second) [] 20 in
     let D1 := Downloaded (download
                  (downloadSingleFile_loop [mkRead 4 (Some EOF) None] job).1) in
     6 <= D1 <= 6 + 4 ∧ D1 <= 10)
  ∧ ∃ job1, heap (StartDownload 20 0 dm_paused).1 !! 0%nat = Some job1
            ∧ Downloaded (download job1) = 6.
Proof.
  intros ops.
  pose proof (downloaded_counter_bounds ops 6 dm_paused
                [mkRead 4 (Some EOF) None] 0
                (mkJob rec_paused false (30 * Second) [] 20))
    as (Hops & Hrun & Hstart).
  split_and!.
  - apply Hops.
    + repeat constructor; unfold buffer_len; simpl; lia.
    + lia.
    + vm_compute. reflexivity.
    + split.
      * constructor.
      * apply map_Forall_insert_2; [simpl; lia|apply map_Forall_empty].
  - apply Hrun; simpl; try lia. repeat constructor. simpl. lia.
  - apply (Hstart 20 0 rec_paused); [vm_compute; reflexivity|].
    vm_compute. discriminate.
Defined.

(** The sequence of operations of the witness is a run of the program:
    the start of the record under id 0, and the run of [executeDownload]
    on its job against an origin that serves 4 bytes. *)
Example counter_witness_is_a_run :
  executeDownload 21 22
    (mkOrigin (ProbeResponse None) (Body [mkRead 4 (Some EOF) None]) []
       None None) 0 (StartDownload 20 0 dm_paused).1
  = Done (run_ops [OpStart 20 0; OpBegin 21 0;
                   OpSingleRead 0 (mkRead 4 (Some EOF) None);
                   OpFinish 22 0 None] dm_paused,
          Returned None).
Proof. vm_compute. reflexivity. Qed.

(** C2 as stated fails.  The store holds, under id 0, a record of 10
    bytes that was paused after 6.  It is started again, and the run of
    [executeDownload] on the new job probes the origin, reads the 10 bytes
    of the file from the beginning and finishes: the record is Completed
    with [downloaded = 16], above its [total_size] of 10. *)
Lemma restart_exceeds_total_size :
  GetDownload (db dm_paused) 0 = inr rec_paused
  ∧ ∃ dm1 d,
      executeDownload 21 22 origin_10 0 (StartDownload 20 0 dm_paused).1
      = Done (dm1, Returned None)
      ∧ GetDownload (db dm1) 0 = inr d
      ∧ 0 < Size d
      ∧ Size d = 10
      ∧ Downloaded d = 16
      ∧ Status d = StatusCompleted
      ∧ ¬ (Downloaded d <= Size d).
Proof.
  split; [vm_compute; reflexivity|].
  eexists _, _. split; [vm_compute; reflexivity|].
  split; [vm_compute; reflexivity|]. simpl.
  split_and!; try reflexivity; lia.
Qed.

(** ** No job is ever registered under id 0 *)

Section JobZeroFacts.
Implicit Types (dm : DownloadManager) (job : DownloadJob) (d : Download).

Lemma zero_UpdateDownload (db : DB) d :
  rows db !! 0 = None → rows (UpdateDownload db d) !! 0 = None.
Proof.
  intros H0. unfold UpdateDownload. simpl. rewrite lookup_alter.
  case_decide as Hk; [rewrite Hk|]; rewrite H0; done.
Qed.

Lemma zero_updateDownload d dm :
  no_job_zero dm → no_job_zero (updateDownload d dm).
Proof.
  intros (H1 & H2 & H3). split_and!; try done. by apply zero_UpdateDownload.
Qed.

Lemma zero_store_job p job dm : no_job_zero dm → no_job_zero (store_job p job dm).
Proof. by intros (H1 & H2 & H3). Qed.

Lemma zero_notifyCallbacks d dm :
  no_job_zero dm → no_job_zero (notifyCallbacks d dm).
Proof. by intros (H1 & H2 & H3). Qed.

Lemma zero_StartDownload now id dm :
  no_job_zero dm → no_job_zero (StartDownload now id dm).1.
Proof.
  intros Hinv. pose proof Hinv as (H1 & H2 & H3). unfold StartDownload.
  destruct (GetDownload (db dm) id) as [e|d] eqn:Hget; [done|].
  case_decide; [done|]. split_and!; try done. simpl.
  rewrite lookup_insert_ne; [done|]. intros ->.
  unfold GetDownload in Hget. by rewrite H2 in Hget.
Qed.

Lemma zero_visit now p dm :
  no_job_zero dm → no_job_zero (updateStats_visit now p dm).
Proof.
  intros Hinv. unfold updateStats_visit.
  destruct (heap dm !! p) as [job|]; [|done]. case_decide; [|done].
  by apply zero_notifyCallbacks, zero_updateDownload, zero_store_job.
Qed.

Lemma zero_apply_op op dm : no_job_zero dm → no_job_zero (apply_op op dm).
Proof.
  intros Hinv. pose proof Hinv as (H1 & H2 & H3).
  destruct op as [now url path filename size|now id|id|id|now p|p cr tr
                 |p ci io|p io|now p err|now|now]; simpl.
  - unfold AddDownload, SaveDownload, no_job_zero.
    destruct (last_id (db dm) <? max_rowid); [|done].
    simpl. split_and!; [done| |lia].
    rewrite lookup_insert_ne; [done|lia].
  - by apply zero_StartDownload.
  - unfold PauseDownload. destruct (downloads dm !! id) as [p|]; [|done].
    destruct (heap dm !! p) as [job|]; [|done]. simpl.
    by apply zero_notifyCallbacks, zero_updateDownload, zero_store_job.
  - unfold CancelDownload.
    set (dm1 := match downloads dm !! id with Some _ => _ | None => _ end).
    assert (Hinv1 : no_job_zero dm1).
    { unfold dm1. destruct (downloads dm !! id) as [p|]; [|done].
      destruct (heap dm !! p) as [job|]; [|done]. by apply zero_store_job. }
    destruct (GetDownload (db dm1) id); [done|]. simpl.
    by apply zero_notifyCallbacks, zero_updateDownload.
  - unfold executeDownload_begin.
    destruct (heap (add_active 1 dm) !! p) as [job|]; [|done].
    by apply zero_updateDownload, zero_store_job.
  - destruct (heap dm !! p) as [job|]; [|done].
    destruct (downloadWithChunks_spawn _ _ job) as [[job1 e]|]; [|done].
    by apply zero_store_job.
  - unfold step_job. destruct (heap dm !! p) as [job|]; [|done].
    destruct (downloadChunk_iter ci io job). by apply zero_store_job.
  - unfold step_job. destruct (heap dm !! p) as [job|]; [|done].
    destruct (downloadSingleFile_iter io job). by apply zero_store_job.
  - unfold executeDownload_finish.
    destruct (heap dm !! p) as [job|]; [|done].
    set (d := match err with Some e => _ | None => _ end).
    pose proof (zero_notifyCallbacks d _
                  (zero_updateDownload d _
                     (zero_store_job p (set_download d job) dm Hinv)))
      as (H1' & H2' & H3').
    split_and!; try done. simpl.
    rewrite lookup_delete. by case_decide.
  - unfold processQueue_tick. destruct (_ <? _); [|done].
    destruct (Next (queue dm)) as [[d|] q]; [|done].
    by apply zero_StartDownload.
  - unfold updateStats_tick. generalize (map_to_list (downloads dm)).
    intros l. revert dm Hinv H1 H2 H3.
    induction l as [|[i q] l IH]; intros dm Hinv H1 H2 H3; [done|].
    simpl. pose proof (zero_visit (now i) q dm Hinv) as Hv.
    apply IH; [done|apply Hv..].
Qed.

Lemma zero_run_ops ops dm : no_job_zero dm → no_job_zero (run_ops ops dm).
Proof.
  revert dm. induction ops as [|op ops IH]; intros dm Hinv; [done|].
  simpl. by apply IH, zero_apply_op.
Qed.

Lemma zero_NewDownloadManager (db : DB) :
  rows db !! 0 = None → 0 <= last_id db → no_job_zero (NewDownloadManager db).
Proof. intros H0 Hl. split_and!; try done. Qed.
End JobZeroFacts.

(** C3, what the code does.  [supportsRangeRequests] does not use the
    client of the job it probes for but that of the registry entry of
    id 0.  Whenever no job is registered under id 0, the probe panics on
    the nil entry, whatever the origin would answer, and so does every run
    of [executeDownload]: neither ranged nor single-stream mode is
    selected.  And no job is ever registered under id 0: over a store
    without a row 0, whose ids start at 1, this holds after every
    sequence of operations. *)
Theorem probe_panics_without_job_zero (t0 t1 : Time) (o : Origin) (p : nat)
    (job : DownloadJob) (dm : DownloadManager) (ops : list Op) :
  (heap dm !! p = Some job →
   downloads dm !! 0 = None →
   supportsRangeRequests (probe o) dm = Panic nil_dereference
   ∧ executeDownload t0 t1 o p dm = Panic nil_dereference)
  ∧ (no_job_zero dm →
     heap (run_ops ops dm) !! p = Some job →
     supportsRangeRequests (probe o) (run_ops ops dm) = Panic nil_dereference
     ∧ executeDownload t0 t1 o p (run_ops ops dm) = Panic nil_dereference).
Proof.
  assert (Hpanic : ∀ dm0 job0, heap dm0 !! p = Some job0 →
            downloads dm0 !! 0 = None →
            supportsRangeRequests (probe o) dm0 = Panic nil_dereference
            ∧ executeDownload t0 t1 o p dm0 = Panic nil_dereference).
  { intros dm0 job0 Hp H0.
    assert (Hs : ∀ dm', downloads dm' = downloads dm0 →
              supportsRangeRequests (probe o) dm' = Panic nil_dereference).
    { intros dm' Hd. unfold supportsRangeRequests. by rewrite Hd, H0. }
    split; [by apply Hs|]. unfold executeDownload.
    destruct (executeDownload_begin_job t0 p job0 dm0 Hp) as [Hj Hd].
    rewrite Hj, (Hs _ Hd). done. }
  split.
  - apply Hpanic.
  - intros Hinv Hp. apply (Hpanic _ job Hp).
    by destruct (zero_run_ops ops dm Hinv) as (H0 & _).
Qed.

Lemma probe_panics_without_job_zero_witness :
  no_job_zero (NewDownloadManager db_one)
  ∧ heap dm_started !! 0%nat
    = Some (mkJob recA false (30 * Second) [] 105)
  ∧ downloads dm_started !! 0 = None
  ∧ supportsRangeRequests (probe origin_ranged) dm_started
    = Panic nil_dereference
  ∧ executeDownload 110 120 origin_ranged 0 dm_started
    = Panic nil_dereference
  ∧ executeDownload 110 120 origin_ranged 0
      (run_ops [OpStart 105 1] (NewDownloadManager db_one))
    = Panic nil_dereference.
Proof.
  assert (H0 : no_job_zero (NewDownloadManager db_one)).
  { apply zero_NewDownloadManager; [|vm_compute; discriminate].
    apply zero_UpdateDownload. simpl. rewrite lookup_insert_ne; [done|lia]. }
  assert (H1 : heap dm_started !! 0%nat
               = Some (mkJob recA false (30 * Second) [] 105))
    by (vm_compute; reflexivity).
  assert (H2 : downloads dm_started !! 0 = None) by (vm_compute; reflexivity).
  destruct (probe_panics_without_job_zero 110 120 origin_ranged 0
              (mkJob recA false (30 * Second) [] 105) dm_started [])
    as [Hdirect _].
  destruct (probe_panics_without_job_zero 110 120 origin_ranged 0
              (mkJob recA false (30 * Second) [] 105)
              (NewDownloadManager db_one) [OpStart 105 1])
    as [_ Hreach].
  destruct (Hdirect H1 H2) as [Hs He].
  destruct (Hreach H0 H1) as [_ He'].
  split; [exact H0|]. split; [exact H1|]. split; [exact H2|].
  split; [exact Hs|]. split; [exact He|exact He'].
Defined.

(** With a job registered under id 0 the probe returns, and a whole run
    goes through: ranged mode in four chunks of 1024 bytes when the origin
    announces [Accept-Ranges: bytes], single-stream mode without the
    header; either way the record ends Completed with all 4096 bytes. *)
Example run_with_job_zero :
  (∃ dm1, executeDownload 110 120 origin_ranged 0 dm_zero
          = Done (dm1, Returned None)
          ∧ (chunks <$> heap dm1 !! 0%nat)
            = Some [mkChunk 0 1023 1024; mkChunk 1024 2047 1024;
                    mkChunk 2048 3071 1024; mkChunk 3072 4095 1024]
          ∧ GetDownload (db dm1) 0
            = inr (mkDownload 0 "http://origin/z.bin" "z.bin" "/tmp" 4096
                     4096 StatusCompleted 0 100%float (UTC 100) (Some 110)
                     (Some 120) "" 4)
          ∧ downloads dm1 !! 0 = None
          ∧ activeDownloads dm1 = 0)
  ∧ (∃ dm1, executeDownload 110 120 origin_plain 0 dm_zero
            = Done (dm1, Returned None)
            ∧ (chunks <$> heap dm1 !! 0%nat) = Some []
            ∧ (Status <$> (download <$> heap dm1 !! 0%nat))
              = Some StatusCompleted
            ∧ (Downloaded <$> (download <$> heap dm1 !! 0%nat)) = Some 4096).
Proof.
  split; eexists; (split; [vm_compute; reflexivity|]); vm_compute; done.
Qed.

(** * Further properties of the code *)

(** ** The store: ids, rows and listing *)

Section StoreMore.
Implicit Types (db : DB) (d : Download) (id : Z).

Lemma DB_wf_SaveDownload db d : DB_wf db → DB_wf (SaveDownload db d).1.
Proof.
  intros [H0 Hk]. unfold SaveDownload.
  destruct (last_id db <? max_rowid); [|done]. split; simpl; [lia|].
  intros k r. rewrite lookup_insert_Some. intros [[<- _]|[_ Hr]]; [lia|].
  specialize (Hk _ _ Hr). lia.
Qed.

Lemma DB_wf_UpdateDownload db d : DB_wf db → DB_wf (UpdateDownload db d).
Proof.
  intros [H0 Hk]. split; simpl; [done|].
  intros k r. rewrite lookup_alter. case_decide as Hd.
  - subst k. destruct (rows db !! ID d) as [r0|] eqn:Hr; [|done].
    intros _. eauto.
  - apply Hk.
Qed.

Lemma DB_wf_DeleteDownload db id : DB_wf db → DB_wf (DeleteDownload db id).
Proof.
  intros [H0 Hk]. split; simpl; [done|].
  intros k r. rewrite lookup_delete_Some. intros [_ Hr]. eauto.
Qed.

Lemma DB_wf_emptyDB : DB_wf emptyDB.
Proof.
  split; [done|]. intros k r Hr. unfold emptyDB in Hr. simpl in Hr.
  by rewrite lookup_empty in Hr.
Qed.

Lemma DB_wf_store_record db d : DB_wf db → DB_wf (store_record db d).
Proof.
  intros Hwf. unfold store_record.
  pose proof (DB_wf_SaveDownload db d Hwf) as Hwf1.
  destruct (SaveDownload db d) as [db1 [e|id]]; [done|].
  by apply DB_wf_UpdateDownload.
Qed.


Lemma last_id_UpdateDownload db d : last_id (UpdateDownload db d) = last_id db.
Proof. done. Qed.

(** The ids that a sequence of calls hands out go up, from the last id
    of the store on. *)
Lemma run_store_ids (ops : list StoreOp) db :
  DB_wf db →
  StronglySorted Z.lt (run_store ops db).2
  ∧ Forall (λ id, last_id db < id <= max_rowid) (run_store ops db).2
  ∧ DB_wf (run_store ops db).1
  ∧ last_id db <= last_id (run_store ops db).1.
Proof.
  revert db. induction ops as [|[d|d|id] ops IH]; intros db Hwf; simpl.
  - split_and!; [constructor|constructor|done|lia].
  - unfold SaveDownload.
    destruct (Z.ltb_spec (last_id db) max_rowid) as [Hlt|Hge].
    + set (db1 := mkDB _ _).
      assert (Hwf1 : DB_wf db1).
      { pose proof (DB_wf_SaveDownload db d Hwf) as H.
        by rewrite SaveDownload_ok in H. }
      destruct (IH db1 Hwf1) as (Hs & Hall & Hwf2 & Hle).
      destruct (run_store ops db1) as [db2 ids]. simpl in *. split_and!.
      * constructor; [done|]. eapply Forall_impl; [exact Hall|]. simpl. lia.
      * constructor; [lia|]. eapply Forall_impl; [exact Hall|]. simpl. lia.
      * done.
      * lia.
    + by apply IH.
  - apply (IH (UpdateDownload db d)). by apply DB_wf_UpdateDownload.
  - apply (IH (DeleteDownload db id)). by apply DB_wf_DeleteDownload.
Qed.
End StoreMore.

Lemma SaveDownload_keeps_rows (db : DB) (d : Download) (k : Z) (r : Row) :
  DB_wf db → rows db !! k = Some r → rows (SaveDownload db d).1 !! k = Some r.
Proof.
  intros [_ Hk] Hr. unfold SaveDownload.
  destruct (last_id db <? max_rowid); [|done]. simpl.
  rewrite lookup_insert_ne; [done|].
  specialize (Hk _ _ Hr). lia.
Qed.

(** X1.  In a store whose ids were all handed out by AUTOINCREMENT, and
    as long as the largest rowid [2^63 - 1] has not been handed out,
    [SaveDownload] gives the new record the id one above the last id
    handed out, an id that no row has, writes its row there and leaves
    every existing row as it is.  Once the largest rowid has been handed
    out, [SaveDownload] returns the error of SQLITE_FULL and the store is
    as before. *)
Theorem SaveDownload_fresh_id (db : DB) (d : Download) :
  DB_wf db →
  (last_id db < max_rowid →
   let db1 := (SaveDownload db d).1 in
   let id := last_id db + 1 in
   (SaveDownload db d).2 = inr id
   ∧ rows db !! id = None
   ∧ is_Some (rows db1 !! id)
   ∧ (∀ k r, rows db !! k = Some r → rows db1 !! k = Some r)
   ∧ (∀ k, k ≠ id → rows db1 !! k = rows db !! k)
   ∧ last_id db1 = id
   ∧ DB_wf db1)
  ∧ (max_rowid <= last_id db → SaveDownload db d = (db, inl ErrFull)).
Proof.
  intros Hwf. split.
  - intros Hlt db1 id. pose proof Hwf as [H0 Hk].
    pose proof (DB_wf_SaveDownload db d Hwf) as Hwf1.
    pose proof (SaveDownload_row db d Hlt) as Hrow.
    unfold db1. rewrite SaveDownload_ok in * by done. simpl in *.
    split_and!.
    + done.
    + destruct (rows db !! id) as [r|] eqn:Hr; [|done].
      specialize (Hk _ _ Hr). unfold id in Hk. lia.
    + unfold id. by rewrite Hrow.
    + intros k r Hr. rewrite lookup_insert_ne; [done|].
      specialize (Hk _ _ Hr). lia.
    + intros k Hne. by rewrite lookup_insert_ne.
    + done.
    + done.
  - apply SaveDownload_full.
Qed.

Lemma SaveDownload_fresh_id_witness :
  DB_wf db_three
  ∧ (SaveDownload db_three recD).2 = inr 4
  ∧ rows db_three !! 4 = None
  ∧ SaveDownload (mkDB ∅ max_rowid) recD = (mkDB ∅ max_rowid, inl ErrFull).
Proof.
  assert (Hwf : DB_wf db_three).
  { unfold db_three. cbn [foldl].
    repeat apply DB_wf_store_record. apply DB_wf_emptyDB. }
  split; [exact Hwf|].
  destruct (SaveDownload_fresh_id db_three recD Hwf) as (Hok & _).
  destruct (Hok ltac:(vm_compute; reflexivity)) as (Hid & Hnew & _).
  split; [exact Hid|]. split; [exact Hnew|].
  assert (Hfull : DB_wf (mkDB ∅ max_rowid)).
  { split; [vm_compute; discriminate|]. intros k r Hr. simpl in Hr.
    by rewrite lookup_empty in Hr. }
  apply (proj2 (SaveDownload_fresh_id (mkDB ∅ max_rowid) recD Hfull)).
  simpl. lia.
Defined.

(** X2.  Ids are not handed out twice.  Over every sequence of calls of
    [SaveDownload], [UpdateDownload] and [DeleteDownload] on a store that
    AUTOINCREMENT has filled, the ids that the calls of [SaveDownload]
    return go strictly up, each above the last id of the store at the
    start and none above the largest rowid: no id comes twice, and none
    is the id of a row that the store had at the start, whichever rows
    were deleted in between.  The calls that find the largest rowid
    handed out return no id. *)
Theorem ids_are_never_reused (ops : list StoreOp) (db : DB) :
  DB_wf db →
  let ids := (run_store ops db).2 in
  StronglySorted Z.lt ids
  ∧ NoDup ids
  ∧ Forall (λ id, last_id db < id <= max_rowid ∧ rows db !! id = None) ids
  ∧ DB_wf (run_store ops db).1.
Proof.
  intros Hwf ids.
  destruct (run_store_ids ops db Hwf) as (Hs & Hall & Hwf1 & _).
  fold ids in Hs, Hall. split_and!; [done| |  |done].
  - clear Hall. induction Hs as [|x l Hs IH Hx]; constructor; [|done].
    intros Hin. rewrite Forall_forall in Hx. specialize (Hx _ Hin). lia.
  - eapply Forall_impl; [exact Hall|]. simpl. intros id Hid.
    split; [done|]. destruct Hwf as [_ Hk].
    destruct (rows db !! id) as [r|] eqn:Hr; [|done].
    specialize (Hk _ _ Hr). lia.
Qed.

Lemma ids_are_never_reused_witness :
  DB_wf db_three
  ∧ (run_store [DoSave recD; DoDelete 4; DoDelete 2; DoSave recB;
                DoUpdate recA; DoSave recA] db_three).2
    = [4; 5; 6]
  ∧ NoDup [4; 5; 6].
Proof.
  assert (Hwf : DB_wf db_three).
  { unfold db_three. cbn [foldl].
    repeat apply DB_wf_store_record. apply DB_wf_emptyDB. }
  assert (Hids : (run_store [DoSave recD; DoDelete 4; DoDelete 2; DoSave recB;
                             DoUpdate recA; DoSave recA] db_three).2
                 = [4; 5; 6]) by (vm_compute; reflexivity).
  split; [exact Hwf|]. split; [exact Hids|].
  rewrite <- Hids.
  exact (proj1 (proj2 (ids_are_never_reused _ db_three Hwf))).
Defined.

(** X3.  After [DeleteDownload] the id does not load any more
    ([sql.ErrNoRows]), every other id loads as before, and deleting an
    id that has no row changes nothing. *)
Theorem DeleteDownload_lookup (db : DB) (id : Z) :
  GetDownload (DeleteDownload db id) id = inl ErrNoRows
  ∧ (∀ k, k ≠ id →
       GetDownload (DeleteDownload db id) k = GetDownload db k)
  ∧ (rows db !! id = None → DeleteDownload db id = db).
Proof.
  split_and!.
  - unfold GetDownload, DeleteDownload. simpl. by rewrite lookup_delete_eq.
  - intros k Hk. unfold GetDownload, DeleteDownload. simpl.
    by rewrite lookup_delete_ne.
  - intros Hnone. unfold DeleteDownload. destruct db as [rs n]. simpl in *.
    f_equal. by apply delete_id.
Qed.

Lemma DeleteDownload_lookup_witness :
  rows db_three !! 7 = None ∧ DeleteDownload db_three 7 = db_three.
Proof.
  assert (H : rows db_three !! 7 = None) by (vm_compute; reflexivity).
  split; [exact H|].
  exact (proj2 (proj2 (DeleteDownload_lookup db_three 7)) H).
Defined.

Lemma real_column_None (f : float) :
  real_column f = None ↔ PrimFloat.is_nan f = true.
Proof.
  unfold real_column. destruct (PrimFloat.is_nan f); [done|].
  by destruct (PrimFloat.eqb f 0).
Qed.



#[local] Instance created_desc_total : Total created_desc.
Proof. intros a b. unfold created_desc, text_le. lia. Qed.

#[local] Instance created_desc_trans : Transitive created_desc.
Proof. intros a b c. unfold created_desc, text_le. lia. Qed.

Section ListingFacts.
Implicit Types (db : DB) (l : list (Z * Row)) (ds : list Download).

(** A row does not scan when its error is NULL or its progress was
    written as NaN. *)
Lemma scan_row_inl id r :
  (∃ e, scan_row id r = inl e)
  ↔ col_error r = None ∨ real_column (col_progress r) = None.
Proof.
  unfold scan_row. destruct (real_column (col_progress r)).
  - destruct (col_error r).
    + split; [by intros [? ?]|]. by intros [?|?].
    + split; [by left|by eauto].
  - split; [by right|by eauto].
Qed.


Lemma scan_rows_inl l :
  (∃ e, scan_rows l = inl e)
  ↔ Exists (λ x, col_error x.2 = None
                 ∨ real_column (col_progress x.2) = None) l.
Proof.
  induction l as [|[id r] l IH]; simpl.
  - split; [intros [e He]; done|]. intros H. inversion H.
  - pose proof (scan_row_inl id r) as Hrow.
    destruct (scan_row id r) as [e|d] eqn:Hs.
    + split; [intros _|by eauto]. apply Exists_cons_hd. simpl.
      apply Hrow. eauto.
    + assert (Hok : ¬ (col_error r = None
                       ∨ real_column (col_progress r) = None)).
      { intros H. apply Hrow in H as [? ?]. done. }
      destruct (scan_rows l) as [e'|ds].
      * split; [intros _|by eauto]. apply Exists_cons_tl, IH. eauto.
      * split; [intros [? ?]; done|].
        intros H. apply Exists_cons in H as [H|H]; [done|].
        apply IH in H as [? ?]. done.
Qed.
End ListingFacts.

Lemma GetAllDownloads_null_error (db : DB) (id : Z) (r : Row) :
  rows db !! id = Some r → col_error r = None →
  ∃ e, GetAllDownloads db = inl e.
Proof.
  intros Hr He. unfold GetAllDownloads.
  rewrite scan_rows_inl, Exists_exists. exists (id, r). split; [|by left].
  rewrite merge_sort_Permutation. by apply elem_of_map_to_list.
Qed.



(** The order of the listing is that of the texts, not of the instants:
    the row that was created first, at 02:00 of a zone two hours east of
    UTC, is listed before the row that was created an hour later, at
    01:00 UTC. *)
Example listing_orders_by_text :
  instant (col_created_at row_east) < instant (col_created_at row_utc)
  ∧ ∃ ds, GetAllDownloads db_zones = inr ds ∧ ID <$> ds = [1; 2].
Proof.
  split; [vm_compute; reflexivity|].
  eexists. split; vm_compute; reflexivity.
Qed.

(** ** The queue: removal *)

Lemma Remove_behind_prefix (l1 l2 : list Download) (d : Download) (id : Z) :
  Forall (λ x, ID x ≠ id) l1 → ID d = id →
  Remove (mkQueue (l1 ++ d :: l2)) id = mkQueue (l1 ++ l2).
Proof.
  intros Hl1 Hd. unfold Remove. simpl.
  assert (list_find (λ x, ID x = id) (l1 ++ d :: l2) = Some (length l1, d))
    as ->.
  { apply list_find_Some. split_and!.
    - by rewrite list_lookup_middle.
    - done.
    - intros j y Hj Hlt. rewrite lookup_app_l in Hj by done.
      eapply Forall_lookup_1 in Hl1; eauto. }
  rewrite take_app_length.
  replace (S (length l1)) with (length l1 + 1)%nat by lia.
  by rewrite drop_app_add.
Qed.

(** X6.  [Queue.Remove] cuts out the first entry with the given id and
    nothing else: the entries before and behind it keep their order, also
    later entries with the same id.  Without an entry of that id the
    queue is unchanged.  So [Remove] undoes the [Add] of a record whose id
    is not queued yet, and [GetAll] after [Add] lists the new record
    last. *)
Theorem Queue_Remove_first (q : Queue) (id : Z) (d : Download) :
  (Forall (λ x, ID x ≠ id) (items q) → Remove q id = q)
  ∧ (∀ l1 l2 x, items q = l1 ++ x :: l2 → Forall (λ y, ID y ≠ id) l1 →
       ID x = id → items (Remove q id) = l1 ++ l2)
  ∧ (Forall (λ x, ID x ≠ ID d) (items q) → Remove (Add q d) (ID d) = q)
  ∧ GetAll (Add q d) = GetAll q ++ [d].
Proof.
  split_and!.
  - intros Hq. unfold Remove.
    destruct (list_find _ (items q)) as [[i x]|] eqn:Hf; [|done].
    apply list_find_Some in Hf as (Hi & Hx & _).
    eapply Forall_lookup_1 in Hq; eauto. done.
  - intros l1 l2 x Hit Hl1 Hx. destruct q as [it]. simpl in Hit. subst it.
    by rewrite Remove_behind_prefix.
  - intros Hq. unfold Add.
    rewrite (Remove_behind_prefix (items q) [] d (ID d) Hq eq_refl).
    rewrite app_nil_r. by destruct q.
  - done.
Qed.

Lemma Queue_Remove_first_witness :
  Remove (Add (Add (Add NewQueue recA) recB) recA) 1
  = Add (Add NewQueue recB) recA
  ∧ Remove (Add (Add NewQueue recA) recB) 3 = Add (Add NewQueue recA) recB
  ∧ Remove (Add (Add (Add NewQueue recA) recB) recC) (ID recC)
    = Add (Add NewQueue recA) recB.
Proof.
  split_and!.
  - destruct (Queue_Remove_first (Add (Add (Add NewQueue recA) recB) recA)
                1 recA) as (_ & Hcut & _).
    pose proof (Hcut [] [recB; recA] recA eq_refl ltac:(constructor) eq_refl)
      as Hit.
    destruct (Remove _ 1) as [it]. simpl in Hit. by rewrite Hit.
  - apply (proj1 (Queue_Remove_first (Add (Add NewQueue recA) recB) 3 recA)).
    repeat constructor; simpl; lia.
  - apply (proj1 (proj2 (proj2
             (Queue_Remove_first (Add (Add NewQueue recA) recB) 0 recC)))).
    repeat constructor; simpl; lia.
Defined.

(** ** The manager: add, start, pause *)

Section ManagerMore.
Implicit Types (dm : DownloadManager) (job : DownloadJob) (d : Download).

Lemma StartDownload_error now id e dm :
  GetDownload (db dm) id = inl e →
  StartDownload now id dm = (dm, Some (ErrStore e)).
Proof. intros Hget. unfold StartDownload. by rewrite Hget. Qed.

Lemma StartDownload_ok now id d dm :
  GetDownload (db dm) id = inr d → Status d ≠ StatusDownloading →
  StartDownload now id dm
  = (mkManager (db dm) (config dm)
       (heap dm ++ [mkJob d false (Timeout (config dm)) [] now])
       (<[id := length (heap dm)]> (downloads dm)) (queue dm)
       (activeDownloads dm) (notified dm), None).
Proof. intros Hget Hst. unfold StartDownload. rewrite Hget. by case_decide. Qed.

Lemma StartDownload_running now id d dm :
  GetDownload (db dm) id = inr d → Status d = StatusDownloading →
  StartDownload now id dm
  = (dm, Some (Errorf "download already in progress")).
Proof. intros Hget Hst. unfold StartDownload. rewrite Hget. by case_decide. Qed.
End ManagerMore.

(** X7.  While the store can hand out an id, [AddDownload] inserts a row
    under the next id with the url, filename, path and size given, no
    bytes, status Pending, speed and progress 0, the creation time given,
    4 chunks, and NULL in the two timestamps and in error; it returns the
    record of that id, puts it at the end of the queue and announces it;
    the other rows, the jobs and the registry are untouched.  The NULL in
    the error column means that the record cannot be loaded: a
    [StartDownload] of the new id returns the Scan error and creates no
    job, and [GetDownloads] fails as long as the row is in that state.
    When the store cannot hand out an id, [AddDownload] returns that error
    and changes nothing. *)
Theorem AddDownload_then_start (now : Stamp) (t : Time)
    (url path filename : string) (size : Z) (dm : DownloadManager) :
  (last_id (db dm) < max_rowid →
   let id := last_id (db dm) + 1 in
   let d := mkDownload id url filename path size 0 StatusPending 0 0%float
              now None None "" 4 in
   ∃ dm1,
     AddDownload now url path filename size dm = (dm1, inr d)
     ∧ rows (db dm1) !! id
       = Some (mkRow url filename path size 0 StatusPending 0 0%float now
                 None None None 4)
     ∧ (∀ k, k ≠ id → rows (db dm1) !! k = rows (db dm) !! k)
     ∧ (DB_wf (db dm) → rows (db dm) !! id = None)
     ∧ last_id (db dm1) = id
     ∧ items (queue dm1) = items (queue dm) ++ [d]
     ∧ notified dm1 = notified dm ++ [d]
     ∧ heap dm1 = heap dm ∧ downloads dm1 = downloads dm
     ∧ config dm1 = config dm
     ∧ activeDownloads dm1 = activeDownloads dm
     ∧ StartDownload t id dm1 = (dm1, Some (ErrStore (ErrScanNull "error")))
     ∧ ∃ e, GetDownloads dm1 = inl e)
  ∧ (max_rowid <= last_id (db dm) →
     AddDownload now url path filename size dm
     = (dm, inl (ErrStore ErrFull))).
Proof.
  split.
  - intros Hlt id d. eexists. split.
    { unfold AddDownload. rewrite SaveDownload_ok by done. reflexivity. }
    assert (Hrow : ∀ m : gmap Z Row,
              <[id := mkRow url filename path size 0 StatusPending 0 0%float
                        now None None None 4]> m !! id
              = Some (mkRow url filename path size 0 StatusPending 0 0%float
                        now None None None 4))
      by (intros m; apply lookup_insert_eq).
    cbn [db rows last_id queue notified heap downloads config activeDownloads
         notifyCallbacks Add items]. simpl.
    split_and!; try done.
    + intros k Hk. by rewrite lookup_insert_ne.
    + intros [_ Hk]. destruct (rows (db dm) !! id) as [r|] eqn:Hr; [|done].
      specialize (Hk _ _ Hr). unfold id in Hk. lia.
    + apply StartDownload_error. unfold GetDownload. simpl.
      by rewrite Hrow.
    + eapply GetAllDownloads_null_error; [apply Hrow|done].
  - intros Hge. unfold AddDownload. by rewrite SaveDownload_full.
Qed.

Lemma AddDownload_then_start_witness :
  last_id (db (NewDownloadManager db_three)) < max_rowid
  ∧ (∃ dm1,
       AddDownload (UTC 400) "http://origin/d.bin" "/tmp" "d.bin" 4096
         (NewDownloadManager db_three)
       = (dm1, inr (mkDownload (3 + 1) "http://origin/d.bin" "d.bin" "/tmp"
                      4096 0 StatusPending 0 0%float (UTC 400) None None
                      "" 4))
       ∧ StartDownload 410 (3 + 1) dm1
         = (dm1, Some (ErrStore (ErrScanNull "error"))))
  ∧ AddDownload (UTC 400) "http://origin/d.bin" "/tmp" "d.bin" 4096
      (NewDownloadManager (mkDB ∅ max_rowid))
    = (NewDownloadManager (mkDB ∅ max_rowid), inl (ErrStore ErrFull)).
Proof.
  assert (Hlt : last_id (db (NewDownloadManager db_three)) < max_rowid)
    by (vm_compute; reflexivity).
  split; [exact Hlt|]. split.
  - destruct (proj1 (AddDownload_then_start (UTC 400) 410
                       "http://origin/d.bin" "/tmp" "d.bin" 4096
                       (NewDownloadManager db_three)) Hlt)
      as (dm1 & Hadd & _ & _ & _ & _ & _ & _ & _ & _ & _ & _ & Hstart & _).
    exists dm1. split; [exact Hadd|exact Hstart].
  - apply (proj2 (AddDownload_then_start (UTC 400) 410 "http://origin/d.bin"
                    "/tmp" "d.bin" 4096
                    (NewDownloadManager (mkDB ∅ max_rowid)))).
    simpl. lia.
Defined.

(** X8.  A tick of [processQueue] admits one record at most: the heap
    grows by one job at most, the queue loses one entry at most, and the
    store is not written.  When the budget allows and the queue has a
    Pending record, that record leaves the queue whether or not
    [StartDownload] succeeds: the error is dropped, and a record that
    does not load is then neither queued nor running. *)
Theorem processQueue_tick_admits_one (now : Time) (dm : DownloadManager) :
  let dm1 := processQueue_tick now dm in
  (length (heap dm1) <= length (heap dm) + 1)%nat
  ∧ (length (items (queue dm)) <= length (items (queue dm1)) + 1)%nat
  ∧ db dm1 = db dm
  ∧ (∀ d q', activeDownloads dm < wrap32 (MaxConcurrentDownloads (config dm)) →
       Next (queue dm) = (Some d, q') →
       queue dm1 = q'
       ∧ (∀ e, GetDownload (db dm) (ID d) = inl e → dm1 = set_queue q' dm)).
Proof.
  intros dm1. unfold dm1, processQueue_tick.
  assert (Hstart : ∀ id dm0,
            (length (heap (StartDownload now id dm0).1)
             <= length (heap dm0) + 1)%nat
            ∧ queue (StartDownload now id dm0).1 = queue dm0
            ∧ db (StartDownload now id dm0).1 = db dm0).
  { intros id dm0. unfold StartDownload.
    destruct (GetDownload (db dm0) id); [simpl; split; [lia|done]|].
    case_decide; simpl; [split; [lia|done]|].
    rewrite length_app. simpl. split; [lia|done]. }
  destruct (Z.ltb_spec (activeDownloads dm)
              (wrap32 (MaxConcurrentDownloads (config dm)))) as [Hlt|Hge].
  - destruct (Next (queue dm)) as [[d|] q] eqn:HN.
    + destruct (Hstart (ID d) (set_queue q dm)) as (Hh & Hq & Hd).
      apply Next_split in HN as (l1 & l2 & Hit & _ & _ & Hit').
      split_and!.
      * exact Hh.
      * rewrite Hq. simpl. rewrite Hit, Hit', !length_app. simpl. lia.
      * exact Hd.
      * intros d' q' _ [= <- <-]. split; [exact Hq|].
        intros e He.
        by rewrite (StartDownload_error now (ID d) e (set_queue q dm) He).
    + apply Next_none in HN as [-> _]. simpl. split_and!; try lia; try done.
  - split_and!; try lia; try done.
Qed.

Lemma processQueue_tick_admits_one_witness :
  let dm0 := (AddDownload (UTC 400) "http://origin/d.bin" "/tmp" "d.bin" 4096
                (NewDownloadManager db_three)).1 in
  items (queue dm0) = [set_ID 4 recD]
  ∧ processQueue_tick 401 dm0 = set_queue NewQueue dm0
  ∧ heap (processQueue_tick 401 dm0) = [].
Proof.
  intros dm0.
  assert (Hq : items (queue dm0) = [set_ID 4 recD]) by (vm_compute; reflexivity).
  destruct (processQueue_tick_admits_one 401 dm0) as (_ & _ & _ & Hpop).
  destruct (Hpop (set_ID 4 recD) NewQueue ltac:(vm_compute; reflexivity)
              ltac:(vm_compute; reflexivity)) as [_ Hdrop].
  assert (Htick : processQueue_tick 401 dm0 = set_queue NewQueue dm0).
  { apply (Hdrop (ErrScanNull "error")). vm_compute. reflexivity. }
  split; [exact Hq|]. split; [exact Htick|]. rewrite Htick. reflexivity.
Defined.

(** X9.  [StartDownload] looks at the persisted status only, and that
    becomes Downloading only when a runner takes its first step.  Until
    then a second [StartDownload] of the same id succeeds as well: two
    jobs exist for the one record, and the registry knows the second
    only.  Once a runner of the record has started, further starts are
    rejected. *)
Theorem StartDownload_twice (t1 t2 t3 t4 : Time) (id : Z) (d : Download)
    (dm : DownloadManager) :
  GetDownload (db dm) id = inr d →
  Status d ≠ StatusDownloading →
  let dm1 := (StartDownload t1 id dm).1 in
  let dm2 := (StartDownload t2 id dm1).1 in
  let p1 := length (heap dm) in
  (StartDownload t2 id dm1).2 = None
  ∧ heap dm2 = heap dm ++ [mkJob d false (Timeout (config dm)) [] t1;
                           mkJob d false (Timeout (config dm)) [] t2]
  ∧ downloads dm2 !! id = Some (S p1)
  ∧ StartDownload t4 id (executeDownload_begin t3 p1 dm2)
    = (executeDownload_begin t3 p1 dm2,
       Some (Errorf "download already in progress")).
Proof.
  intros Hget Hst dm1 dm2 p1. unfold dm2, dm1.
  rewrite (StartDownload_ok t1 id d dm Hget Hst). cbn [fst snd].
  set (dm1' := mkManager _ _ _ _ _ _ _).
  rewrite (StartDownload_ok t2 id d dm1' Hget Hst). unfold dm1'.
  cbn [fst snd heap downloads db config queue activeDownloads notified].
  pose proof (GetDownload_ID _ _ _ Hget) as Hid.
  split_and!.
  - done.
  - rewrite <- app_assoc. done.
  - rewrite length_app. simpl. rewrite lookup_insert_eq. f_equal. lia.
  - set (dm2' := mkManager _ _ _ _ _ _ _).
    assert (Hp1 : heap dm2' !! p1
              = Some (mkJob d false (Timeout (config dm)) [] t1)).
    { unfold dm2'. simpl. rewrite <- app_assoc. simpl.
      by rewrite list_lookup_middle. }
    destruct (GetDownload_row _ _ _ Hget) as (r & Hr & _).
    set (started := set_StartedAt (Some t3) (set_Status StatusDownloading d)).
    assert (Hdb : db (executeDownload_begin t3 p1 dm2')
              = UpdateDownload (db dm) started).
    { unfold executeDownload_begin. simpl in *. rewrite Hp1. done. }
    eapply StartDownload_running.
    + rewrite Hdb.
      assert (Hr' : rows (db dm) !! ID started = Some r)
        by (simpl; by rewrite Hid).
      rewrite <- Hid.
      exact (GetDownload_after_Update (db dm) started r Hr'
               (GetDownload_Progress _ _ _ Hget)).
    + done.
Qed.

Lemma StartDownload_twice_witness :
  GetDownload (db (NewDownloadManager db_one)) 1 = inr recA
  ∧ length (heap (StartDownload 106 1 dm_started).1) = 2%nat
  ∧ downloads (StartDownload 106 1 dm_started).1 !! 1 = Some 1%nat.
Proof.
  assert (Hget : GetDownload (db (NewDownloadManager db_one)) 1 = inr recA)
    by (vm_compute; reflexivity).
  destruct (StartDownload_twice 105 106 107 108 1 recA
              (NewDownloadManager db_one) Hget ltac:(vm_compute; discriminate))
    as (_ & Hheap & Hreg & _).
  split; [exact Hget|]. split.
  - unfold dm_started. rewrite Hheap. reflexivity.
  - exact Hreg.
Defined.

(** X10.  [PauseDownload] of an id without a registered job returns
    "download not found" and changes nothing.  This is also what a pause
    gets once the runner has finished, since finishing unregisters the
    record's id. *)
Theorem PauseDownload_not_found (id : Z) (dm : DownloadManager) :
  (downloads dm !! id = None →
   PauseDownload id dm = (dm, Some (Errorf "download not found")))
  ∧ (∀ now p job err, heap dm !! p = Some job → ID (download job) = id →
       PauseDownload id (executeDownload_finish now p err dm)
       = (executeDownload_finish now p err dm,
          Some (Errorf "download not found"))).
Proof.
  assert (Hnone : ∀ dm0, downloads dm0 !! id = None →
            PauseDownload id dm0 = (dm0, Some (Errorf "download not found"))).
  { intros dm0 H0. unfold PauseDownload. by rewrite H0. }
  split; [apply Hnone|].
  intros now p job err Hp Hid. apply Hnone.
  unfold executeDownload_finish. rewrite Hp. simpl.
  destruct err; simpl; rewrite Hid; apply lookup_delete_eq.
Qed.

Lemma PauseDownload_not_found_witness :
  downloads dm_running !! 9 = None
  ∧ PauseDownload 9 dm_running
    = (dm_running, Some (Errorf "download not found"))
  ∧ (PauseDownload 0 (executeDownload_finish 130 0 None dm_running)).2
    = Some (Errorf "download not found").
Proof.
  assert (H9 : downloads dm_running !! 9 = None) by (vm_compute; reflexivity).
  destruct (PauseDownload_not_found 9 dm_running) as [Hnone _].
  destruct (PauseDownload_not_found 0 dm_running) as [_ Hdone].
  split; [exact H9|]. split; [exact (Hnone H9)|].
  rewrite (Hdone 130 0%nat job_running None ltac:(vm_compute; reflexivity)
             eq_refl). reflexivity.
Defined.

(** ** The manager: cancel and the terminal transition *)

Lemma wrap32_id (z : Z) : - 2 ^ 31 <= z < 2 ^ 31 → wrap32 z = z.
Proof. intros Hz. unfold wrap32. rewrite Z.mod_small by lia. lia. Qed.

Lemma wrap32_succ_pred (a : Z) :
  - 2 ^ 31 <= a < 2 ^ 31 → wrap32 (wrap32 (a + 1) - 1) = a.
Proof.
  intros Ha. unfold wrap32.
  replace ((a + 1 + 2 ^ 31) mod 2 ^ 32 - 2 ^ 31 - 1 + 2 ^ 31)
    with ((a + 1 + 2 ^ 31) mod 2 ^ 32 + (-1)) by lia.
  rewrite Zplus_mod_idemp_l.
  replace (a + 1 + 2 ^ 31 + -1) with (a + 2 ^ 31) by lia.
  rewrite Z.mod_small by lia. lia.
Qed.

Lemma updateStats_job_ID_Status (now : Time) (job : DownloadJob) :
  ID (download (updateStats_job now job)) = ID (download job)
  ∧ Status (download (updateStats_job now job)) = Status (download job).
Proof.
  destruct (updateStats_job_fields now job) as (_ & _ & _ & Hrest & _).
  split.
  - apply (f_equal ID) in Hrest. exact Hrest.
  - apply (f_equal Status) in Hrest. exact Hrest.
Qed.

(** X11.  [CancelDownload] of a record that loads writes Cancelled to its
    row, announces that, and returns no error; the registry is left as it
    is, and the job, if there is one, is cancelled but its own record
    keeps its status.  So when the statistics loop visits that job before
    the runner has unwound, it writes the job's record, still
    Downloading, over the Cancelled row: the row has status Downloading
    again, and that is what a load returns, provided the progress that the
    visit writes is a number (a NaN would be kept as NULL, and the row
    would not load). *)
Theorem CancelDownload_store (id : Z) (d : Download) (dm : DownloadManager)
    (now : Time) (p : nat) (job : DownloadJob) :
  GetDownload (db dm) id = inr d →
  let dm1 := (CancelDownload id dm).1 in
  (CancelDownload id dm).2 = None
  ∧ GetDownload (db dm1) id = inr (set_Status StatusCancelled d)
  ∧ downloads dm1 = downloads dm
  ∧ last (notified dm1) = Some (set_Status StatusCancelled d)
  ∧ (downloads dm !! id = Some p → heap dm !! p = Some job →
     heap dm1 !! p = Some (cancel job)
     ∧ (ID (download job) = id →
        Status (download job) = StatusDownloading →
        (∃ r2, rows (db (updateStats_visit now p dm1)) !! id = Some r2
               ∧ col_status r2 = StatusDownloading)
        ∧ (PrimFloat.is_nan (Progress (download (updateStats_job now job)))
           = false →
           ∃ d2, GetDownload (db (updateStats_visit now p dm1)) id = inr d2
                 ∧ Status d2 = StatusDownloading))).
Proof.
  intros Hget dm1.
  pose proof (GetDownload_ID _ _ _ Hget) as Hid.
  destruct (GetDownload_row _ _ _ Hget) as (r & Hr & Hscan).
  set (dm0 := match downloads dm !! id with
              | Some p0 => match heap dm !! p0 with
                           | Some j => store_job p0 (cancel j) dm
                           | None => dm
                           end
              | None => dm
              end).
  assert (Hdb0 : db dm0 = db dm).
  { unfold dm0. destruct (downloads dm !! id) as [p0|]; [|done].
    by destruct (heap dm !! p0). }
  assert (Hreg0 : downloads dm0 = downloads dm).
  { unfold dm0. destruct (downloads dm !! id) as [p0|]; [|done].
    by destruct (heap dm !! p0). }
  assert (Hcancel : CancelDownload id dm
            = (notifyCallbacks (set_Status StatusCancelled d)
                 (updateDownload (set_Status StatusCancelled d) dm0), None)).
  { unfold CancelDownload. fold dm0. by rewrite Hdb0, Hget. }
  unfold dm1. rewrite Hcancel. cbn [fst snd].
  assert (Hget1 : GetDownload (UpdateDownload (db dm) (set_Status StatusCancelled d)) id
            = inr (set_Status StatusCancelled d)).
  { pose proof (GetDownload_after_Update (db dm)
                  (set_Status StatusCancelled d) r) as Hg1.
    change (ID (set_Status StatusCancelled d)) with (ID d) in Hg1.
    rewrite Hid in Hg1.
    rewrite (Hg1 Hr (GetDownload_Progress _ _ _ Hget)).
    rewrite (scan_row_eq _ _ _ Hscan). done. }
  split_and!.
  - done.
  - simpl. by rewrite Hdb0.
  - done.
  - simpl. apply last_snoc.
  - intros Hp Hj.
    assert (Hh0 : heap dm0 !! p = Some (cancel job)).
    { unfold dm0. rewrite Hp, Hj. by apply heap_store_job with (job := job). }
    split; [exact Hh0|]. intros Hjid Hst.
    set (dmc := notifyCallbacks _ _).
    assert (Hhc : heap dmc !! p = Some (cancel job)) by exact Hh0.
    rewrite (updateStats_visit_running now p (cancel job) dmc Hhc Hst).
    set (d2 := download (updateStats_job now (cancel job))).
    assert (Hd2 : ID d2 = id ∧ Status d2 = StatusDownloading).
    { destruct (updateStats_job_ID_Status now (cancel job)) as [Hi Hs].
      unfold d2. rewrite Hi, Hs. done. }
    destruct Hd2 as [Hd2id Hd2st].
    assert (Hrow1 : ∃ r1, rows (db dmc) !! ID d2 = Some r1).
    { unfold dmc. simpl.
      rewrite Hdb0, Hd2id, Hid, lookup_alter_eq, Hr. simpl. eauto. }
    destruct Hrow1 as [r1 Hr1].
    split.
    + destruct (rows_after_Update (db dmc) d2 r1 Hr1) as (r2 & Hr2 & Hs2 & _).
      exists r2. split; [rewrite <- Hd2id; exact Hr2|congruence].
    + intros Hnum.
      assert (Hsome : ∃ v, real_column (Progress d2) = Some v).
      { destruct (real_column (Progress d2)) as [v|] eqn:Hv; [eauto|].
        apply real_column_None in Hv.
        assert (Hsame : Progress d2
                        = Progress (download (updateStats_job now job)))
          by reflexivity.
        rewrite Hsame, Hnum in Hv. discriminate. }
      destruct Hsome as [v Hv].
      pose proof (GetDownload_after_Update_any (db dmc) d2 r1 Hr1) as Hg.
      rewrite Hv in Hg.
      eexists. split; [rewrite <- Hd2id; exact Hg|exact Hd2st].
Qed.

Lemma CancelDownload_store_witness :
  GetDownload (db dm_running) 0 = inr (set_Downloaded 0 rec_2048)
  ∧ (CancelDownload 0 dm_running).2 = None
  ∧ ∃ d2, GetDownload
            (db (updateStats_visit 131 0 (CancelDownload 0 dm_running).1)) 0
          = inr d2
          ∧ Status d2 = StatusDownloading.
Proof.
  assert (Hget : GetDownload (db dm_running) 0 = inr (set_Downloaded 0 rec_2048))
    by (vm_compute; reflexivity).
  destruct (CancelDownload_store 0 _ dm_running 131 0 job_running Hget)
    as (Hnone & _ & _ & _ & Hjob).
  destruct (Hjob ltac:(vm_compute; reflexivity) ltac:(vm_compute; reflexivity))
    as [_ Htick].
  split; [exact Hget|]. split; [exact Hnone|].
  exact (proj2 (Htick eq_refl eq_refl) ltac:(vm_compute; reflexivity)).
Defined.

Lemma executeDownload_finish_None (now : Time) (p : nat) (job : DownloadJob)
    (dm : DownloadManager) :
  heap dm !! p = Some job →
  let d := download job in
  let completed :=
    mkDownload (ID d) (URL d) (Filename d) (Path d) (Size d) (Downloaded d)
      StatusCompleted (Speed d) 100%float (CreatedAt d) (StartedAt d)
      (Some now) (Error d) (Chunks d) in
  let dm1 := executeDownload_finish now p None dm in
  heap dm1 !! p = Some (set_download completed job)
  ∧ db dm1 = UpdateDownload (db dm) completed
  ∧ notified dm1 = notified dm ++ [completed]
  ∧ downloads dm1 = delete (ID d) (downloads dm).
Proof.
  intros Hp d completed dm1. unfold dm1, executeDownload_finish.
  rewrite Hp. simpl. split_and!; try done.
  apply list_lookup_insert_eq. eapply lookup_lt_Some; eauto.
Qed.

(** X12.  The success branch of [executeDownload]: the record becomes
    Completed with progress 100 and [completed_at] set, and nothing else
    of it changes, neither the byte counter (which is not compared with
    the size) nor the error text of an earlier failure; the record is
    written to the store, announced, and its id unregistered.  A first
    and a last step of a runner together leave [activeDownloads] as it
    was. *)
Theorem executeDownload_finish_success (t0 t1 : Time) (p : nat)
    (job : DownloadJob) (dm : DownloadManager) :
  heap dm !! p = Some job →
  let d := download job in
  let completed :=
    mkDownload (ID d) (URL d) (Filename d) (Path d) (Size d) (Downloaded d)
      StatusCompleted (Speed d) 100%float (CreatedAt d) (StartedAt d)
      (Some t1) (Error d) (Chunks d) in
  let dm1 := executeDownload_finish t1 p None dm in
  heap dm1 !! p = Some (set_download completed job)
  ∧ db dm1 = UpdateDownload (db dm) completed
  ∧ notified dm1 = notified dm ++ [completed]
  ∧ downloads dm1 = delete (ID d) (downloads dm)
  ∧ (- 2 ^ 31 <= activeDownloads dm < 2 ^ 31 →
     activeDownloads
       (executeDownload_finish t1 p None (executeDownload_begin t0 p dm))
     = activeDownloads dm).
Proof.
  intros Hp d completed dm1. unfold dm1, executeDownload_finish.
  rewrite Hp. simpl. split_and!; try done.
  - apply list_lookup_insert_eq. eapply lookup_lt_Some; eauto.
  - intros Ha.
    destruct (executeDownload_begin_job t0 p job dm Hp) as [Hj _].
    rewrite Hj. simpl. unfold executeDownload_begin. simpl. rewrite Hp. simpl.
    by apply wrap32_succ_pred.
Qed.

Lemma executeDownload_finish_success_witness :
  heap dm_second_run !! 0%nat
  = Some (mkJob rec_failed_before false (30 * Second) [] 139)
  ∧ GetDownload (db (executeDownload_finish 150 0 None dm_second_run)) 0
    = inr (mkDownload 0 "http://origin/z.bin" "z.bin" "/tmp" 4096 4096
             StatusCompleted 0 100%float (UTC 100) (Some 140) (Some 150)
             "context canceled" 4)
  ∧ activeDownloads
      (executeDownload_finish 150 0 None
         (executeDownload_begin 140 0 dm_second_run)) = 1.
Proof.
  assert (H : heap dm_second_run !! 0%nat
              = Some (mkJob rec_failed_before false (30 * Second) [] 139))
    by reflexivity.
  destruct (executeDownload_finish_success 140 150 0 _ dm_second_run H)
    as (_ & Hdb & _ & _ & Hact).
  split; [exact H|]. split.
  - rewrite Hdb. vm_compute. reflexivity.
  - apply Hact. change (activeDownloads dm_second_run) with 1. lia.
Defined.

(** ** The registry across operation sequences *)

Section RegistryFacts.
Implicit Types (dm : DownloadManager) (job : DownloadJob).

Lemma registry_ok_same dm dm' :
  heap dm' = heap dm → downloads dm' = downloads dm →
  registry_ok dm → registry_ok dm'.
Proof. unfold registry_ok. by intros -> ->. Qed.

Lemma registry_ok_store_job p job job' dm :
  registry_ok dm → heap dm !! p = Some job →
  ID (download job') = ID (download job) →
  registry_ok (store_job p job' dm).
Proof.
  intros Hok Hp Hid id q Hq. simpl in Hq.
  destruct (Hok id q Hq) as (j & Hj & Hjid).
  destruct (decide (q = p)) as [->|Hne].
  - exists job'. split.
    + by apply heap_store_job with (job := job).
    + rewrite Hid. congruence.
  - exists j. split; [|done]. by rewrite heap_store_job_ne.
Qed.

Lemma registry_ok_StartDownload now id dm :
  registry_ok dm → registry_ok (StartDownload now id dm).1.
Proof.
  intros Hok. unfold StartDownload.
  destruct (GetDownload (db dm) id) as [e|d] eqn:Hget; [done|].
  case_decide; [done|]. intros k q. simpl. rewrite lookup_insert_Some.
  intros [[<- <-]|[_ Hq]].
  - eexists. split; [by apply list_lookup_middle|]. simpl.
    by eapply GetDownload_ID.
  - destruct (Hok k q Hq) as (j & Hj & Hjid). exists j.
    split; [|done]. by apply lookup_app_l_Some.
Qed.

Lemma turn_keeps_ID io ci job :
  ID (download (downloadChunk_iter ci io job).1) = ID (download job)
  ∧ ID (download (downloadSingleFile_iter io job).1) = ID (download job).
Proof.
  unfold downloadChunk_iter, downloadSingleFile_iter.
  destruct (ctx_done job); [done|].
  destruct (0 <? io_n io); [|done]. by destruct (io_write io).
Qed.

Lemma registry_ok_visit now p dm :
  registry_ok dm → registry_ok (updateStats_visit now p dm).
Proof.
  intros Hok. unfold updateStats_visit.
  destruct (heap dm !! p) as [job|] eqn:Hp; [|done]. case_decide; [|done].
  eapply registry_ok_same;
    [| |apply (registry_ok_store_job p job (updateStats_job now job) dm Hok Hp)];
    [done|done|].
  apply updateStats_job_ID_Status.
Qed.

Lemma registry_ok_apply_op op dm : registry_ok dm → registry_ok (apply_op op dm).
Proof.
  intros Hok.
  destruct op as [now url path filename size|now id|id|id|now p|p cr tr
                 |p ci io|p io|now p err|now|now]; simpl.
  - unfold AddDownload, SaveDownload.
    destruct (last_id (db dm) <? max_rowid); [|done].
    by eapply registry_ok_same; [| |exact Hok].
  - by apply registry_ok_StartDownload.
  - unfold PauseDownload. destruct (downloads dm !! id) as [p|]; [|done].
    destruct (heap dm !! p) as [job|] eqn:Hp; [|done]. simpl.
    eapply registry_ok_same; [| |eapply (registry_ok_store_job p job _ dm Hok Hp)];
      [done|done|done].
  - unfold CancelDownload.
    set (dm0 := match downloads dm !! id with Some _ => _ | None => _ end).
    assert (Hok0 : registry_ok dm0).
    { unfold dm0. destruct (downloads dm !! id) as [p|]; [|done].
      destruct (heap dm !! p) as [job|] eqn:Hp; [|done].
      by apply (registry_ok_store_job p job). }
    destruct (GetDownload (db dm0) id); [done|]. simpl.
    by eapply registry_ok_same; [| |exact Hok0].
  - unfold executeDownload_begin.
    destruct (heap (add_active 1 dm) !! p) as [job|] eqn:Hp; [|done].
    eapply registry_ok_same;
      [| |eapply (registry_ok_store_job p job _ dm Hok Hp)]; [done|done|done].
  - destruct (heap dm !! p) as [job|] eqn:Hp; [|done].
    unfold downloadWithChunks_spawn.
    destruct (chunk_ranges _ _); [|done].
    destruct cr, tr; try by apply (registry_ok_store_job p job).
    destruct (Chunks (download job) <? 0); [done|].
    by apply (registry_ok_store_job p job).
  - unfold step_job. destruct (heap dm !! p) as [job|] eqn:Hp; [|done].
    pose proof (proj1 (turn_keeps_ID io ci job)) as Hid.
    destruct (downloadChunk_iter ci io job) as [job1 o].
    by apply (registry_ok_store_job p job).
  - unfold step_job. destruct (heap dm !! p) as [job|] eqn:Hp; [|done].
    pose proof (proj2 (turn_keeps_ID io 0%nat job)) as Hid.
    destruct (downloadSingleFile_iter io job) as [job1 o].
    by apply (registry_ok_store_job p job).
  - unfold executeDownload_finish.
    destruct (heap dm !! p) as [job|] eqn:Hp; [|done].
    set (d := match err with Some e => _ | None => _ end).
    assert (Hid : ID d = ID (download job)) by (unfold d; by destruct err).
    pose proof (registry_ok_store_job p job (set_download d job) dm Hok Hp Hid)
      as Hok1.
    intros k q. simpl. rewrite lookup_delete_Some. intros [_ Hq].
    exact (Hok1 k q Hq).
  - unfold processQueue_tick. destruct (_ <? _); [|done].
    destruct (Next (queue dm)) as [[d|] q]; [|done].
    apply registry_ok_StartDownload.
    by eapply registry_ok_same; [| |exact Hok].
  - unfold updateStats_tick. generalize (map_to_list (downloads dm)).
    intros l. revert dm Hok. induction l as [|[i q] l IH]; intros dm Hok;
      [done|].
    simpl. by apply IH, registry_ok_visit.
Qed.

Lemma registry_ok_run_ops ops dm : registry_ok dm → registry_ok (run_ops ops dm).
Proof.
  revert dm. induction ops as [|op ops IH]; intros dm Hok; [done|].
  simpl. by apply IH, registry_ok_apply_op.
Qed.
End RegistryFacts.

(** X13.  However the operations of the manager and the steps of the
    runners and loops follow one another, every entry of the registry
    points to a job that exists, and the record of that job carries the
    id it is registered under.  This holds from a new manager on. *)
Theorem registry_stays_valid (ops : list Op) (dm : DownloadManager) (db0 : DB) :
  (registry_ok dm → registry_ok (run_ops ops dm))
  ∧ registry_ok (run_ops ops (NewDownloadManager db0)).
Proof.
  split; [apply registry_ok_run_ops|].
  apply registry_ok_run_ops. intros id p Hp. simpl in Hp.
  by rewrite lookup_empty in Hp.
Qed.

Lemma registry_stays_valid_witness :
  registry_ok dm_second_run
  ∧ registry_ok
      (run_ops [OpPause 0; OpStart 160 0; OpFinish 161 0 (Some Canceled)]
         dm_second_run).
Proof.
  assert (Hok : registry_ok dm_second_run).
  { intros id p. simpl. rewrite lookup_singleton_Some. intros [<- <-].
    eexists. split; reflexivity. }
  split; [exact Hok|].
  exact (proj1 (registry_stays_valid
                  [OpPause 0; OpStart 160 0; OpFinish 161 0 (Some Canceled)]
                  dm_second_run emptyDB) Hok).
Defined.

(** X14.  The runner of a paused job unregisters whatever job holds the
    record's id when it ends.  When a job is paused and its record
    started again before the old runner has unwound, the old runner's
    last step removes the registry entry of the new job: the new job
    exists and is not cancelled, but it can no longer be paused (or
    cancelled through the registry), and the statistics loop does not
    see it.  The progress of the job is taken to be a number, so that the
    row that the pause writes loads (a NaN would be kept as NULL). *)
Theorem stale_runner_unregisters_new_job (id : Z) (p : nat)
    (job : DownloadJob) (r : Row) (dm : DownloadManager) (t1 t2 : Time) :
  downloads dm !! id = Some p →
  heap dm !! p = Some job →
  ID (download job) = id →
  rows (db dm) !! id = Some r →
  PrimFloat.is_nan (Progress (download job)) = false →
  let dm1 := (PauseDownload id dm).1 in
  let dm2 := (StartDownload t1 id dm1).1 in
  let dm3 := executeDownload_finish t2 p (Some Canceled) dm2 in
  let p2 := length (heap dm) in
  (StartDownload t1 id dm1).2 = None
  ∧ downloads dm2 !! id = Some p2
  ∧ (∃ job2, heap dm3 !! p2 = Some job2
             ∧ ctx_done job2 = false
             ∧ ID (download job2) = id
             ∧ Status (download job2) = StatusPaused)
  ∧ downloads dm3 !! id = None
  ∧ PauseDownload id dm3 = (dm3, Some (Errorf "download not found")).
Proof.
  intros Hreg Hp Hjid Hr Hnum dm1 dm2 dm3 p2.
  assert (Hsome : ∃ v, real_column (Progress (download job)) = Some v).
  { destruct (real_column (Progress (download job))) as [v|] eqn:Hv; [eauto|].
    apply real_column_None in Hv. congruence. }
  destruct Hsome as [v Hv].
  set (paused := set_Status StatusPaused (download job)).
  set (job1 := set_download paused (cancel job)).
  assert (Hdm1 : dm1 = notifyCallbacks paused
                         (updateDownload paused (store_job p job1 dm))).
  { unfold dm1. by rewrite (PauseDownload_job id p job dm Hreg Hp). }
  assert (Hplt : (p < length (heap dm))%nat) by (eapply lookup_lt_Some; eauto).
  set (loaded :=
         mkDownload (ID paused) (col_url r) (col_filename r) (col_path r)
           (col_size r) (Downloaded paused) (Status paused) (Speed paused)
           v (col_created_at r) (StartedAt paused)
           (CompletedAt paused) (Error paused) (col_chunks r)).
  assert (Hget : GetDownload (db dm1) id = inr loaded).
  { rewrite Hdm1. simpl. rewrite <- Hjid.
    assert (Hr' : rows (db dm) !! ID paused = Some r)
      by (simpl; by rewrite Hjid).
    pose proof (GetDownload_after_Update_any (db dm) paused r Hr') as Hg.
    change (Progress paused) with (Progress (download job)) in Hg.
    rewrite Hv in Hg. exact Hg. }
  assert (Hst : Status loaded ≠ StatusDownloading) by (simpl; discriminate).
  pose proof (StartDownload_ok t1 id loaded dm1 Hget Hst) as Hstart.
  assert (Hheap1 : heap dm1 = <[p := job1]> (heap dm)) by (by rewrite Hdm1).
  assert (Hlen1 : length (heap dm1) = p2)
    by (rewrite Hheap1; apply length_insert).
  assert (Hh2 : heap dm2 = <[p := job1]> (heap dm)
                           ++ [mkJob loaded false (Timeout (config dm1)) [] t1]).
  { unfold dm2. rewrite Hstart. simpl. by rewrite Hheap1. }
  assert (Hd2 : downloads dm2 = <[id := p2]> (downloads dm)).
  { unfold dm2. rewrite Hstart. simpl. rewrite Hlen1. by rewrite Hdm1. }
  assert (Hp2 : heap dm2 !! p = Some job1).
  { rewrite Hh2. rewrite lookup_app_l by (rewrite length_insert; lia).
    by apply list_lookup_insert_eq. }
  destruct (executeDownload_finish_error t2 p job1 Canceled dm2 Hp2)
    as (Hh3 & _ & _ & Hd3).
  fold dm3 in Hh3, Hd3.
  assert (Hnone : downloads dm3 !! id = None).
  { rewrite Hd3. simpl. rewrite Hjid. apply lookup_delete_eq. }
  split_and!.
  - by rewrite Hstart.
  - rewrite Hd2. apply lookup_insert_eq.
  - exists (mkJob loaded false (Timeout (config dm1)) [] t1).
    split; [|split_and!; try done; simpl; exact Hjid].
    unfold dm3, executeDownload_finish. rewrite Hp2. simpl.
    rewrite list_lookup_insert_ne by lia. rewrite Hh2.
    rewrite lookup_app_r by (rewrite length_insert; unfold p2; lia).
    rewrite length_insert. unfold p2. by rewrite Nat.sub_diag.
  - exact Hnone.
  - unfold PauseDownload. by rewrite Hnone.
Qed.

Lemma stale_runner_unregisters_new_job_witness :
  let dm3 := run_ops [OpPause 0; OpStart 140 0;
                      OpFinish 141 0 (Some Canceled)] dm_running in
  downloads dm_running !! 0 = Some 0%nat
  ∧ downloads dm3 !! 0 = None
  ∧ (ctx_done <$> heap dm3 !! 1%nat) = Some false
  ∧ PauseDownload 0 dm3 = (dm3, Some (Errorf "download not found")).
Proof.
  intros dm3.
  assert (H1 : downloads dm_running !! 0 = Some 0%nat)
    by (vm_compute; reflexivity).
  assert (H2 : heap dm_running !! 0%nat = Some job_running)
    by (vm_compute; reflexivity).
  assert (H3 : rows (db dm_running) !! 0
           = Some (mkRow "http://origin/z.bin" "z.bin" "/tmp" 4096 0
                     StatusDownloading 0 0%float (UTC 100) (Some 110) None
                     (Some "") 4))
    by (vm_compute; reflexivity).
  destruct (stale_runner_unregisters_new_job 0 0 job_running _ dm_running
              140 141 H1 H2 eq_refl H3 ltac:(vm_compute; reflexivity))
    as (_ & _ & (job2 & Hj2 & Hc2 & _) & Hnone & Hpause).
  split; [exact H1|]. split; [exact Hnone|]. split.
  - change (heap dm3 !! 1%nat) with
      (heap (executeDownload_finish 141 0 (Some Canceled)
               (StartDownload 140 0 (PauseDownload 0 dm_running).1).1)
         !! length (heap dm_running)).
    rewrite Hj2. simpl. by rewrite Hc2.
  - exact Hpause.
Defined.

(** ** The chunk counters *)

Section ChunkCounterFacts.
Implicit Types (job : DownloadJob) (cs : list ChunkDownloader).

Lemma chunks_total_alter cs ci c n :
  cs !! ci = Some c →
  chunks_total (alter (bump_chunk n) ci cs)
  = chunks_total cs + (wrap64 (downloaded c + n) - downloaded c).
Proof.
  revert ci. induction cs as [|x cs IH]; intros [|ci] Hc; simplify_eq/=.
  - lia.
  - rewrite (IH _ Hc). lia.
Qed.

Lemma chunks_total_lookup cs ci c :
  Forall (λ c, 0 <= downloaded c) cs → cs !! ci = Some c →
  0 <= downloaded c <= chunks_total cs.
Proof.
  intros Hall. revert ci. induction Hall as [|x cs Hx Hall IH];
    intros [|ci] Hc; simplify_eq/=.
  - assert (0 <= chunks_total cs).
    { clear -Hall. induction Hall; simpl; lia. }
    lia.
  - specialize (IH _ Hc). lia.
Qed.

Lemma turn_adds_to_both ci io job :
  (ci < length (chunks job))%nat → 0 <= io_n io → io_write io = None →
  Forall (λ c, 0 <= downloaded c) (chunks job) →
  0 <= Downloaded (download job) →
  Downloaded (download job) + io_n io < 2 ^ 63 →
  chunks_total (chunks job) + io_n io < 2 ^ 63 →
  let job1 := (downloadChunk_iter ci io job).1 in
  ∃ k, 0 <= k <= io_n io
       ∧ Downloaded (download job1) = Downloaded (download job) + k
       ∧ chunks_total (chunks job1) = chunks_total (chunks job) + k
       ∧ Forall (λ c, 0 <= downloaded c) (chunks job1)
       ∧ length (chunks job1) = length (chunks job).
Proof.
  intros Hci Hn Hw Hpos HD HDn HTn job1. unfold job1, downloadChunk_iter.
  destruct (ctx_done job);
    [exists 0; simpl; split; [lia|]; split_and!; try done; lia|].
  destruct (Z.ltb_spec 0 (io_n io)) as [Hlt|Hle];
    [|exists 0; simpl; split; [lia|]; split_and!; try done; lia].
  rewrite Hw. simpl. exists (io_n io).
  destruct (lookup_lt_is_Some_2 _ _ Hci) as [c Hc].
  pose proof (chunks_total_lookup _ _ _ Hpos Hc) as Hcb.
  split; [lia|]. split; [|split; [|split]].
  - apply wrap64_id. unfold in_int64. lia.
  - rewrite (chunks_total_alter _ _ _ _ Hc).
    rewrite wrap64_id by (unfold in_int64; lia). lia.
  - apply Forall_alter; [done|]. intros x Hx. simpl.
    assert (x = c) as -> by congruence.
    rewrite wrap64_id by (unfold in_int64; lia). lia.
  - apply length_alter.
Qed.
Lemma total_n_turns_nonneg job (turns : list (nat * ReadIO)) :
  Forall (turn_ok job) turns → 0 <= total_n turns.*2.
Proof.
  induction 1 as [|t l (_ & Hn & _) _ IH]; [done|].
  rewrite fmap_cons. simpl. lia.
Qed.
End ChunkCounterFacts.

(** X15.  While the chunks of a job take turns whose writes succeed, the
    job's byte counter and the sum of the chunks' counters grow by the
    same amount (counters below 2^63), whatever the order of the turns
    and whether or not the job has been cancelled meanwhile.  A turn
    whose write fails breaks this: the chunk's counter has already been
    advanced when the error is returned, the job's counter has not. *)
Theorem chunk_counters_add_up (turns : list (nat * ReadIO))
    (job : DownloadJob) (ci : nat) (c : ChunkDownloader) (io : ReadIO)
    (e : error) :
  (Forall (turn_ok job) turns →
   Forall (λ c, 0 <= downloaded c) (chunks job) →
   0 <= Downloaded (download job) →
   Downloaded (download job) + total_n turns.*2 < 2 ^ 63 →
   chunks_total (chunks job) + total_n turns.*2 < 2 ^ 63 →
   Downloaded (download (run_turns turns job)) - Downloaded (download job)
   = chunks_total (chunks (run_turns turns job))
     - chunks_total (chunks job))
  ∧ (ctx_done job = false → chunks job !! ci = Some c → 0 < io_n io →
     io_write io = Some e →
     let job1 := (downloadChunk_iter ci io job).1 in
     (downloadChunk_iter ci io job).2 = Returned (Some e)
     ∧ chunks job1 !! ci
       = Some (mkChunk (start c) (end_ c) (wrap64 (downloaded c + io_n io)))
     ∧ Downloaded (download job1) = Downloaded (download job)).
Proof.
  split.
  - intros Hturns. revert job Hturns.
    induction turns as [|[i rd] turns IH]; intros job Hturns Hpos HD HDn HTn;
      [simpl; lia|].
    rewrite fmap_cons in HDn, HTn. simpl in HDn, HTn.
    apply Forall_cons in Hturns as [(Hi & Hn & Hw) Hturns]. simpl in Hi, Hn, Hw.
    pose proof (total_n_turns_nonneg job turns Hturns) as Ht.
    destruct (turn_adds_to_both i rd job Hi Hn Hw Hpos HD ltac:(lia)
                ltac:(lia)) as (k & Hk & HD1 & HT1 & Hpos1 & Hlen1).
    cbn [run_turns foldl]. fold (run_turns turns (downloadChunk_iter i rd job).1).
    simpl fst. simpl snd.
    set (job1 := (downloadChunk_iter i rd job).1) in *.
    assert (Hturns1 : Forall (turn_ok job1) turns).
    { eapply Forall_impl; [exact Hturns|]. intros t (H1 & H2 & H3).
      split_and!; try done. by rewrite Hlen1. }
    specialize (IH job1 Hturns1 Hpos1 ltac:(lia) ltac:(lia) ltac:(lia)).
    unfold run_turns in IH. lia.
  - intros Hc Hci Hn Hw job1. unfold job1, downloadChunk_iter.
    rewrite Hc, Hw. destruct (Z.ltb_spec 0 (io_n io)); [|lia]. simpl.
    split_and!; try done. rewrite list_lookup_alter_eq, Hci. done.
Qed.

Lemma chunk_counters_add_up_witness :
  let turns := [(0%nat, mkRead 100 None None); (2%nat, mkRead 50 None None);
                (0%nat, mkRead 30 (Some EOF) None)] in
  Downloaded (download (run_turns turns job_ranged))
  - Downloaded (download job_ranged)
  = chunks_total (chunks (run_turns turns job_ranged))
    - chunks_total (chunks job_ranged)
  ∧ (let job1 := (downloadChunk_iter 1 (mkRead 64 None (Some (Errorf "disk full")))
                    job_ranged).1 in
     chunks job1 !! 1%nat = Some (mkChunk 1024 2047 (wrap64 (0 + 64)))
     ∧ Downloaded (download job1) = 0).
Proof.
  intros turns.
  destruct (chunk_counters_add_up turns job_ranged 1 (mkChunk 1024 2047 0)
              (mkRead 64 None (Some (Errorf "disk full"))) (Errorf "disk full"))
    as [Hsum Hwrite].
  split.
  - apply Hsum.
    + repeat constructor; simpl; lia.
    + repeat constructor; simpl; lia.
    + simpl. lia.
    + simpl. lia.
    + simpl. lia.
  - destruct (Hwrite eq_refl eq_refl ltac:(simpl; lia) eq_refl)
      as (_ & Hc & HD).
    split; [exact Hc|exact HD].
Defined.

(** ** Edge cases of the ranged transfer *)

Lemma make_chunks_zero_size (n : nat) (i nchunks size : Z) (k : nat) :
  (k < n)%nat → - 2 ^ 63 < size <= 2 ^ 63 →
  make_chunks n i nchunks size 0 !! k
  = Some (mkChunk 0 (if i + Z.of_nat k =? nchunks - 1 then size - 1 else -1) 0).
Proof.
  revert i k. induction n as [|n IH]; intros i k Hk Hs; [lia|].
  destruct k as [|k]; simpl.
  - rewrite Z.mul_0_r. replace (i + Z.of_nat 0) with i by lia.
    rewrite (wrap64_id 0) by (unfold in_int64; lia).
    destruct (i =? nchunks - 1).
    + rewrite wrap64_id by (unfold in_int64; lia). done.
    + rewrite wrap64_id by (unfold in_int64; lia). done.
  - rewrite IH by lia.
    replace (i + 1 + Z.of_nat k) with (i + Z.of_nat (S k)) by lia. done.
Qed.

(** X16.  The edges of [downloadWithChunks].  With a chunk count of 0 it
    panics on the division, before the file is created.  With a negative
    count it creates the file and panics on the error channel, unless the
    file cannot be created or truncated, which is returned as the error.
    With fewer bytes than chunks the chunk size is 0: every chunk but the
    last is given the range from 0 to -1, the last one the whole file. *)
Theorem downloadWithChunks_edges (create truncate : option error)
    (job : DownloadJob) :
  let S := Size (download job) in
  let c := Chunks (download job) in
  (c = 0 → downloadWithChunks_spawn create truncate job = Panic divide_by_zero)
  ∧ (c < 0 →
     downloadWithChunks_spawn create truncate job
     = match create, truncate with
       | Some e, _ => Done (job, Some e)
       | None, Some e => Done (job, Some e)
       | None, None => Panic "makechan: size out of range"
       end)
  ∧ (0 <= S → S < c → c < 2 ^ 63 →
     ∃ cs, downloadWithChunks_spawn None None job
           = Done (set_chunks (chunks job ++ cs) job, None)
           ∧ length cs = Z.to_nat c
           ∧ (∀ i, 0 <= i < c - 1 →
                cs !! Z.to_nat i = Some (mkChunk 0 (-1) 0))
           ∧ cs !! Z.to_nat (c - 1) = Some (mkChunk 0 (S - 1) 0)).
Proof.
  intros S c. split_and!.
  - intros Hc. unfold downloadWithChunks_spawn, chunk_ranges, go_div.
    fold c. rewrite Hc. done.
  - intros Hc. unfold downloadWithChunks_spawn, chunk_ranges, go_div.
    fold S c. destruct (Z.eqb_spec c 0); [lia|].
    destruct create, truncate; try done.
    destruct (Z.ltb_spec c 0); [done|lia].
  - intros HS HSc Hc.
    assert (Hq : go_div S c = Done 0).
    { rewrite go_div_pos by lia. by rewrite Z.div_small by lia. }
    exists (make_chunks (Z.to_nat c) 0 c S 0). split_and!.
    + unfold downloadWithChunks_spawn, chunk_ranges. fold S c. rewrite Hq.
      destruct (Z.ltb_spec c 0); [lia|done].
    + apply make_chunks_length.
    + intros i Hi. rewrite make_chunks_zero_size by lia.
      rewrite Z2Nat.id by lia. rewrite Z.add_0_l.
      destruct (Z.eqb_spec i (c - 1)); [lia|done].
    + rewrite make_chunks_zero_size by lia. rewrite Z2Nat.id by lia.
      rewrite Z.add_0_l. by rewrite Z.eqb_refl.
Qed.

Lemma downloadWithChunks_edges_witness :
  let tiny := set_download (set_Size_of 2 (download job_4096)) job_4096 in
  ∃ cs, downloadWithChunks_spawn None None tiny
        = Done (set_chunks (chunks tiny ++ cs) tiny, None)
        ∧ length cs = 4%nat
        ∧ (∀ i, 0 <= i < 3 → cs !! Z.to_nat i = Some (mkChunk 0 (-1) 0))
        ∧ cs !! 3%nat = Some (mkChunk 0 1 0).
Proof.
  intros tiny.
  destruct (downloadWithChunks_edges None None tiny) as (_ & _ & Hsmall).
  apply Hsmall; simpl; lia.
Defined.

(** X17.  A speed limit that comes to less than 1024 bytes per second for
    a fetch makes the fetch panic as soon as its body is to be read: for
    a chunk when [0 < MaxSpeed < 1024 * Chunks], for a single-stream
    transfer when [0 < MaxSpeed < 1024].  With [MaxSpeed = 0] no limiter
    is started and the fetch goes straight into its read loop. *)
Theorem speed_limit_below_1024_panics (cfg : DownloadConfig) (ci : nat)
    (reads : list ReadIO) (job : DownloadJob) :
  (0 < MaxSpeed cfg → 1 <= Chunks (download job) →
   MaxSpeed cfg < 1024 * Chunks (download job) → MaxSpeed cfg < 2 ^ 63 →
   downloadChunk cfg ci (Body reads) job = Panic divide_by_zero)
  ∧ (0 < MaxSpeed cfg < 1024 →
     downloadSingleFile cfg (Body reads) None job = Panic divide_by_zero)
  ∧ (MaxSpeed cfg = 0 →
     downloadChunk cfg ci (Body reads) job
     = Done (downloadChunk_loop ci reads job)
     ∧ downloadSingleFile cfg (Body reads) None job
       = Done (downloadSingleFile_loop reads job)).
Proof.
  assert (Hzero : ∀ m, 0 <= m < 1024 → ticker_period m = Panic divide_by_zero).
  { intros m Hm. unfold ticker_period. rewrite go_div_pos by lia.
    by rewrite Z.div_small by lia. }
  split_and!.
  - intros Hpos Hc Hlt Hmax. unfold downloadChunk, start_limiter.
    destruct (Z.ltb_spec 0 (MaxSpeed cfg)); [|lia].
    rewrite go_div_pos by lia. rewrite Hzero; [done|]. split.
    + apply Z.div_pos; lia.
    + apply Z.div_lt_upper_bound; lia.
  - intros Hm. unfold downloadSingleFile, start_limiter.
    destruct (Z.ltb_spec 0 (MaxSpeed cfg)); [|lia]. by rewrite Hzero by lia.
  - intros Hm. unfold downloadChunk, downloadSingleFile, start_limiter.
    rewrite Hm. done.
Qed.

Lemma speed_limit_below_1024_panics_witness :
  downloadChunk (mkConfig 3 1024 4000 3 "IDM-Go/1.0" (30 * Second)) 0
    (Body [mkRead 1024 (Some EOF) None]) job_ranged
  = Panic divide_by_zero
  ∧ downloadSingleFile (mkConfig 3 1024 1000 3 "IDM-Go/1.0" (30 * Second))
      (Body [mkRead 1024 (Some EOF) None]) None job_ranged
    = Panic divide_by_zero
  ∧ downloadChunk DefaultConfig 0 (Body [mkRead 1024 (Some EOF) None])
      job_ranged
    = Done (downloadChunk_loop 0 [mkRead 1024 (Some EOF) None] job_ranged).
Proof.
  split_and!.
  - apply (proj1 (speed_limit_below_1024_panics
                    (mkConfig 3 1024 4000 3 "IDM-Go/1.0" (30 * Second)) 0
                    [mkRead 1024 (Some EOF) None] job_ranged)); simpl; lia.
  - apply (proj1 (proj2 (speed_limit_below_1024_panics
                    (mkConfig 3 1024 1000 3 "IDM-Go/1.0" (30 * Second)) 0
                    [mkRead 1024 (Some EOF) None] job_ranged))); simpl; lia.
  - apply (proj2 (proj2 (speed_limit_below_1024_panics DefaultConfig 0
                    [mkRead 1024 (Some EOF) None] job_ranged))). reflexivity.
Defined.

(** ** The statistics loop without running jobs *)

(** X18.  A tick of the statistics loop touches Downloading jobs only:
    when no registered job has a record in status Downloading (all are
    paused, or not yet started by their runner), the tick changes
    nothing, neither jobs nor store nor the records announced. *)
Theorem updateStats_tick_idle (now : Z → Time) (dm : DownloadManager) :
  (∀ id p job, downloads dm !! id = Some p → heap dm !! p = Some job →
     Status (download job) ≠ StatusDownloading) →
  updateStats_tick now dm = dm.
Proof.
  intros Hidle. unfold updateStats_tick.
  assert (Hl : ∀ id p, (id, p) ∈ map_to_list (downloads dm) →
            updateStats_visit (now id) p dm = dm).
  { intros id p Hin. apply elem_of_map_to_list in Hin.
    unfold updateStats_visit. destruct (heap dm !! p) as [job|] eqn:Hp; [|done].
    case_decide as Hs; [|done]. by destruct (Hidle id p job Hin Hp). }
  revert Hl. generalize (map_to_list (downloads dm)). intros l.
  induction l as [|[id p] l IH]; intros Hl; [done|]. simpl.
  rewrite Hl by (by left). apply IH. intros id' p' Hin. apply Hl. by right.
Qed.

Lemma updateStats_tick_idle_witness :
  updateStats_tick (λ _, 200) dm_started = dm_started
  ∧ updateStats_tick (λ _, 200) (PauseDownload 0 dm_running).1
    = (PauseDownload 0 dm_running).1.
Proof.
  split.
  - apply updateStats_tick_idle. intros id p job.
    change (downloads dm_started) with (<[1 := 0%nat]> (∅ : gmap Z nat)).
    rewrite lookup_insert_Some, lookup_empty. intros [[<- <-]|[_ ?]]; [|done].
    intros [= <-]. vm_compute. discriminate.
  - apply updateStats_tick_idle. intros id p job.
    change (downloads (PauseDownload 0 dm_running).1)
      with (<[0 := 0%nat]> (∅ : gmap Z nat)).
    rewrite lookup_insert_Some, lookup_empty. intros [[<- <-]|[_ ?]]; [|done].
    intros [= <-]. vm_compute. discriminate.
Defined.

(** ** What the engine never does to the store *)

Section RowKeptFacts.
Variables (k : Z) (r0 : Row).
Implicit Types (dm : DownloadManager) (d : Download).

Lemma row_kept_UpdateDownload (db : DB) d :
  row_kept k r0 db → row_kept k r0 (UpdateDownload db d).
Proof.
  intros (Hwf & r & Hr & Hdesc). split; [by apply DB_wf_UpdateDownload|].
  unfold UpdateDownload. simpl. rewrite lookup_alter.
  case_decide as Hk.
  - subst k. rewrite Hr. simpl. eexists. split; [done|]. exact Hdesc.
  - eauto.
Qed.

Lemma row_kept_SaveDownload (db : DB) d :
  row_kept k r0 db → row_kept k r0 (SaveDownload db d).1.
Proof.
  intros (Hwf & r & Hr & Hdesc).
  split; [by apply DB_wf_SaveDownload|].
  exists r. split; [by apply SaveDownload_keeps_rows|done].
Qed.

Lemma row_kept_updateDownload d dm :
  row_kept k r0 (db dm) → row_kept k r0 (db (updateDownload d dm)).
Proof. apply row_kept_UpdateDownload. Qed.

Lemma row_kept_visit now p dm :
  row_kept k r0 (db dm) → row_kept k r0 (db (updateStats_visit now p dm)).
Proof.
  intros Hinv. unfold updateStats_visit.
  destruct (heap dm !! p) as [job|]; [|done]. case_decide; [|done].
  simpl. by apply row_kept_UpdateDownload.
Qed.

Lemma row_kept_StartDownload now id dm :
  row_kept k r0 (db dm) → row_kept k r0 (db (StartDownload now id dm).1).
Proof.
  intros Hinv. unfold StartDownload.
  destruct (GetDownload (db dm) id); [done|]. by case_decide.
Qed.

Lemma row_kept_apply_op op dm :
  row_kept k r0 (db dm) → row_kept k r0 (db (apply_op op dm)).
Proof.
  intros Hinv.
  destruct op as [now url path filename size|now id|id|id|now p|p cr tr
                 |p ci io|p io|now p err|now|now]; simpl.
  - pose proof (row_kept_SaveDownload (db dm)
                  (mkDownload 0 url filename path size 0 StatusPending 0
                     0%float now None None "" 4) Hinv) as Hsave.
    unfold AddDownload.
    destruct (SaveDownload (db dm) _) as [db1 [e|id]]; [done|exact Hsave].
  - by apply row_kept_StartDownload.
  - unfold PauseDownload. destruct (downloads dm !! id) as [p|]; [|done].
    destruct (heap dm !! p) as [job|]; [|done]. simpl.
    by apply row_kept_UpdateDownload.
  - unfold CancelDownload.
    set (dm0 := match downloads dm !! id with Some _ => _ | None => _ end).
    assert (Hdb0 : db dm0 = db dm).
    { unfold dm0. destruct (downloads dm !! id) as [p|]; [|done].
      by destruct (heap dm !! p). }
    destruct (GetDownload (db dm0) id); [simpl; by rewrite Hdb0|]. simpl.
    rewrite Hdb0. by apply row_kept_UpdateDownload.
  - unfold executeDownload_begin.
    destruct (heap (add_active 1 dm) !! p) as [job|]; [|done]. simpl.
    by apply row_kept_UpdateDownload.
  - destruct (heap dm !! p) as [job|]; [|done].
    by destruct (downloadWithChunks_spawn _ _ job) as [[job1 e]|].
  - unfold step_job. destruct (heap dm !! p) as [job|]; [|done].
    by destruct (downloadChunk_iter ci io job).
  - unfold step_job. destruct (heap dm !! p) as [job|]; [|done].
    by destruct (downloadSingleFile_iter io job).
  - unfold executeDownload_finish.
    destruct (heap dm !! p) as [job|]; [|done]. simpl.
    by apply row_kept_UpdateDownload.
  - unfold processQueue_tick. destruct (_ <? _); [|done].
    destruct (Next (queue dm)) as [[d|] q]; [|done].
    by apply row_kept_StartDownload.
  - unfold updateStats_tick. generalize (map_to_list (downloads dm)).
    intros l. revert dm Hinv.
    induction l as [|[i q] l IH]; intros dm Hinv; [done|].
    simpl. by apply IH, row_kept_visit.
Qed.

Lemma row_kept_run_ops ops dm :
  row_kept k r0 (db dm) → row_kept k r0 (db (run_ops ops dm)).
Proof.
  revert dm. induction ops as [|op ops IH]; intros dm Hinv; [done|].
  simpl. by apply IH, row_kept_apply_op.
Qed.
End RowKeptFacts.

(** X19.  No operation of the engine deletes a row or rewrites what the
    insert wrote: over a store filled by AUTOINCREMENT, a row that exists
    still exists after every sequence of operations, with the same url,
    filename, path, size, created_at and chunks. *)
Theorem rows_are_never_deleted (ops : list Op) (dm : DownloadManager)
    (k : Z) (r0 : Row) :
  DB_wf (db dm) →
  rows (db dm) !! k = Some r0 →
  ∃ r, rows (db (run_ops ops dm)) !! k = Some r
       ∧ descriptive r = descriptive r0.
Proof.
  intros Hwf Hr.
  destruct (row_kept_run_ops k r0 ops dm) as (_ & r & Hr1 & Hd); [|eauto].
  split; [done|]. eauto.
Qed.

Lemma rows_are_never_deleted_witness :
  ∃ r, rows (db (run_ops
                   [OpAdd (UTC 400) "http://origin/d.bin" "/tmp" "d.bin" 4096;
                    OpStart 410 1; OpBegin 411 0; OpCancel 1]
                   (NewDownloadManager db_three))) !! 1 = Some r
       ∧ descriptive r
         = ("http://origin/a.bin", "a.bin", "/tmp", 4096, UTC 100, 4).
Proof.
  apply (rows_are_never_deleted _ (NewDownloadManager db_three) 1
           (mkRow "http://origin/a.bin" "a.bin" "/tmp" 4096 0 StatusPending 0
              0%float (UTC 100) None None (Some "") 4)).
  - simpl. unfold db_three. cbn [foldl].
    repeat apply DB_wf_store_record. apply DB_wf_emptyDB.
  - vm_compute. reflexivity.
Defined.

(** ** The outcome of a ranged transfer *)

Section RangedOutcomeFacts.
Implicit Types (job : DownloadJob) (os : list Outcome).

Lemma downloadChunk_loop_ctx ci reads job :
  ctx_done (downloadChunk_loop ci reads job).1 = ctx_done job.
Proof.
  revert job. induction reads as [|io reads IH]; intros job; simpl; [done|].
  assert (Hit : ctx_done (downloadChunk_iter ci io job).1 = ctx_done job).
  { unfold downloadChunk_iter. destruct (ctx_done job) eqn:Hc; [done|].
    destruct (0 <? io_n io); [|done]. by destruct (io_write io). }
  destruct (downloadChunk_iter ci io job) as [job1 [|err]]; simpl in *.
  - by rewrite IH.
  - done.
Qed.

Lemma run_chunks_ctx cfg ci fetches job job1 os :
  run_chunks cfg ci fetches job = Done (job1, os) →
  ctx_done job1 = ctx_done job ∧ length os = length fetches.
Proof.
  revert ci job job1 os.
  induction fetches as [|f fetches IH]; intros ci job job1 os; simpl.
  - by intros [= <- <-].
  - destruct (downloadChunk cfg ci f job) as [[j o]|] eqn:Hd; [|done].
    destruct (run_chunks cfg (S ci) fetches j) as [[j2 os2]|] eqn:Hr; [|done].
    intros [= <- <-]. destruct (IH _ _ _ _ Hr) as [Hc Hl].
    split; [|simpl; by rewrite Hl]. rewrite Hc.
    unfold downloadChunk in Hd. destruct f as [e|e|reads].
    + by injection Hd as <- _.
    + by injection Hd as <- _.
    + destruct (start_limiter _ _); [|done]. injection Hd as Hd.
      pose proof (downloadChunk_loop_ctx ci reads job) as Hctx.
      destruct (downloadChunk_loop ci reads job). simpl in *. congruence.
Qed.

Lemma downloadChunk_iter_env ci io job :
  ctx_done (downloadChunk_iter ci io job).1 = ctx_done job
  ∧ Chunks (download (downloadChunk_iter ci io job).1) = Chunks (download job).
Proof.
  unfold downloadChunk_iter. destruct (ctx_done job) eqn:Hc; [done|].
  destruct (0 <? io_n io); [|done]. by destruct (io_write io).
Qed.

Lemma downloadChunk_iter_outcome ci ci' io job job' :
  ctx_done job = ctx_done job' →
  (downloadChunk_iter ci io job).2 = (downloadChunk_iter ci' io job').2.
Proof.
  intros Hc. unfold downloadChunk_iter. rewrite <- Hc.
  destruct (ctx_done job); [done|].
  destruct (0 <? io_n io); [|done]. by destruct (io_write io).
Qed.

Lemma downloadChunk_loop_env ci reads job :
  ctx_done (downloadChunk_loop ci reads job).1 = ctx_done job
  ∧ Chunks (download (downloadChunk_loop ci reads job).1)
    = Chunks (download job).
Proof.
  revert job. induction reads as [|io reads IH]; intros job; simpl; [done|].
  destruct (downloadChunk_iter_env ci io job) as [Hc Hn].
  destruct (downloadChunk_iter ci io job) as [job1 [|err]]; simpl in *.
  - destruct (IH job1) as [Hc1 Hn1]. by rewrite Hc1, Hn1.
  - done.
Qed.

Lemma downloadChunk_loop_outcome ci ci' reads job job' :
  ctx_done job = ctx_done job' →
  (downloadChunk_loop ci reads job).2 = (downloadChunk_loop ci' reads job').2.
Proof.
  revert job job'.
  induction reads as [|io reads IH]; intros job job' Hc; simpl; [done|].
  pose proof (downloadChunk_iter_outcome ci ci' io job job' Hc) as Ho.
  destruct (downloadChunk_iter_env ci io job) as [Hc1 _].
  destruct (downloadChunk_iter_env ci' io job') as [Hc2 _].
  destruct (downloadChunk_iter ci io job) as [j1 o1].
  destruct (downloadChunk_iter ci' io job') as [j2 o2].
  simpl in *. subst o2. destruct o1 as [|r]; [|done].
  apply IH. congruence.
Qed.

Lemma downloadChunk_env cfg ci f job job1 o :
  downloadChunk cfg ci f job = Done (job1, o) →
  ctx_done job1 = ctx_done job
  ∧ Chunks (download job1) = Chunks (download job).
Proof.
  unfold downloadChunk. destruct f as [e|e|reads].
  - by intros [= <- _].
  - by intros [= <- _].
  - destruct (start_limiter _ _); [|done]. intros [= Hd].
    pose proof (downloadChunk_loop_env ci reads job) as He.
    destruct (downloadChunk_loop ci reads job). simpl in *.
    injection Hd as <- _. exact He.
Qed.

Lemma downloadChunk_outcome cfg ci ci' f job job' job1 o :
  ctx_done job = ctx_done job' →
  Chunks (download job) = Chunks (download job') →
  downloadChunk cfg ci f job = Done (job1, o) →
  ∃ job2, downloadChunk cfg ci' f job' = Done (job2, o).
Proof.
  intros Hc Hn. unfold downloadChunk. destruct f as [e|e|reads].
  - intros [= _ <-]. by eexists.
  - intros [= _ <-]. by eexists.
  - rewrite <- Hn. destruct (start_limiter _ _); [|done]. intros [= Hd].
    pose proof (downloadChunk_loop_outcome ci ci' reads job job' Hc) as Ho.
    destruct (downloadChunk_loop ci reads job) as [j1 o1].
    destruct (downloadChunk_loop ci' reads job') as [j2 o2].
    simpl in *. injection Hd as _ <-. subst o2. by eexists.
Qed.

Lemma run_chunks_env cfg ci fetches job job1 os :
  run_chunks cfg ci fetches job = Done (job1, os) →
  ctx_done job1 = ctx_done job
  ∧ Chunks (download job1) = Chunks (download job).
Proof.
  revert ci job job1 os.
  induction fetches as [|f fetches IH]; intros ci job job1 os; simpl.
  - by intros [= <- <-].
  - destruct (downloadChunk cfg ci f job) as [[j o]|] eqn:Hd; [|done].
    destruct (run_chunks cfg (S ci) fetches j) as [[j2 os2]|] eqn:Hr; [|done].
    intros [= <- <-]. destruct (IH _ _ _ _ Hr) as [Hc Hn].
    destruct (downloadChunk_env _ _ _ _ _ _ Hd) as [Hc1 Hn1].
    split; congruence.
Qed.

Lemma run_chunks_nth cfg ci fetches job job1 os :
  run_chunks cfg ci fetches job = Done (job1, os) →
  ∀ (i : nat) (f : Fetch), fetches !! i = Some f →
  ∃ ja jb o,
    run_chunks cfg ci (take i fetches) job = Done (ja, take i os)
    ∧ downloadChunk cfg (ci + i) f ja = Done (jb, o)
    ∧ os !! i = Some o.
Proof.
  revert ci job job1 os.
  induction fetches as [|f0 fetches IH]; intros ci job job1 os Hrun i f Hi;
    [done|].
  simpl in Hrun.
  destruct (downloadChunk cfg ci f0 job) as [[j o]|] eqn:Hd; [|done].
  destruct (run_chunks cfg (S ci) fetches j) as [[j2 os2]|] eqn:Hr; [|done].
  injection Hrun as <- <-. destruct i as [|i].
  - injection Hi as <-. exists job, j, o. simpl.
    rewrite Nat.add_0_r. done.
  - simpl in Hi. destruct (IH _ _ _ _ Hr i f Hi) as (ja & jb & o' & Ha & Hb & Ho).
    exists ja, jb, o'. simpl. rewrite Hd, Ha.
    replace (ci + S i)%nat with (S ci + i)%nat by lia. done.
Qed.

Lemma wait_chunks_cases os :
  (wait_chunks os = Running ↔ Running ∈ os)
  ∧ (wait_chunks os = Returned None ↔ Forall (λ o, o = Returned None) os)
  ∧ (∀ e, wait_chunks os = Returned (Some e) → Returned (Some e) ∈ os).
Proof.
  induction os as [|o os (IHr & IHn & IHe)]; simpl.
  - split_and!.
    + split; [done|]. by intros ?%elem_of_nil.
    + split; [constructor|done].
    + done.
  - destruct o as [|[e|]].
    + split_and!.
      * split; [intros _; by left|done].
      * split; [done|]. intros H. by apply Forall_cons in H as [? _].
      * done.
    + destruct (wait_chunks os) as [|r] eqn:Hw.
      * split_and!.
        -- split; [intros _; right; by apply IHr|done].
        -- split; [done|]. intros H. by apply Forall_cons in H as [? _].
        -- done.
      * split_and!.
        -- split; [done|]. intros [?|Hin]%elem_of_cons; [done|].
           by apply IHr in Hin.
        -- split; [done|]. intros H. by apply Forall_cons in H as [? _].
        -- intros e' [= <-]. by left.
    + destruct (wait_chunks os) as [|r] eqn:Hw.
      * split_and!.
        -- split; [intros _; right; by apply IHr|done].
        -- split; [done|]. intros H. apply Forall_cons in H as [_ H].
           by apply IHn in H.
        -- done.
      * split_and!.
        -- split; [done|]. intros [?|Hin]%elem_of_cons; [done|].
           by apply IHr in Hin.
        -- split.
           ++ intros [= ->]. constructor; [done|]. by apply IHn.
           ++ intros H. apply Forall_cons in H as [_ H]. apply IHn in H.
              congruence.
        -- intros e' [= ->]. right. by apply IHe.
Qed.
End RangedOutcomeFacts.

(** X20.  The chunk fetches of a job never cancel the job's context: a
    chunk that fails does not stop the others, each of them is run to
    its own outcome.  Whatever the chunks before it returned, the chunk
    at position [i] is run, on a job whose context is as it was at the
    start, and what it returns is what it would have returned had it been
    run first: the outcome depends on its own fetch alone.  The job waits
    until every chunk has returned; it then succeeds exactly when every
    chunk did, and otherwise fails with the error of one of its chunks. *)
Theorem ranged_transfer_outcome (cfg : DownloadConfig) (ci : nat)
    (fetches : list Fetch) (job job1 : DownloadJob) (os : list Outcome) :
  run_chunks cfg ci fetches job = Done (job1, os) →
  ctx_done job1 = ctx_done job
  ∧ length os = length fetches
  ∧ (∀ (i : nat) (f : Fetch), fetches !! i = Some f →
     ∃ ja jb jc o,
       run_chunks cfg ci (take i fetches) job = Done (ja, take i os)
       ∧ ctx_done ja = ctx_done job
       ∧ downloadChunk cfg (ci + i) f ja = Done (jb, o)
       ∧ os !! i = Some o
       ∧ downloadChunk cfg (ci + i) f job = Done (jc, o))
  ∧ (wait_chunks os = Running ↔ Running ∈ os)
  ∧ (wait_chunks os = Returned None ↔ Forall (λ o, o = Returned None) os)
  ∧ (∀ e, wait_chunks os = Returned (Some e) → Returned (Some e) ∈ os).
Proof.
  intros Hrun. destruct (run_chunks_ctx _ _ _ _ _ _ Hrun) as [Hc Hl].
  destruct (wait_chunks_cases os) as (H1 & H2 & H3).
  split; [done|]. split; [done|]. split; [|done].
  intros i f Hi.
  destruct (run_chunks_nth _ _ _ _ _ _ Hrun i f Hi) as (ja & jb & o & Ha & Hb & Ho).
  destruct (run_chunks_env _ _ _ _ _ _ Ha) as [Hca Hna].
  destruct (downloadChunk_outcome cfg (ci + i) (ci + i) f ja job jb o Hca Hna Hb)
    as [jc Hjc].
  by exists ja, jb, jc, o.
Qed.

Lemma ranged_transfer_outcome_witness :
  ∃ job1 os,
    run_chunks DefaultConfig 0
      [Body [mkRead 1024 (Some EOF) None]; DoFails (Errorf "connection reset");
       Body [mkRead 512 None None; mkRead 512 (Some EOF) None]] job_ranged
    = Done (job1, os)
    ∧ os = [Returned None; Returned (Some (Errorf "connection reset"));
            Returned None]
    ∧ ctx_done job1 = false
    ∧ Downloaded (download job1) = 2048
    ∧ (∃ jc, downloadChunk DefaultConfig 2
               (Body [mkRead 512 None None; mkRead 512 (Some EOF) None])
               job_ranged
             = Done (jc, Returned None))
    ∧ wait_chunks os = Returned (Some (Errorf "connection reset")).
Proof.
  eexists _, _.
  assert (Hrun : run_chunks DefaultConfig 0
            [Body [mkRead 1024 (Some EOF) None];
             DoFails (Errorf "connection reset");
             Body [mkRead 512 None None; mkRead 512 (Some EOF) None]]
            job_ranged
          = Done (set_download (set_Downloaded 2048 (download job_ranged))
                    (set_chunks [mkChunk 0 1023 1024; mkChunk 1024 2047 0;
                                 mkChunk 2048 3071 1024; mkChunk 3072 4095 0]
                       job_ranged),
                  [Returned None; Returned (Some (Errorf "connection reset"));
                   Returned None]))
    by (vm_compute; reflexivity).
  split; [exact Hrun|]. split; [reflexivity|].
  destruct (ranged_transfer_outcome _ _ _ _ _ _ Hrun) as (Hc & _ & Hnth & _).
  split; [exact Hc|]. split; [reflexivity|]. split; [|reflexivity].
  destruct (Hnth 2%nat _ eq_refl) as (ja & jb & jc & o & _ & _ & _ & Ho & Hjc).
  injection Ho as <-. by exists jc.
Defined.

(** ** The main window *)

Section FormatBytesFacts.
Variable bytes : Z.
Hypothesis Hbytes : bytes < 2 ^ 63.

Lemma formatBytes_loop_spec (fuel : nat) (n div : Z) (exp : nat) :
  0 < div → n = bytes / div → 1 <= n < 1024 ^ (Z.of_nat fuel + 1) →
  ∃ e : nat,
    (e <= fuel)%nat
    ∧ ui.formatBytes_loop fuel n div exp
      = Some (div * 1024 ^ Z.of_nat e, (exp + e)%nat)
    ∧ div * 1024 ^ Z.of_nat e <= bytes < 1024 * (div * 1024 ^ Z.of_nat e).
Proof using Hbytes.
  revert n div exp. induction fuel as [|fuel IH]; intros n div exp Hdiv Hn Hb.
  - simpl in *. destruct (Z.leb_spec 1024 n) as [Hge|Hlt]; [lia|].
    exists 0%nat. rewrite Z.mul_1_r, Nat.add_0_r. split; [lia|]. split; [done|].
    pose proof (Z.mul_div_le bytes div Hdiv).
    pose proof (Z.mul_succ_div_gt bytes div Hdiv). nia.
  - cbn [ui.formatBytes_loop].
    pose proof (Z.mul_div_le bytes div Hdiv) as Hlo.
    pose proof (Z.mul_succ_div_gt bytes div Hdiv) as Hhi.
    destruct (Z.leb_spec 1024 n) as [Hge|Hlt].
    + assert (Hw : wrap64 (div * 1024) = div * 1024).
      { apply wrap64_id. unfold in_int64. nia. }
      rewrite Hw. rewrite quot_div_nonneg by lia.
      assert (Hn' : n / 1024 = bytes / (div * 1024)).
      { rewrite Hn. rewrite Z.div_div by lia. done. }
      assert (Hb' : 1 <= n / 1024 < 1024 ^ (Z.of_nat fuel + 1)).
      { split.
        - apply Z.div_le_lower_bound; lia.
        - apply Z.div_lt_upper_bound; [lia|].
          replace (Z.of_nat (S fuel) + 1) with (Z.succ (Z.of_nat fuel + 1))
            in Hb by lia.
          rewrite Z.pow_succ_r in Hb by lia. lia. }
      destruct (IH (n / 1024) (div * 1024) (S exp) ltac:(lia) Hn' Hb')
        as (e & He & Hloop & Hbound).
      exists (S e). split; [lia|].
      replace (Z.of_nat (S e)) with (Z.succ (Z.of_nat e)) by lia.
      rewrite Z.pow_succ_r by lia.
      replace (div * (1024 * 1024 ^ Z.of_nat e))
        with (div * 1024 * 1024 ^ Z.of_nat e) by lia.
      split; [|exact Hbound]. rewrite Hloop. do 2 f_equal. lia.
    + exists 0%nat. rewrite Z.mul_1_r, Nat.add_0_r.
      split; [lia|]. split; [done|]. nia.
Qed.
End FormatBytesFacts.

(** X21.  [formatBytes] never panics and its loop ends within five turns
    for every [int64]: below 1024 (negative counts too) the count is
    printed as it is, and from 1024 on the unit is the power [1024^(e+1)]
    of 1024 with [e <= 5] for which the value lies between 1 and 1024,
    with the letter of that power from "KMGTPE". *)
Theorem formatBytes_unit (bytes : Z) :
  bytes < 2 ^ 63 →
  (bytes < 1024 → ui.formatBytes bytes = Some (Done (ui.PlainBytes bytes)))
  ∧ (1024 <= bytes →
     ∃ (e : nat) (letter : Ascii.ascii),
       ui.unit_letters !! e = Some letter
       ∧ 1024 ^ (Z.of_nat e + 1) <= bytes < 1024 ^ (Z.of_nat e + 2)
       ∧ ui.formatBytes bytes
         = Some (Done (ui.ScaledBytes
                         (PrimFloat.div (float64_of_int bytes)
                            (float64_of_int (1024 ^ (Z.of_nat e + 1))))
                         letter))).
Proof.
  intros Hb. split.
  - intros Hlt. unfold ui.formatBytes.
    destruct (Z.ltb_spec bytes 1024); [done|lia].
  - intros Hge. unfold ui.formatBytes.
    destruct (Z.ltb_spec bytes 1024); [lia|].
    rewrite quot_div_nonneg by lia.
    destruct (formatBytes_loop_spec bytes Hb 5 (bytes / 1024) 1024 0)
      as (e & He & Hloop & Hbound); [lia|done| |].
    { split; [apply Z.div_le_lower_bound; lia|].
      apply Z.div_lt_upper_bound; [lia|]. simpl. lia. }
    rewrite Hloop. simpl.
    assert (Hpow : 1024 * 1024 ^ Z.of_nat e = 1024 ^ (Z.of_nat e + 1)).
    { rewrite Z.pow_add_r by lia. lia. }
    destruct (lookup_lt_is_Some_2 ui.unit_letters e) as [letter Hl];
      [simpl; lia|].
    exists e, letter. rewrite Hl, Hpow. split; [done|]. split; [|done].
    replace (Z.of_nat e + 2) with (Z.succ (Z.of_nat e + 1)) by lia.
    rewrite Z.pow_succ_r by lia. rewrite <- Hpow. lia.
Qed.

Lemma formatBytes_unit_witness :
  ui.formatBytes 1536 = Some (Done (ui.ScaledBytes 1.5%float "K"%char))
  ∧ ui.formatBytes (-5) = Some (Done (ui.PlainBytes (-5)))
  ∧ ∃ (e : nat) (letter : Ascii.ascii),
      ui.unit_letters !! e = Some letter
      ∧ 1024 ^ (Z.of_nat e + 1) <= 2 ^ 63 - 1 < 1024 ^ (Z.of_nat e + 2)
      ∧ ui.formatBytes (2 ^ 63 - 1)
        = Some (Done (ui.ScaledBytes
                        (PrimFloat.div (float64_of_int (2 ^ 63 - 1))
                           (float64_of_int (1024 ^ (Z.of_nat e + 1))))
                        letter)).
Proof.
  split; [vm_compute; reflexivity|].
  split; [exact (proj1 (formatBytes_unit (-5) ltac:(lia)) ltac:(lia))|].
  exact (proj2 (formatBytes_unit (2 ^ 63 - 1) ltac:(lia)) ltac:(lia)).
Defined.

Section WindowFacts.
Implicit Types (mw : ui.MainWindow) (dm : DownloadManager).

Lemma CancelDownload_rows id dm k :
  is_Some (rows (db (CancelDownload id dm).1) !! k)
  ↔ is_Some (rows (db dm) !! k).
Proof.
  unfold CancelDownload.
  set (dm0 := match downloads dm !! id with Some _ => _ | None => _ end).
  assert (Hdb0 : db dm0 = db dm).
  { unfold dm0. destruct (downloads dm !! id) as [p|]; [|done].
    by destruct (heap dm !! p). }
  destruct (GetDownload (db dm0) id); simpl; rewrite Hdb0; [done|].
  rewrite lookup_alter. case_decide as Hk; [|done]. subst k.
  by rewrite fmap_is_Some.
Qed.

Lemma loadDownloads_manager mw :
  ui.downloadManager (ui.loadDownloads mw) = ui.downloadManager mw.
Proof.
  unfold ui.loadDownloads. by destruct (GetDownloads (ui.downloadManager mw)).
Qed.
End WindowFacts.

(** X22.  "Delete" in the main window deletes nothing from the store:
    whatever is selected and answered, every row is still there
    afterwards.  Without confirmation, or with a selection outside the
    list, nothing happens at all; and for a selected record that is not
    Downloading the manager is left as it is. *)
Theorem deleteSelectedDownload_keeps_rows (selected : Z) (confirmed : bool)
    (mw : ui.MainWindow) :
  let mw1 := ui.deleteSelectedDownload selected confirmed mw in
  (∀ k, is_Some (rows (db (ui.downloadManager mw1)) !! k)
        ↔ is_Some (rows (db (ui.downloadManager mw)) !! k))
  ∧ (confirmed = false → mw1 = mw)
  ∧ (¬ (0 <= selected < Z.of_nat (length (ui.shown mw))) → mw1 = mw)
  ∧ (∀ d, ui.shown mw !! Z.to_nat selected = Some d →
          Status d ≠ StatusDownloading →
          ui.downloadManager mw1 = ui.downloadManager mw).
Proof.
  intros mw1. unfold mw1, ui.deleteSelectedDownload.
  destruct (Z.leb_spec 0 selected) as [H0|H0];
    destruct (Z.ltb_spec selected (Z.of_nat (length (ui.shown mw)))) as [H1|H1];
    simpl; try (split_and!; try done; intros Hr; lia).
  destruct (ui.shown mw !! Z.to_nat selected) as [d|] eqn:Hd;
    [|split_and!; done].
  destruct confirmed; [|split_and!; done].
  split_and!.
  - intros k. rewrite loadDownloads_manager. simpl.
    case_decide; [apply CancelDownload_rows|done].
  - done.
  - intros Hr. lia.
  - intros d' [= <-] Hs. rewrite loadDownloads_manager. simpl.
    by case_decide.
Qed.

Lemma deleteSelectedDownload_keeps_rows_witness :
  let mw := ui.mkWindow dm_running [rec_2048] in
  ui.shown mw !! Z.to_nat 0 = Some rec_2048
  ∧ is_Some (rows (db (ui.downloadManager
                         (ui.deleteSelectedDownload 0 true mw))) !! 0)
  ∧ ui.deleteSelectedDownload 5 true mw = mw
  ∧ ui.downloadManager
      (ui.deleteSelectedDownload 0 true (ui.mkWindow dm_started [recA]))
    = dm_started.
Proof.
  intros mw.
  destruct (deleteSelectedDownload_keeps_rows 0 true mw) as (Hrows & _).
  destruct (deleteSelectedDownload_keeps_rows 5 true mw) as (_ & _ & Hout & _).
  destruct (deleteSelectedDownload_keeps_rows 0 true
              (ui.mkWindow dm_started [recA])) as (_ & _ & _ & Hidle).
  split; [reflexivity|]. split; [|split].
  - apply Hrows. vm_compute. eauto.
  - apply Hout. simpl. lia.
  - apply (Hidle recA); [reflexivity|]. vm_compute. discriminate.
Defined.

(** X23.  [onDownloadUpdate] replaces the first listed record that has
    the id of the update and leaves the rest of the list as it is; the
    list keeps its length.  An update for an id that is not listed is
    dropped: the record does not appear until the list is loaded again. *)
Theorem onDownloadUpdate_replaces_first (d : Download) (mw : ui.MainWindow) :
  let mw1 := ui.onDownloadUpdate d mw in
  length (ui.shown mw1) = length (ui.shown mw)
  ∧ ui.downloadManager mw1 = ui.downloadManager mw
  ∧ (Forall (λ x, ID x ≠ ID d) (ui.shown mw) → mw1 = mw)
  ∧ (∀ l1 x l2, ui.shown mw = l1 ++ x :: l2 →
       Forall (λ y, ID y ≠ ID d) l1 → ID x = ID d →
       ui.shown mw1 = l1 ++ d :: l2).
Proof.
  intros mw1. unfold mw1, ui.onDownloadUpdate.
  destruct (list_find (λ x, ID x = ID d) (ui.shown mw)) as [[i x]|] eqn:Hf.
  - apply list_find_Some in Hf as (Hi & Hx & Hleast). simpl. split_and!.
    + apply length_insert.
    + done.
    + intros Hall. eapply Forall_lookup_1 in Hall; eauto. done.
    + intros l1 y l2 Hsh Hl1 Hy.
      assert (i = length l1) as ->.
      { destruct (Nat.lt_total i (length l1)) as [Hlt|[Heq|Hgt]]; [|done|].
        - rewrite Hsh, lookup_app_l in Hi by done.
          eapply Forall_lookup_1 in Hl1; eauto. done.
        - exfalso. apply (Hleast (length l1) y); [|done|done].
          rewrite Hsh. by apply list_lookup_middle. }
      rewrite Hsh. replace (length l1) with (length l1 + 0)%nat by lia.
      by rewrite insert_app_r.
  - apply list_find_None in Hf. split_and!; try done.
    intros l1 x l2 Hsh _ Hx. rewrite Hsh in Hf.
    apply Forall_app in Hf as [_ Hf]. apply Forall_cons in Hf as [Hf _]. done.
Qed.

Lemma onDownloadUpdate_replaces_first_witness :
  let mw := ui.mkWindow dm_running [recC; rec_zero; recB] in
  ui.shown (ui.onDownloadUpdate rec_2048 mw) = [recC; rec_2048; recB]
  ∧ ui.onDownloadUpdate recD mw = mw.
Proof.
  intros mw.
  destruct (onDownloadUpdate_replaces_first rec_2048 mw) as (_ & _ & _ & Hrep).
  destruct (onDownloadUpdate_replaces_first recD mw) as (_ & _ & Hdrop & _).
  split.
  - apply (Hrep [recC] rec_zero [recB]); [reflexivity| |reflexivity].
    repeat constructor. simpl. lia.
  - apply Hdrop. repeat constructor; simpl; lia.
Defined.

(** X24.  The names of [DownloadStatus.String] tell the six statuses
    apart, and "Unknown" is the name of exactly the values outside
    0 to 5. *)
Theorem DownloadStatus_String_names (s t : DownloadStatus) :
  (0 <= s <= 5 → 0 <= t <= 5 →
   DownloadStatus_String s = DownloadStatus_String t → s = t)
  ∧ (DownloadStatus_String s = "Unknown" ↔ ¬ (0 <= s <= 5)).
Proof.
  assert (Hcases : ∀ x : Z, 0 <= x <= 5 →
            x = 0 ∨ x = 1 ∨ x = 2 ∨ x = 3 ∨ x = 4 ∨ x = 5) by lia.
  split.
  - intros Hs Ht.
    destruct (Hcases s Hs) as [->|[->|[->|[->|[->| ->]]]]];
      destruct (Hcases t Ht) as [->|[->|[->|[->|[->| ->]]]]];
      vm_compute; intros H; try reflexivity; discriminate H.
  - split.
    + intros Hu Hs.
      destruct (Hcases s Hs) as [->|[->|[->|[->|[->| ->]]]]];
        vm_compute in Hu; discriminate Hu.
    + intros Hs. unfold DownloadStatus_String, StatusPending,
        StatusDownloading, StatusPaused, StatusCompleted, StatusFailed,
        StatusCancelled.
      repeat (case_decide; [lia|]). done.
Qed.

Lemma DownloadStatus_String_names_witness :
  DownloadStatus_String StatusFailed = "Failed"
  ∧ DownloadStatus_String 7 = "Unknown"
  ∧ (DownloadStatus_String StatusPaused = DownloadStatus_String 2 →
     StatusPaused = 2).
Proof.
  split; [reflexivity|]. split.
  - apply (proj2 (DownloadStatus_String_names 7 0)). lia.
  - apply (proj1 (DownloadStatus_String_names StatusPaused 2));
      unfold StatusPaused; lia.
Defined.

(** ** A whole single-stream run *)

Section SingleStreamFacts.
Implicit Types (job : DownloadJob) (reads : list ReadIO).

(** The job with its byte counter set to [v]. *)
Lemma single_turn_clean io job :
  ctx_done job = false → 0 <= io_n io → io_write io = None →
  0 <= Downloaded (download job) →
  Downloaded (download job) + io_n io < 2 ^ 63 →
  downloadSingleFile_iter io job
  = (set_download
       (set_Downloaded (Downloaded (download job) + io_n io) (download job))
       job,
     after_read (io_err io)).
Proof.
  intros Hc Hn Hw HD Hsum. unfold downloadSingleFile_iter. rewrite Hc.
  destruct (Z.ltb_spec 0 (io_n io)) as [Hpos|Hz].
  - rewrite Hw. unfold bump_Downloaded.
    by rewrite wrap64_id by (unfold in_int64; lia).
  - replace (io_n io) with 0 by lia. rewrite Z.add_0_r.
    by destruct job as [[] ? ? ? ?].
Qed.

Lemma single_loop_clean reads job :
  ctx_done job = false → Forall clean_read reads →
  0 <= Downloaded (download job) →
  Downloaded (download job) + total_n reads < 2 ^ 63 →
  downloadSingleFile_loop reads job
  = (set_download
       (set_Downloaded (Downloaded (download job) + total_n reads)
          (download job)) job,
     Running).
Proof.
  intros Hc Hreads. revert job Hc.
  induction Hreads as [|io reads (Hn & He & Hw) Hreads IH];
    intros job Hc HD Hsum; simpl.
  - rewrite Z.add_0_r. by destruct job as [[] ? ? ? ?].
  - simpl in Hsum.
    assert (Ht : 0 <= total_n reads).
    { clear -Hreads. induction Hreads as [|x l (Hx & _) _ IH']; simpl; lia. }
    rewrite (single_turn_clean io job Hc Hn Hw HD) by lia.
    rewrite He. simpl. rewrite IH; simpl; try done; try lia.
    by rewrite Z.add_assoc.
Qed.

Lemma single_loop_snoc reads io job job1 :
  downloadSingleFile_loop reads job = (job1, Running) →
  downloadSingleFile_loop (reads ++ [io]) job
  = match downloadSingleFile_iter io job1 with
    | (job2, Running) => (job2, Running)
    | stop => stop
    end.
Proof.
  revert job. induction reads as [|r reads IH]; intros job; simpl.
  - intros [= ->]. done.
  - destruct (downloadSingleFile_iter r job) as [j [|err]]; [|done].
    apply IH.
Qed.
End SingleStreamFacts.

(** X25.  A whole run of [executeDownload] in single-stream mode.  Given
    that the probe returns (it reads the client of the job registered
    under id 0), that its answer or the size rules out ranged mode, that
    no speed limit is set, the file can be created, the job is not
    cancelled and the body is read without error up to its end: the run
    returns, the record is Completed with progress 100, [started_at] and
    [completed_at] set to the times of the first and the last step, and a
    byte counter of the value it started with plus the bytes read; that
    record is in the store and was announced last, the id is
    unregistered, and [activeDownloads] is back at its value. *)
Theorem executeDownload_single_stream (t0 t1 : Time) (o : Origin) (p : nat)
    (job : DownloadJob) (dm : DownloadManager) (supportsRange : bool)
    (reads : list ReadIO) (last_n : Z) :
  heap dm !! p = Some job →
  supportsRangeRequests (probe o) dm = Done supportsRange →
  ranged_mode supportsRange (config dm) (download job) = false →
  MaxSpeed (config dm) = 0 →
  create o = None →
  single o = Body (reads ++ [mkRead last_n (Some EOF) None]) →
  ctx_done job = false →
  Forall clean_read reads → 0 <= last_n →
  0 <= Downloaded (download job) →
  Downloaded (download job) + (total_n reads + last_n) < 2 ^ 63 →
  - 2 ^ 31 <= activeDownloads dm < 2 ^ 31 →
  let d := download job in
  let completed :=
    mkDownload (ID d) (URL d) (Filename d) (Path d) (Size d)
      (Downloaded d + (total_n reads + last_n)) StatusCompleted (Speed d)
      100%float (CreatedAt d) (Some t0) (Some t1) (Error d) (Chunks d) in
  ∃ dm1,
    executeDownload t0 t1 o p dm = Done (dm1, Returned None)
    ∧ heap dm1 !! p = Some (set_download completed job)
    ∧ (∀ r, rows (db dm) !! ID d = Some r →
         GetDownload (db dm1) (ID d)
         = inr (mkDownload (ID d) (col_url r) (col_filename r) (col_path r)
                  (col_size r) (Downloaded completed) StatusCompleted
                  (Speed d) 100%float (col_created_at r) (Some t0) (Some t1)
                  (Error d) (col_chunks r)))
    ∧ last (notified dm1) = Some completed
    ∧ downloads dm1 = delete (ID d) (downloads dm)
    ∧ activeDownloads dm1 = activeDownloads dm.
Proof.
  intros Hp Hprobe Hmode Hspeed Hcreate Hsingle Hctx Hreads Hn HD Hsum Hact
    d completed.
  set (started := set_StartedAt (Some t0) (set_Status StatusDownloading d)).
  set (jobS := set_download started job).
  destruct (executeDownload_begin_job t0 p job dm Hp) as [Hj Hd].
  fold d started jobS in Hj.
  set (dmB := executeDownload_begin t0 p dm) in *.
  assert (HdmB : dmB = updateDownload started
                         (store_job p jobS (add_active 1 dm))).
  { unfold dmB, executeDownload_begin. simpl. rewrite Hp. done. }
  assert (HprobeB : supportsRangeRequests (probe o) dmB = Done supportsRange).
  { unfold supportsRangeRequests in *. by rewrite Hd. }
  assert (HcfgB : config dmB = config dm) by (by rewrite HdmB).
  assert (Hloop : downloadSingleFile_loop
                    (reads ++ [mkRead last_n (Some EOF) None]) jobS
            = (set_download
                 (set_Downloaded (Downloaded d + (total_n reads + last_n))
                    started) jobS, Returned None)).
  { assert (HDS : Downloaded (download jobS) = Downloaded (download job))
      by done.
    assert (Hsum1 : Downloaded (download jobS) + total_n reads < 2 ^ 63)
      by (rewrite HDS; lia).
    assert (HD1 : 0 <= Downloaded (download jobS)) by (rewrite HDS; lia).
    assert (Ht : 0 <= total_n reads).
    { clear -Hreads. induction Hreads as [|x l (Hx & _) _ IH']; simpl; lia. }
    pose proof (single_loop_clean reads jobS Hctx Hreads HD1 Hsum1) as Hl.
    rewrite (single_loop_snoc _ _ _ _ Hl).
    rewrite single_turn_clean; try done;
      try (cbn [download set_download Downloaded set_Downloaded io_n];
           fold d; unfold d; lia).
    cbn [io_err io_n after_read]. rewrite HDS. fold d.
    by rewrite Z.add_assoc. }
  set (jobT := set_download
                 (set_Downloaded (Downloaded d + (total_n reads + last_n))
                    started) jobS) in *.
  assert (Hexec : executeDownload t0 t1 o p dm
            = Done (executeDownload_finish t1 p None (store_job p jobT dmB),
                    Returned None)).
  { unfold executeDownload. fold dmB. rewrite Hj, HprobeB, HcfgB.
    change (download jobS) with started.
    assert (Hm : ranged_mode supportsRange (config dm) started = false)
      by exact Hmode.
    rewrite Hm. unfold downloadSingleFile. rewrite Hsingle, Hcreate.
    unfold start_limiter. rewrite Hspeed. simpl (0 <? 0).
    cbv iota. by rewrite Hloop. }
  eexists. split; [exact Hexec|].
  assert (HpT : heap (store_job p jobT dmB) !! p = Some jobT)
    by (by apply heap_store_job with (job := jobS)).
  destruct (executeDownload_finish_None t1 p jobT (store_job p jobT dmB) HpT)
    as (Hh & Hdb & Hnote & Hreg).
  split_and!.
  - rewrite Hh. by destruct job.
  - intros r Hr. rewrite Hdb.
    set (fin := mkDownload _ _ _ _ _ _ _ _ _ _ _ _ _ _).
    assert (Hrow : ∃ r1, rows (db (store_job p jobT dmB)) !! ID fin = Some r1
                         ∧ descriptive r1 = descriptive r).
    { rewrite HdmB. simpl. rewrite lookup_alter_eq, Hr. simpl. eauto. }
    destruct Hrow as (r1 & Hr1 & Hdesc).
    change (ID d) with (ID fin).
    rewrite (GetDownload_after_Update _ fin r1 Hr1)
      by (vm_compute; reflexivity).
    unfold descriptive in Hdesc. injection Hdesc as -> -> -> -> -> ->. done.
  - rewrite Hnote. apply last_snoc.
  - rewrite Hreg. rewrite HdmB. done.
  - unfold executeDownload_finish. rewrite HpT. simpl. rewrite HdmB. simpl.
    by apply wrap32_succ_pred.
Qed.

Lemma executeDownload_single_stream_witness :
  ∃ dm1,
    executeDownload 110 120 origin_plain 0 dm_zero
    = Done (dm1, Returned None)
    ∧ GetDownload (db dm1) 0
      = inr (mkDownload 0 "http://origin/z.bin" "z.bin" "/tmp" 4096
               (0 + (0 + 4096)) StatusCompleted 0 100%float (UTC 100)
               (Some 110) (Some 120) "" 4)
    ∧ downloads dm1 !! 0 = None.
Proof.
  destruct (executeDownload_single_stream 110 120 origin_plain 0
              (mkJob rec_zero false (30 * Second) [] 105) dm_zero false
              [] 4096)
    as (dm1 & Hexec & _ & Hget & _ & Hreg & _);
    try reflexivity; try (simpl; lia); try (vm_compute; reflexivity).
  - constructor.
  - change (activeDownloads dm_zero) with 0. lia.
  - exists dm1. split; [exact Hexec|]. split.
    + apply (Hget (mkRow "http://origin/z.bin" "z.bin" "/tmp" 4096 0
                     StatusPending 0 0%float (UTC 100) None None (Some "") 4)).
      vm_compute. reflexivity.
    + rewrite Hreg. apply lookup_delete_eq.
Defined.
